(** * Alliance description template: a shallow embedding of
    [01_parse_descriptions/01_alliance_template.py]

    The script is a linear pipeline over pandas tables.  Tables are modelled
    as lists of records (one record per row, in row order), columns as
    lists, and numeric cells as exact rationals: binary floating-point
    rounding error is outside the model, except where a number is printed
    and the rounding decides its digits, while the non-finite values that
    floating-point division can create (infinities, not-a-number) are kept
    where the code can produce them. *)

From Stdlib Require Import QArith Qround Qabs ZArith List String Ascii Bool Lia Lqa.
From Stdlib Require DecimalString.
From Stdlib Require Import Sorting.Sorted Sorting.Permutation.
Import ListNotations.

Open Scope Q_scope.

(** ** Numeric cells and column helpers *)

Module Frame.

(** A numeric cell of a table: [None] is pandas' missing value (NaN/None). *)
Definition cell := option Q.

(** [column >= t] on one cell: a comparison with a missing value is False. *)
Definition cell_ge (c : cell) (t : Q) : bool :=
  match c with
  | Some v => Qle_bool t v
  | None => false
  end.

(** Numeric equality and inequality of two finite values ([==], [!=]). *)
Definition num_eqb (x y : Q) : bool := Qeq_bool x y.
Definition num_neqb (x y : Q) : bool := negb (Qeq_bool x y).

(** [Series.dropna()]: the present values, in row order. *)
Fixpoint dropna {A : Type} (col : list (option A)) : list A :=
  match col with
  | [] => []
  | Some v :: rest => v :: dropna rest
  | None :: rest => dropna rest
  end.

(** [Series.sum()] of finite values (0 for an empty series). *)
Definition qsum (xs : list Q) : Q := fold_right Qplus 0 xs.

(** Round half to even to the nearest integer, as [numpy.rint]. *)
Definition rint (x : Q) : Z :=
  let n := Qnum x in
  let d := Zpos (Qden x) in
  let lo := (n / d)%Z in
  let r := (n mod d)%Z in
  match (2 * r ?= d)%Z with
  | Lt => lo
  | Gt => (lo + 1)%Z
  | Eq => if Z.even lo then lo else (lo + 1)%Z
  end.

(** [.round(1)] on one finite value. *)
Definition round1 (x : Q) : Q := inject_Z (rint (x * 10)) / 10.

(** The binary exponent of a value above zero: the integer [e] with
    [2 ^ e <= x < 2 ^ (e + 1)]. *)
Definition exponent (x : Q) : Z :=
  let k := (Z.log2 (Qnum x) - Z.log2 (Zpos (Qden x)))%Z in
  if Qle_bool (2 ^ k) x then k else (k - 1)%Z.

(** The result of a floating-point operation whose exact result is [x]:
    the binary64 value nearest to [x], with a significand of 53 bits, a
    tie going to the even significand.  The values are within the normal
    range (no overflow, no subnormal value), as the quotient of two counts
    and its multiples by 10 and 100 are. *)
Definition binary64 (x : Q) : Q :=
  let x := Qred x in
  match Qnum x with
  | Z0 => 0
  | Zpos _ =>
      let ulp := 2 ^ (exponent x - 52) in
      inject_Z (rint (x / ulp)) * ulp
  | Zneg _ =>
      let ulp := 2 ^ (exponent (- x) - 52) in
      - (inject_Z (rint (- x / ulp)) * ulp)
  end.

(** Columns of categorical values, for any type of values with a boolean
    equality. *)
Section Categorical.

Context {A : Type} (eqb : A -> A -> bool).

(** [Series.unique()]: the distinct values in order of first appearance;
    [seen] lists the values met so far. *)
Fixpoint unique_from (seen col : list A) : list A :=
  match col with
  | [] => []
  | x :: rest =>
      if existsb (eqb x) seen
      then unique_from seen rest
      else x :: unique_from (x :: seen) rest
  end.

Definition unique (col : list A) : list A := unique_from [] col.

(** The number of rows of a column that hold [x]. *)
Definition count_rows (x : A) (col : list A) : nat :=
  List.length (filter (eqb x) col).

(** Insertion into a list ordered by decreasing count; among equal counts
    the entry inserted last comes first. *)
Fixpoint insert_by_count (e : A * nat) (l : list (A * nat)) : list (A * nat) :=
  match l with
  | [] => [e]
  | f :: rest =>
      if (snd f <=? snd e)%nat then e :: l else f :: insert_by_count e rest
  end.

(** [Series.value_counts()]: one entry per distinct value with the number
    of rows holding it, by decreasing count (values of equal count in order
    of first appearance). *)
Definition value_counts (col : list A) : list (A * nat) :=
  fold_right insert_by_count []
             (map (fun x => (x, count_rows x col)) (unique col)).

End Categorical.

End Frame.

(** ** Diagnostic sets and species composition: the inclusion rule *)

Module Floristics.
Import Frame.

(** One row of [stats_diagnostic] / [stats_composition] after the merge of
    the constancy table with the cover statistics and [.round(1)].  The
    cover statistics come from a left merge and may be missing. *)
Record stats_row := {
  name : string;
  occurrences : Q;
  constancy : cell;
  mean : cell;
  std : cell;
  median : cell;
  min : cell;
  max : cell;
  percentile_10th : cell;
  percentile_25th : cell;
  percentile_75th : cell;
  percentile_90th : cell
}.

(** The boolean mask of lines 778-782 ([stats_diagnostic]). *)
Definition diagnostic_mask (r : stats_row) : bool :=
  cell_ge (percentile_75th r) 1
  && ((cell_ge (constancy r) 25 && cell_ge (mean r) 2)
      || (cell_ge (constancy r) 50 && cell_ge (mean r) 1)).

(** The boolean mask of lines 976-980 ([stats_composition]). *)
Definition composition_mask (r : stats_row) : bool :=
  cell_ge (percentile_75th r) 1
  && ((cell_ge (constancy r) 25 && cell_ge (mean r) 2)
      || (cell_ge (constancy r) 50 && cell_ge (mean r) 1)).

(** Boolean-mask indexing [table[mask]] keeps the rows whose mask is True. *)
Definition filter_stats_diagnostic (table : list stats_row) : list stats_row :=
  filter diagnostic_mask table.

Definition filter_stats_composition (table : list stats_row) : list stats_row :=
  filter composition_mask table.

(** The rule in the words of the description: the 75th percentile is at
    least 1 and (constancy at least 25 and mean at least 2, or constancy at
    least 50 and mean at least 1). *)
Definition inclusion_rule (r : stats_row) : Prop :=
  exists c m p,
    constancy r = Some c /\ mean r = Some m /\ percentile_75th r = Some p /\
    1 <= p /\ ((25 <= c /\ 2 <= m) \/ (50 <= c /\ 1 <= m)).

End Floristics.

(** ** Strings *)

Module Text.

Open Scope string_scope.

Definition char (n : nat) : ascii := ascii_of_nat n.

Definition LF : ascii := char 10.
Definition CR : ascii := char 13.

(** Strings are sequences of characters with codes below 128.  For them
    Python's [str.isspace] and the regular-expression class of whitespace
    agree: tab, line feed, vertical tab, form feed, carriage return, the
    separators 28 to 31, and the space. *)
Definition isspace (c : ascii) : bool :=
  let n := nat_of_ascii c in
  ((9 <=? n) && (n <=? 13) || (28 <=? n) && (n <=? 32))%nat.

(** [s.lstrip()]. *)
Fixpoint lstrip (s : string) : string :=
  match s with
  | EmptyString => EmptyString
  | String c rest => if isspace c then lstrip rest else s
  end.

(** [s.rstrip()]. *)
Fixpoint rstrip (s : string) : string :=
  match s with
  | EmptyString => EmptyString
  | String c rest =>
      match rstrip rest with
      | EmptyString => if isspace c then EmptyString else String c EmptyString
      | kept => String c kept
      end
  end.

(** [s.strip()]. *)
Definition strip (s : string) : string := rstrip (lstrip s).

(** Nothing but whitespace in [s]. *)
Fixpoint blank (s : string) : bool :=
  match s with
  | EmptyString => true
  | String c rest => isspace c && blank rest
  end.

(** [s] without the prefix [p], when [s] starts with [p]. *)
Fixpoint after_prefix (p s : string) : option string :=
  match p, s with
  | EmptyString, _ => Some s
  | String a p', String b s' => if Ascii.eqb a b then after_prefix p' s' else None
  | String _ _, EmptyString => None
  end.

(** The text that follows the leftmost occurrence of [lit] in [s]. *)
Fixpoint after_first (lit s : string) : option string :=
  match after_prefix lit s with
  | Some rest => Some rest
  | None =>
      match s with
      | EmptyString => None
      | String _ t => after_first lit t
      end
  end.

(** [lit] occurs in [s]. *)
Definition occurs (lit s : string) : Prop :=
  exists before after, s = before ++ lit ++ after.

(** No line feed in [s]. *)
Fixpoint one_line (s : string) : bool :=
  match s with
  | EmptyString => true
  | String c rest => negb (Ascii.eqb c LF) && one_line rest
  end.

(** The longest prefix without a line feed: what the capturing group
    of any characters but the line feed matches, greedily. *)
Fixpoint upto_newline (s : string) : string :=
  match s with
  | EmptyString => EmptyString
  | String c rest => if Ascii.eqb c LF then EmptyString else String c (upto_newline rest)
  end.

(** [s[:-n]] for [n > 0]: the string without its last [n] characters. *)
Definition drop_last (n : nat) (s : string) : string :=
  substring 0 (String.length s - n) s.

(** [s.split(sep)] for a non-empty separator, read left to right: [cur] is
    the piece being read and [skip] counts the characters of a separator
    just recognised that are still to be passed over. *)
Fixpoint split_from (sep : string) (skip : nat) (cur s : string) : list string :=
  match s with
  | EmptyString => [cur]
  | String c t =>
      match skip with
      | S k => split_from sep k cur t
      | O =>
          if prefix sep s
          then cur :: split_from sep (String.length sep - 1) EmptyString t
          else split_from sep 0 (cur ++ String c EmptyString) t
      end
  end.

Definition split (sep s : string) : list string := split_from sep 0 EmptyString s.

End Text.

(** ** Script execution: printed output and uncaught exceptions *)

Module Run.

(** The exceptions the modelled statements can raise. *)
Inductive exn : Type :=
  | AttributeError
  | KeyError.

Inductive outcome (A : Type) : Type :=
  | Return (a : A)
  | Raise (e : exn).

Arguments Return {A} a.
Arguments Raise {A} e.

(** A statement of the script: it appends to the printed lines and either
    yields a value or terminates the run with an uncaught exception. *)
Definition script (A : Type) : Type := list string -> outcome A * list string.

Definition ret {A : Type} (a : A) : script A := fun out => (Return a, out).

Definition raise {A : Type} (e : exn) : script A := fun out => (Raise e, out).

Definition print (line : string) : script unit := fun out => (Return tt, out ++ [line]).

Definition bind {A B : Type} (m : script A) (k : A -> script B) : script B :=
  fun out =>
    match m out with
    | (Return a, out') => k a out'
    | (Raise e, out') => (Raise e, out')
    end.

Notation "x <- m ;; k" := (bind m (fun x => k))
  (at level 61, m at next level, right associativity).

(** Running a script from an empty output. *)
Definition run {A : Type} (m : script A) : outcome A * list string := m [].

End Run.

(** ** Markdown data-entry file *)

Module Markdown.
Import Text Run.

Open Scope string_scope.

(** The files on disk: [None] when the path does not exist, in which case
    [open] raises [FileNotFoundError]. *)
Definition filesystem : Type := string -> option string.

(** Characters with a special meaning in a regular expression.  A label
    without any of them is matched literally, character by character. *)
Definition regex_special (c : ascii) : bool :=
  existsb (Ascii.eqb c) (list_ascii_of_string ".^$*+?{}[]\|()").

Definition plain_label (label : string) : bool :=
  forallb (fun c => negb (regex_special c)) (list_ascii_of_string label).

(** The literal text matched by the pattern's head, two escaped stars, the
    label, a colon and two escaped stars. *)
Definition marker (label : string) : string := "**" ++ label ++ ":**".

(** [re.search(pattern, content)] followed by [match.group(1)], for a
    plain label: the leftmost occurrence of the marker is taken, the
    whitespace run after it is consumed greedily (line ends included), and
    the group captures the characters up to the next line feed.  A label
    with a special character is outside this definition: the script
    splices the label into the pattern as it is, and such a label makes
    another pattern or none at all. *)
Definition search_group1 (label content : string) : option string :=
  match after_first (marker label) content with
  | Some rest => Some (upto_newline (lstrip rest))
  | None => None
  end.

(** [parse_markdown(text_input, label)], lines 93-116. *)
Definition parse_markdown (fs : filesystem) (text_input label : string)
  : script (option string) :=
  match fs text_input with
  | Some content =>
      match search_group1 label content with
      | Some group1 => ret (Some (strip group1))
      | None => ret None
      end
  | None =>
      _ <- print ("Error: The file " ++ text_input ++ " was not found.") ;;
      ret None
  end.

(** [photo_text.split(', ')]: attribute access on [None] raises. *)
Definition split_photos (photo_text : option string) : script (list string) :=
  match photo_text with
  | Some text => ret (split ", " text)
  | None => raise AttributeError
  end.

Record descriptions : Type := {
  unit_name : option string;
  level_text : option string;
  photo_text : option string;
  photo_list : list string
}.

(** The statements of lines 121-125. *)
Definition parse_text_descriptions (fs : filesystem) (text_input : string)
  : script descriptions :=
  unit_name <- parse_markdown fs text_input "Unit Name" ;;
  level_text <- parse_markdown fs text_input "Level" ;;
  photo_text <- parse_markdown fs text_input "Photos" ;;
  photo_list <- split_photos photo_text ;;
  ret {| unit_name := unit_name; level_text := level_text;
         photo_text := photo_text; photo_list := photo_list |}.

(** The field value in the words of the description: the stripped
    remainder of the line that follows the first marker, null when the
    marker does not occur. *)
Definition line_remainder (label content : string) : option string :=
  match after_first (marker label) content with
  | Some rest => Some (strip (upto_newline rest))
  | None => None
  end.

End Markdown.

(** ** Site visits and the injected WHERE clause *)

Module SiteVisits.
Import Frame Text.

Open Scope string_scope.

(** One row of [site_visit_data] after the raster values were sampled and
    the raster value was replaced by its label through the left merge with
    the raster attribute table ([veg_type] is missing when no attribute
    row matches). *)
Record site_visit : Type := {
  site_visit_code : string;
  veg_type : option string;
  elevation_m : cell;
  slope_deg : cell
}.

(** [site_visit_data['veg_type'] == unit_name] on one row. *)
Definition veg_type_is (unit_name : string) (sv : site_visit) : bool :=
  match veg_type sv with
  | Some label => String.eqb label unit_name
  | None => false
  end.

(** Lines 218-219: filter to unit name. *)
Definition filter_to_unit (unit_name : string) (site_visit_data : list site_visit)
  : list site_visit :=
  filter (veg_type_is unit_name) site_visit_data.

Definition where_head : string :=
  String CR (String LF "WHERE site_visit.site_visit_code IN (").

(** Lines 255-258: the loop appends one quoted code and a separator per
    row, then the last two characters are replaced by the closing. *)
Definition input_sql (site_visit_data : list site_visit) : string :=
  let looped :=
    fold_left (fun input_sql sv => input_sql ++ "'" ++ site_visit_code sv ++ "', ")
              site_visit_data where_head in
  drop_last 2 looped ++ ");".

(** The clause written for the site visits of the target unit: the table
    is filtered first, the clause is built from the filtered table. *)
Definition unit_input_sql (unit_name : string) (site_visit_data : list site_visit)
  : string :=
  input_sql (filter_to_unit unit_name site_visit_data).

(** [query.replace(';', input_sql)]: every semicolon of the query text is
    replaced by the clause. *)
Fixpoint replace_semicolon (input_sql query : string) : string :=
  match query with
  | EmptyString => EmptyString
  | String c rest =>
      if Ascii.eqb c ";"
      then input_sql ++ replace_semicolon input_sql rest
      else String c (replace_semicolon input_sql rest)
  end.

(** No semicolon in [s]. *)
Fixpoint semicolon_free (s : string) : bool :=
  match s with
  | EmptyString => true
  | String c rest => negb (Ascii.eqb c ";") && semicolon_free rest
  end.

(** Modelled from the spec: the relational store that runs the queries is
    not part of the repository.  It reads the text of a restriction as a
    list of string literals, each delimited by a pair of single quotes:
    the codes of the IN list. *)
Fixpoint quoted_literals (inside : bool) (cur s : string) : list string :=
  match s with
  | EmptyString => []
  | String c rest =>
      if Ascii.eqb c "'"
      then if inside
           then cur :: quoted_literals false EmptyString rest
           else quoted_literals true EmptyString rest
      else if inside
           then quoted_literals true (cur ++ String c EmptyString) rest
           else quoted_literals false EmptyString rest
  end.

Definition in_list (clause : string) : list string :=
  quoted_literals false EmptyString clause.

(** A code without a single quote, so that it is one string literal once
    written between quotes. *)
Fixpoint quote_free (code : string) : bool :=
  match code with
  | EmptyString => true
  | String c rest => negb (Ascii.eqb c "'") && quote_free rest
  end.

(** A code written as a string literal. *)
Definition quoted (code : string) : string := "'" ++ code ++ "'".

(** The words that open a restriction of the site visit code to a list
    of codes. *)
Definition restriction_head : string := "WHERE site_visit.site_visit_code IN".

(** Modelled from the spec: [query_to_dataframe] runs the text of a
    query.  [table] stands for the rows that the text selects when it
    carries no restriction of the site visit code.  When the text carries
    such a restriction, the rows returned are those whose site visit code
    is one of the string literals that follow its opening words; a text
    without the restriction returns every row. *)
Definition query_to_dataframe {row : Type} (code_of : row -> string)
    (table : list row) (query : string) : list row :=
  match after_first restriction_head query with
  | Some listed =>
      filter (fun r => existsb (String.eqb (code_of r)) (in_list listed)) table
  | None => table
  end.

(** Lines 1182 and 1200 read elevation and slope from the site visit
    table, which by then is the table filtered to the unit. *)
Definition unit_elevation_column (unit_name : string)
    (site_visit_data : list site_visit) : list cell :=
  map elevation_m (filter_to_unit unit_name site_visit_data).

Definition unit_slope_column (unit_name : string)
    (site_visit_data : list site_visit) : list cell :=
  map slope_deg (filter_to_unit unit_name site_visit_data).

End SiteVisits.

(** ** Vegetation cover and constancy *)

Module Vegetation.
Import Frame.

Open Scope string_scope.

(** One row of [vegetation_data] as the query returns it. *)
Record cover_row : Type := {
  site_visit_code : string;
  name_accepted : string;
  cover_type : string;
  dead_status : bool;
  cover_percent : cell
}.

(** [.replace(-999, 0)] on one cell: a missing cell stays missing. *)
Definition replace_absence (c : cell) : cell :=
  match c with
  | Some v => if num_eqb v (-999) then Some 0 else Some v
  | None => None
  end.

Definition with_cover (r : cover_row) (c : cell) : cover_row :=
  {| site_visit_code := site_visit_code r;
     name_accepted := name_accepted r;
     cover_type := cover_type r;
     dead_status := dead_status r;
     cover_percent := c |}.

(** Lines 278-281: the cover column is reassigned, row by row. *)
Definition enforce_numeric (vegetation_data : list cover_row) : list cover_row :=
  map (fun r => with_cover r (replace_absence (cover_percent r))) vegetation_data.

(** Lines 283-286: enforce absolute cover. *)
Definition absolute_cover (r : cover_row) : bool :=
  existsb (String.eqb (cover_type r))
          ["absolute foliar cover"; "absolute canopy cover"].

(** Lines 288-289: enforce live vegetation. *)
Definition live (r : cover_row) : bool := Bool.eqb (dead_status r) false.

(** The cover table after lines 278-289. *)
Definition process_cover (vegetation_data : list cover_row) : list cover_row :=
  filter live (filter absolute_cover (enforce_numeric vegetation_data)).

(** A table with a site visit column and a name column (taxon or
    diagnostic set): the two columns the constancy statements read. *)
Definition occurrence_table : Type := list (string * string).

Definition site_codes (data : occurrence_table) : list string := map fst data.
Definition names (data : occurrence_table) : list string := map snd data.

Record constancy_row : Type := {
  taxon : string;
  occurrences : nat;
  constancy : Q
}.

(** Lines 872-878 (and 703-718, 880-894 with the other tables): the rows
    per name are counted, divided by the number of distinct site visit
    codes of the table and multiplied by 100. *)
Definition constancy_table (data : occurrence_table) : list constancy_row :=
  map (fun e =>
         {| taxon := fst e;
            occurrences := snd e;
            constancy :=
              (inject_Z (Z.of_nat (snd e))
               / inject_Z (Z.of_nat (List.length (unique String.eqb (site_codes data)))))
              * 100 |})
      (value_counts String.eqb (names data)).

(** Lines 872-878: vascular constancy, on the vascular cover rows. *)
Definition constancy_vascular (vascular_data : occurrence_table) : list constancy_row :=
  constancy_table vascular_data.

(** Lines 703-709: diagnostic constancy for vascular plants, on the table
    grouped by site visit and diagnostic set. *)
Definition constancy_diagnostic_vasc (diagnostic_vascular : occurrence_table)
  : list constancy_row :=
  constancy_table diagnostic_vascular.

(** Constancy in the words of the glossary: 100 times the number of
    distinct site visits of the table in which the name occurs, over the
    number of distinct site visits of the table. *)
Definition visits_with (x : string) (data : occurrence_table) : list string :=
  unique String.eqb (site_codes (filter (fun row => String.eqb x (snd row)) data)).

Definition glossary_constancy (x : string) (data : occurrence_table) : Q :=
  100 * inject_Z (Z.of_nat (List.length (visits_with x data)))
  / inject_Z (Z.of_nat (List.length (unique String.eqb (site_codes data)))).

End Vegetation.

(** ** Vegetation structure summary *)

Module Structure.
Import Frame.

(** A floating-point value that is either a finite number, taken as an
    exact rational, or one of the non-finite results of a division by
    zero.  Signed zeros are identified. *)
Inductive fval : Type :=
  | Fin (q : Q)
  | PosInf
  | NegInf
  | NaN.

Definition sign_inf (positive : bool) : fval := if positive then PosInf else NegInf.

(** Division of two finite values without an exception: a zero divisor
    gives not-a-number for a zero dividend and an infinity otherwise. *)
Definition fdiv (a b : Q) : fval :=
  if Qeq_bool b 0
  then if Qeq_bool a 0 then NaN else sign_inf (Qle_bool 0 a)
  else Fin (a / b).

(** Product of a finite value and a possibly non-finite factor. *)
Definition fmul (x : Q) (k : fval) : fval :=
  match k with
  | Fin a => Fin (x * a)
  | PosInf => if Qeq_bool x 0 then NaN else sign_inf (Qle_bool 0 x)
  | NegInf => if Qeq_bool x 0 then NaN else sign_inf (negb (Qle_bool 0 x))
  | NaN => NaN
  end.

(** [.round(1)]: non-finite values are left as they are. *)
Definition fround1 (v : fval) : fval :=
  match v with
  | Fin q => Fin (round1 q)
  | other => other
  end.

(** [value > 0]. *)
Definition positive (v : fval) : bool :=
  match v with
  | Fin q => negb (Qle_bool q 0)
  | PosInf => true
  | NegInf => false
  | NaN => false
  end.

(** Sum of the values of a chart: finite values add up exactly, an
    infinity absorbs finite values, opposite infinities and not-a-number
    give not-a-number. *)
Definition fadd (x y : fval) : fval :=
  match x, y with
  | Fin a, Fin b => Fin (a + b)
  | NaN, _ | _, NaN => NaN
  | PosInf, NegInf | NegInf, PosInf => NaN
  | PosInf, _ | _, PosInf => PosInf
  | NegInf, _ | _, NegInf => NegInf
  end.

Definition fsum (vs : list fval) : fval := fold_right fadd (Fin 0) vs.

(** A table of means indexed by structure label. *)
Definition means : Type := list (string * Q).

(** Lines 596-598. *)
Definition biotic_sum (structure_biotic : means) : Q :=
  qsum (map snd structure_biotic).

Definition abiotic_remainder (structure_biotic : means) : Q :=
  100 - biotic_sum structure_biotic.

(** Lines 606-609. *)
Definition abiotic_sum (structure_abiotic : means) : Q :=
  qsum (map snd structure_abiotic).

Definition abiotic_adjustment (structure_biotic structure_abiotic : means) : fval :=
  fdiv (abiotic_remainder structure_biotic) (abiotic_sum structure_abiotic).

Definition rescale_abiotic (structure_biotic structure_abiotic : means)
  : list (string * fval) :=
  map (fun row =>
         (fst row, fmul (snd row) (abiotic_adjustment structure_biotic structure_abiotic)))
      structure_abiotic.

(** Line 612: the biotic rows followed by the rescaled abiotic rows. *)
Definition concat_structure (structure_biotic structure_abiotic : means)
  : list (string * fval) :=
  map (fun row => (fst row, Fin (snd row))) structure_biotic
  ++ rescale_abiotic structure_biotic structure_abiotic.

(** Lines 612-618: the concatenation is rounded to one decimal, then the
    rows whose mean is not above zero are removed.  (The later
    capitalisation of the labels does not touch the values.) *)
Definition structure_summary (structure_biotic structure_abiotic : means)
  : list (string * fval) :=
  filter (fun row => positive (snd row))
         (map (fun row => (fst row, fround1 (snd row)))
              (concat_structure structure_biotic structure_abiotic)).

(** The total of the values drawn by the treemap. *)
Definition treemap_total (summary : list (string * fval)) : fval :=
  fsum (map snd summary).

End Structure.

(** ** Percentile helpers *)

Module Percentiles.
Import Frame.

(** Insertion into an ascending list. *)
Fixpoint insert_sorted (x : Q) (l : list Q) : list Q :=
  match l with
  | [] => [x]
  | y :: rest => if Qle_bool x y then x :: l else y :: insert_sorted x rest
  end.

Definition sort_values (xs : list Q) : list Q := fold_right insert_sorted [] xs.

(** Modelled from the spec: [Series.quantile(q)] belongs to the tabular
    library and not to the repository.  It is the standard definition by
    linear interpolation: on the [n] values in ascending order the
    quantile sits at the fractional position [(n - 1) * q], between the
    value at the floor of that position and the next one; an empty series
    has no quantile (a missing value).  The argument satisfies
    [0 <= q <= 1]. *)
Definition quantile (q : Q) (x : list Q) : cell :=
  match sort_values x with
  | [] => None
  | (first :: _) as sorted =>
      let position := inject_Z (Z.of_nat (List.length sorted) - 1) * q in
      let below := Qfloor position in
      let lower := nth (Z.to_nat below) sorted first in
      let upper := nth (Z.to_nat (below + 1)) sorted lower in
      Some (lower + (position - inject_Z below) * (upper - lower))
  end.

(** The interpolation in the words of the standard definition, on values
    already in ascending order: with [h = (n - 1) * q] and [k] the floor
    of [h], the value at rank [k] plus the fraction [h - k] of the step to
    the value at rank [k + 1] (the last value has no step). *)
Definition interpolate (q : Q) (ascending : list Q) : Q :=
  let h := inject_Z (Z.of_nat (List.length ascending) - 1) * q in
  let k := Qfloor h in
  let at_k := nth (Z.to_nat k) ascending (hd 0 ascending) in
  let at_next := nth (Z.to_nat (k + 1)) ascending at_k in
  at_k + (h - inject_Z k) * (at_next - at_k).

(** Lines 77-90. *)
Definition percentile_10 (x : list Q) : cell := quantile 0.10 x.

Definition percentile_25 (x : list Q) : cell := quantile 0.25 x.

Definition percentile_75 (x : list Q) : cell := quantile 0.75 x.

Definition percentile_90 (x : list Q) : cell := quantile 0.90 x.

(** Equality of two cells up to the value of the fractions. *)
Definition cell_eq (a b : cell) : Prop :=
  match a, b with
  | Some u, Some v => u == v
  | None, None => True
  | _, _ => False
  end.

End Percentiles.

(** ** Environment summaries *)

Module Environment.
Import Frame Text Run.

Open Scope string_scope.

(** The measurement series that carry a missing-data code. *)
Inductive series : Type :=
  | shrub_canopy_height
  | tussock_cover
  | elevation
  | slope
  | water_depth
  | moss_duff_depth
  | restrictive_layer_depth
  | soil_pH
  | conductivity.

(** The missing-data code of each series: -32768 for the two values read
    from rasters, -999 for the values read from the database. *)
Definition missing_code (s : series) : Q :=
  match s with
  | elevation | slope => -32768
  | _ => -999
  end.

(** The filtering statement of each series, on the column of values left
    by [dropna] and [to_numeric]: lines 501 (height_cm), 520
    (cover_percent), 1184 (elevation_m), 1202 (slope_deg), 1220
    (depth_water_cm), 1238 (depth_moss_duff_cm), 1258
    (depth_restrictive_layer_cm), 1276 (ph), 1294 (conductivity_mus). *)
Definition sentinel_filter (s : series) (values : list Q) : list Q :=
  match s with
  | shrub_canopy_height => filter (fun height_cm => num_neqb height_cm (-999)) values
  | tussock_cover => filter (fun cover_percent => num_neqb cover_percent (-999)) values
  | elevation => filter (fun elevation_m => num_neqb elevation_m (-32768)) values
  | slope => filter (fun slope_deg => num_neqb slope_deg (-32768)) values
  | water_depth => filter (fun depth_water_cm => num_neqb depth_water_cm (-999)) values
  | moss_duff_depth =>
      filter (fun depth_moss_duff_cm => num_neqb depth_moss_duff_cm (-999)) values
  | restrictive_layer_depth =>
      filter (fun depth_restrictive_layer_cm =>
                num_neqb depth_restrictive_layer_cm (-999)) values
  | soil_pH => filter (fun ph => num_neqb ph (-999)) values
  | conductivity => filter (fun conductivity_mus => num_neqb conductivity_mus (-999)) values
  end.

(** One row of [shrub_data]. *)
Record shrub_row : Type := {
  height_type : string;
  height_cm : cell
}.

(** Lines 497-501: woody canopy height values entering the statistics. *)
Definition canopy_data (shrub_data : list shrub_row) : list Q :=
  sentinel_filter shrub_canopy_height
    (dropna (map height_cm
               (filter (fun r => existsb (String.eqb (height_type r))
                                         ["point-intercept mean"; "mean"])
                       shrub_data))).

(** Lines 1182-1184: [dropna] on the two selected columns removes a row
    when its code or its elevation is missing. *)
Definition elevation_data (site_visit_data : list (option string * cell)) : list Q :=
  sentinel_filter elevation
    (dropna (map (fun row => match fst row with
                             | Some _ => snd row
                             | None => None
                             end) site_visit_data)).

(** The number of rows of a column equal to a code. *)
Definition count_code (code : Q) (values : list Q) : nat :=
  List.length (filter (fun v => num_eqb v code) values).

(** One row of [environment_data]: the categorical columns. *)
Record environment_row : Type := {
  physiography : option string;
  geomorphology : option string;
  macrotopography : option string;
  microtopography : option string;
  moisture_regime : option string;
  restrictive_type : option string;
  surface_water : option bool
}.

Section Frequencies.

Context {A : Type} (eqb : A -> A -> bool).

(** The frequency column: the count of each category over the number of
    non-null records, times 100. *)
Definition frequency_table (data : list A) : list (A * Q) :=
  map (fun e =>
         (fst e,
          (inject_Z (Z.of_nat (snd e)) / inject_Z (Z.of_nat (List.length data))) * 100))
      (value_counts eqb data).

(** [table[table['frequency'] >= threshold]]. *)
Definition at_least (threshold : Q) (table : list (A * Q)) : list (A * Q) :=
  filter (fun e => Qle_bool threshold (snd e)) table.

End Frequencies.

(** The loop that writes the categories one after the other, each followed
    by a semicolon and a space, and the removal of the last two
    characters. *)
Definition semicolon_text (categories : list string) : string :=
  drop_last 2 (fold_left (fun text x => text ++ x ++ "; ") categories EmptyString).

(** The categorical text fields of the report. *)
Inductive text_field : Type :=
  | Physiography
  | Geomorphology
  | Macrotopography
  | Microtopography
  | MoistureRegime
  | RestrictiveType.

(** The column each field reads. *)
Definition field_column (f : text_field) (environment_data : list environment_row)
  : list (option string) :=
  match f with
  | Physiography => map physiography environment_data
  | Geomorphology => map geomorphology environment_data
  | Macrotopography => map macrotopography environment_data
  | Microtopography => map microtopography environment_data
  | MoistureRegime => map moisture_regime environment_data
  | RestrictiveType => map restrictive_type environment_data
  end.

(** Lines 1108-1111, 1119-1122, 1130-1133, 1141-1144, 1152-1155 and
    1163-1166: the frequency table of each field, filtered with the
    literal threshold of its statement. *)
Definition physiography_frequency (environment_data : list environment_row)
  : list (string * Q) :=
  at_least 10 (frequency_table String.eqb (dropna (map physiography environment_data))).

Definition geomorph_frequency (environment_data : list environment_row)
  : list (string * Q) :=
  at_least 10 (frequency_table String.eqb (dropna (map geomorphology environment_data))).

Definition macrotopo_frequency (environment_data : list environment_row)
  : list (string * Q) :=
  at_least 10
    (frequency_table String.eqb (dropna (map macrotopography environment_data))).

Definition microtopo_frequency (environment_data : list environment_row)
  : list (string * Q) :=
  at_least 10
    (frequency_table String.eqb (dropna (map microtopography environment_data))).

Definition moisture_frequency (environment_data : list environment_row)
  : list (string * Q) :=
  at_least 20
    (frequency_table String.eqb (dropna (map moisture_regime environment_data))).

Definition restrict_frequency (environment_data : list environment_row)
  : list (string * Q) :=
  at_least 20
    (frequency_table String.eqb (dropna (map restrictive_type environment_data))).

(** Lines 1112, 1123, 1134, 1145, 1156 and 1167: the list of the
    categories kept for each field. *)
Definition field_list (f : text_field) (environment_data : list environment_row)
  : list string :=
  match f with
  | Physiography => unique String.eqb (map fst (physiography_frequency environment_data))
  | Geomorphology => unique String.eqb (map fst (geomorph_frequency environment_data))
  | Macrotopography => unique String.eqb (map fst (macrotopo_frequency environment_data))
  | Microtopography => unique String.eqb (map fst (microtopo_frequency environment_data))
  | MoistureRegime => unique String.eqb (map fst (moisture_frequency environment_data))
  | RestrictiveType => unique String.eqb (map fst (restrict_frequency environment_data))
  end.

(** Lines 1113-1116 and their five siblings. *)
Definition field_text (f : text_field) (environment_data : list environment_row)
  : string :=
  semicolon_text (field_list f environment_data).

(** The threshold of each field as the description gives it. *)
Definition field_threshold (f : text_field) : Q :=
  match f with
  | Physiography | Geomorphology | Macrotopography | Microtopography => 10
  | MoistureRegime | RestrictiveType => 20
  end.

(** The relative frequency, in percent, of a category among the non-null
    records of a column. *)
Definition relative_frequency {A : Type} (eqb : A -> A -> bool) (x : A)
    (column : list (option A)) : Q :=
  100 * inject_Z (Z.of_nat (count_rows eqb x (dropna column)))
  / inject_Z (Z.of_nat (List.length (dropna column))).

(** [table.at[True, 'frequency']]: the frequency of the row labelled
    [True]; a missing label raises [KeyError]. *)
Fixpoint at_true (table : list (bool * Q)) : script Q :=
  match table with
  | [] => raise KeyError
  | (true, frequency) :: _ => ret frequency
  | (false, _) :: rest => at_true rest
  end.

(** The decimal digits of a natural number. *)
Definition digits (n : nat) : string :=
  DecimalString.NilZero.string_of_uint (Nat.to_uint n).

(** [str(round(x, 1))] for the frequency [x] of a category, a value
    between 0 and 100.  What is rounded and printed is the binary64
    value of the frequency column, the count divided by the number of
    records and the quotient multiplied by 100, each operation rounded in
    turn ([x / 100] is that quotient).  The rounding to one decimal of
    such a value multiplies it by 10, takes the nearest integer (half to
    even) and divides by 10; the text of the result is its integer part,
    a point and one decimal. *)
Definition str_round1 (x : Q) : string :=
  let held := binary64 (binary64 (x / 100) * 100) in
  let tenths := Z.to_nat (rint (binary64 (held * 10))) in
  digits (tenths / 10) ++ "." ++ digits (tenths mod 10).

(** Lines 1174-1178: the surface water field.  The threshold is compared
    on the exact frequency (20 is a binary64 value, and the rounded
    operations are monotone), the text is that of the binary64 value. *)
Definition surfacewater_frequency (environment_data : list environment_row)
  : script string :=
  let surfacewater_data := dropna (map surface_water environment_data) in
  let frequency := at_least 20 (frequency_table Bool.eqb surfacewater_data) in
  at_true_frequency <- at_true frequency ;;
  ret (str_round1 at_true_frequency ++ "%").

End Environment.

(** ** The measurement series and their tables *)

Module Measurements.
Import Frame Environment.

Open Scope string_scope.

(** One row of [tussock_data] as the query returns it: the columns read
    by lines 516-520. *)
Module Tussock.
Record row : Type := {
  cover_type : string;
  cover_percent : cell
}.
End Tussock.

(** One row of [site_visit_data] at lines 1182 and 1200: the code and the
    two values sampled from the rasters. *)
Module Site.
Record row : Type := {
  site_visit_code : option string;
  elevation_m : cell;
  slope_deg : cell
}.
End Site.

(** One row of [environment_data]: the columns read by lines 1218, 1236
    and 1254. *)
Module Env.
Record row : Type := {
  site_visit_code : option string;
  depth_water_cm : cell;
  depth_moss_duff_cm : cell;
  depth_restrictive_layer_cm : cell
}.
End Env.

(** One row of [soilmetrics_data]: the columns read by lines 1274 and
    1292. *)
Module Soil.
Record row : Type := {
  ph : cell;
  conductivity_mus : cell
}.
End Soil.

(** Lines 516-520: whole tussock cover values entering the statistics. *)
Definition tussock_data (tussock_data : list Tussock.row) : list Q :=
  sentinel_filter tussock_cover
    (dropna (map Tussock.cover_percent
               (filter (fun r => existsb (String.eqb (Tussock.cover_type r))
                                         ["absolute foliar cover"; "absolute canopy cover"])
                       tussock_data))).

(** Lines 1200-1202: as for the elevation, [dropna] on the two selected
    columns removes a row when its code or its slope is missing. *)
Definition slope_data (site_visit_data : list (option string * cell)) : list Q :=
  sentinel_filter slope
    (dropna (map (fun row => match fst row with
                             | Some _ => snd row
                             | None => None
                             end) site_visit_data)).

(** Lines 1218-1220. *)
Definition waterdepth_data (environment_data : list (option string * cell)) : list Q :=
  sentinel_filter water_depth
    (dropna (map (fun row => match fst row with
                             | Some _ => snd row
                             | None => None
                             end) environment_data)).

(** Lines 1236-1238: [dropna] on the one selected column. *)
Definition mossduff_data (depth_moss_duff_cm : list cell) : list Q :=
  sentinel_filter moss_duff_depth (dropna depth_moss_duff_cm).

(** Lines 1254-1258. *)
Definition restictdepth_data (depth_restrictive_layer_cm : list cell) : list Q :=
  sentinel_filter restrictive_layer_depth (dropna depth_restrictive_layer_cm).

(** Lines 1274-1276. *)
Definition pH_data (ph : list cell) : list Q :=
  sentinel_filter soil_pH (dropna ph).

(** Lines 1292-1294. *)
Definition conductivity_data (conductivity_mus : list cell) : list Q :=
  sentinel_filter conductivity (dropna conductivity_mus).

(** The five tables the nine series are read from. *)
Record tables : Type := {
  shrub_table : list shrub_row;
  tussock_table : list Tussock.row;
  site_visit_table : list Site.row;
  environment_table : list Env.row;
  soilmetrics_table : list Soil.row
}.

(** The column that the aggregation of each series receives ([.agg] with
    the mean, the standard deviation, the median, the extremes and the
    four percentiles): the result of the statements of the series, on the
    columns they select. *)
Definition statistics_input (s : series) (t : tables) : list Q :=
  match s with
  | shrub_canopy_height => canopy_data (shrub_table t)
  | tussock_cover => tussock_data (tussock_table t)
  | elevation =>
      elevation_data
        (map (fun r => (Site.site_visit_code r, Site.elevation_m r)) (site_visit_table t))
  | slope =>
      slope_data
        (map (fun r => (Site.site_visit_code r, Site.slope_deg r)) (site_visit_table t))
  | water_depth =>
      waterdepth_data
        (map (fun r => (Env.site_visit_code r, Env.depth_water_cm r))
             (environment_table t))
  | moss_duff_depth =>
      mossduff_data (map Env.depth_moss_duff_cm (environment_table t))
  | restrictive_layer_depth =>
      restictdepth_data (map Env.depth_restrictive_layer_cm (environment_table t))
  | soil_pH => pH_data (map Soil.ph (soilmetrics_table t))
  | conductivity => conductivity_data (map Soil.conductivity_mus (soilmetrics_table t))
  end.

(** The rows of each series in the words of the description: the values
    recorded for the series, one per row of its table that the series
    reads (shrub rows of the two mean height types, tussock rows of the
    two absolute cover types, rows with a site visit code for elevation,
    slope and water depth) and that holds a value. *)
Definition recorded (s : series) (t : tables) : list Q :=
  match s with
  | shrub_canopy_height =>
      dropna (map height_cm
                (filter (fun r => String.eqb (height_type r) "point-intercept mean"
                                  || String.eqb (height_type r) "mean")
                        (shrub_table t)))
  | tussock_cover =>
      dropna (map Tussock.cover_percent
                (filter (fun r => String.eqb (Tussock.cover_type r) "absolute foliar cover"
                                  || String.eqb (Tussock.cover_type r)
                                       "absolute canopy cover")
                        (tussock_table t)))
  | elevation =>
      dropna (map Site.elevation_m
                (filter (fun r => match Site.site_visit_code r with
                                  | Some _ => true
                                  | None => false
                                  end) (site_visit_table t)))
  | slope =>
      dropna (map Site.slope_deg
                (filter (fun r => match Site.site_visit_code r with
                                  | Some _ => true
                                  | None => false
                                  end) (site_visit_table t)))
  | water_depth =>
      dropna (map Env.depth_water_cm
                (filter (fun r => match Env.site_visit_code r with
                                  | Some _ => true
                                  | None => false
                                  end) (environment_table t)))
  | moss_duff_depth => dropna (map Env.depth_moss_duff_cm (environment_table t))
  | restrictive_layer_depth =>
      dropna (map Env.depth_restrictive_layer_cm (environment_table t))
  | soil_pH => dropna (map Soil.ph (soilmetrics_table t))
  | conductivity => dropna (map Soil.conductivity_mus (soilmetrics_table t))
  end.

End Measurements.

(** ** Sample data *)

Module Examples.

Open Scope string_scope.

Definition accepted_row : Floristics.stats_row :=
  {| Floristics.name := "Carex aquatilis"; Floristics.occurrences := 3;
     Floristics.constancy := Some 30; Floristics.mean := Some 2.5;
     Floristics.std := Some 1.1; Floristics.median := Some 2.4;
     Floristics.min := Some 0; Floristics.max := Some 4;
     Floristics.percentile_10th := Some 0.5; Floristics.percentile_25th := Some 0.9;
     Floristics.percentile_75th := Some 1.2; Floristics.percentile_90th := Some 3.6 |}.

Definition rejected_row : Floristics.stats_row :=
  {| Floristics.name := "Salix pulchra"; Floristics.occurrences := 1;
     Floristics.constancy := Some 10; Floristics.mean := Some 5;
     Floristics.std := Some 2; Floristics.median := Some 5;
     Floristics.min := Some 0; Floristics.max := Some 9;
     Floristics.percentile_10th := Some 1; Floristics.percentile_25th := Some 1.5;
     Floristics.percentile_75th := Some 2; Floristics.percentile_90th := Some 8 |}.

Definition wet_record : Environment.environment_row :=
  {| Environment.physiography := Some "lowland";
     Environment.geomorphology := Some "basin";
     Environment.macrotopography := Some "polygons low-center";
     Environment.microtopography := None;
     Environment.moisture_regime := Some "wet";
     Environment.restrictive_type := Some "permafrost";
     Environment.surface_water := Some true |}.

Definition dry_record : Environment.environment_row :=
  {| Environment.physiography := Some "lowland";
     Environment.geomorphology := Some "plain";
     Environment.macrotopography := None;
     Environment.microtopography := Some "tussocks";
     Environment.moisture_regime := Some "mesic";
     Environment.restrictive_type := Some "permafrost";
     Environment.surface_water := Some false |}.

Definition survey : list Environment.environment_row :=
  [dry_record; wet_record; dry_record].

Definition visit (code : string) (label : option string) : SiteVisits.site_visit :=
  {| SiteVisits.site_visit_code := code; SiteVisits.veg_type := label;
     SiteVisits.elevation_m := Some 12; SiteVisits.slope_deg := Some 1 |}.

Definition visits : list SiteVisits.site_visit :=
  [visit "NPRA_001" (Some "Wet Sedge Meadow");
   visit "NPRA_002" (Some "Tussock Tundra");
   visit "NPRA_003" None;
   visit "NPRA_004" (Some "Wet Sedge Meadow")].

(** A site visit of the unit whose code holds a single quote, and a site
    visit of another unit. *)
Definition quoted_visits : list SiteVisits.site_visit :=
  [visit "NPRA_001', 'NPRA_002" (Some "Wet Sedge Meadow");
   visit "NPRA_002" (Some "Tussock Tundra")].

(** The text of a query file, and the same text without its semicolon. *)
Definition cover_query : string :=
  "SELECT * FROM vegetation_cover;" ++ String Text.LF "".

Definition open_query : string := "SELECT * FROM vegetation_cover".

Definition cover (code name : string) (percent : Q) : Vegetation.cover_row :=
  {| Vegetation.site_visit_code := code; Vegetation.name_accepted := name;
     Vegetation.cover_type := "absolute foliar cover";
     Vegetation.dead_status := false;
     Vegetation.cover_percent := Some percent |}.

Definition covers : list Vegetation.cover_row :=
  [cover "NPRA_001" "Carex aquatilis" 40;
   cover "NPRA_002" "Carex aquatilis" 5;
   cover "NPRA_004" "Salix pulchra" (-999)].

Definition LF : string := String Text.LF "".

Definition site (code : option string) (elevation slope : Frame.cell)
  : Measurements.Site.row :=
  {| Measurements.Site.site_visit_code := code;
     Measurements.Site.elevation_m := elevation;
     Measurements.Site.slope_deg := slope |}.

Definition soil (ph conductivity : Frame.cell) : Measurements.Soil.row :=
  {| Measurements.Soil.ph := ph; Measurements.Soil.conductivity_mus := conductivity |}.

(** Four site visits, one with the code of a missing elevation, one
    without a code, one without an elevation; four soil measurements, two
    with the code of a missing pH. *)
Definition measured : Measurements.tables :=
  {| Measurements.shrub_table := [];
     Measurements.tussock_table := [];
     Measurements.site_visit_table :=
       [site (Some "NPRA_001") (Some 12.5) (Some 3);
        site (Some "NPRA_002") (Some (-32768)) (Some (-32768));
        site None (Some 7) (Some 1);
        site (Some "NPRA_003") None (Some 0);
        site (Some "NPRA_004") (Some (-999)) (Some 2)];
     Measurements.environment_table := [];
     Measurements.soilmetrics_table :=
       [soil (Some 6.1) None; soil (Some (-999)) (Some 120);
        soil (Some (-32768)) None; soil (Some (-999)) (Some (-999))] |}.

Definition blank_level_file : string :=
  "**Unit Name:** Wet Sedge Meadow" ++ LF ++ "**Level:**" ++ LF ++ "**Photos:** a.jpg, b.jpg".

End Examples.

(** ** Selection of the site visits *)

Module Selection.
Import Frame.

Open Scope string_scope.

(** One row of [site_visit_data] as the query returns it, with the year of
    the observation date and the value of the vegetation raster sampled at
    the point.  A missing cell compares False. *)
Record visit : Type := {
  site_visit_code : string;
  obs_year : option Z;
  perspective : option string;
  scope_vascular : option string;
  scope_bryophyte : option string;
  scope_lichen : option string;
  raster_value : option Z;
  elevation_m : cell;
  slope_deg : cell
}.

(** [column.isin(values)] on one cell. *)
Definition isin (c : option string) (values : list string) : bool :=
  match c with
  | Some s => existsb (String.eqb s) values
  | None => false
  end.

(** Lines 162-163: filter by observation year. *)
Definition recent (r : visit) : bool :=
  match obs_year r with
  | Some y => (2000 <=? y)%Z
  | None => false
  end.

(** Lines 165-166: filter by perspective. *)
Definition from_ground (r : visit) : bool :=
  match perspective r with
  | Some p => String.eqb p "ground"
  | None => false
  end.

(** Lines 168-171: filter by taxonomic scopes. *)
Definition vascular_scope (r : visit) : bool :=
  isin (scope_vascular r) ["exhaustive"; "non-trace species"].

(** Lines 162-171: the three filters in their order. *)
Definition filter_site_visits (site_visit_data : list visit) : list visit :=
  filter vascular_scope (filter from_ground (filter recent site_visit_data)).

(** Lines 173-176. *)
Definition bryophyte_sites (site_visit_data : list visit) : list visit :=
  filter (fun r => isin (scope_bryophyte r)
                        ["exhaustive"; "non-trace species"; "common species"])
         (filter_site_visits site_visit_data).

(** Lines 178-181. *)
Definition lichen_sites (site_visit_data : list visit) : list visit :=
  filter (fun r => isin (scope_lichen r)
                        ["exhaustive"; "non-trace species"; "common species"])
         (filter_site_visits site_visit_data).

(** One row of the raster attribute table. *)
Record attribute : Type := {
  VALUE : Z;
  COUNT : Z;
  LABEL : string
}.

Definition labelled (r : visit) (label : option string) : SiteVisits.site_visit :=
  {| SiteVisits.site_visit_code := site_visit_code r;
     SiteVisits.veg_type := label;
     SiteVisits.elevation_m := elevation_m r;
     SiteVisits.slope_deg := slope_deg r |}.

(** The attribute rows whose value is the raster value of a site visit. *)
Definition matching (r : visit) (attribute_data : list attribute) : list attribute :=
  match raster_value r with
  | Some v => filter (fun a => (VALUE a =? v)%Z) attribute_data
  | None => []
  end.

(** Lines 207-216: the left merge of the site visits with the attribute
    table on the raster value, the label renamed to [veg_type]: a site
    visit gives one row per matching attribute row, and one row with a
    missing label when there is none. *)
Definition merge_labels (site_visit_data : list visit)
    (attribute_data : list attribute) : list SiteVisits.site_visit :=
  flat_map (fun r =>
              match matching r attribute_data with
              | [] => [labelled r None]
              | found => map (fun a => labelled r (Some (LABEL a))) found
              end)
           site_visit_data.

(** Lines 162-219: the site visits of the unit. *)
Definition unit_site_visits (unit_name : string) (site_visit_data : list visit)
    (attribute_data : list attribute) : list SiteVisits.site_visit :=
  SiteVisits.filter_to_unit unit_name
    (merge_labels (filter_site_visits site_visit_data) attribute_data).

End Selection.

(** ** Taxonomic groups of the cover table *)

Module Taxa.
Import Frame.

Open Scope string_scope.

(** One row of [vegetation_data] after the join with the taxonomy, the
    selection of its fields and the correction of the ambiguous habits
    (lines 291-307); the taxonomy fields are missing for a name without a
    taxonomy row. *)
Record taxon_row : Type := {
  site_visit_code : string;
  name_accepted : string;
  cover_percent : cell;
  taxon_genus : option string;
  taxon_category : option string;
  taxon_habit : option string
}.

(** [column != value] on one cell: True for a missing cell. *)
Definition differs (c : option string) (value : string) : bool :=
  match c with
  | Some s => negb (String.eqb s value)
  | None => true
  end.

(** [column == value] on one cell. *)
Definition equals (c : option string) (value : string) : bool :=
  match c with
  | Some s => String.eqb s value
  | None => false
  end.

Definition among (s : string) (values : list string) : bool :=
  existsb (String.eqb s) values.

(** Lines 309-312: the vascular categories. *)
Definition vascular_category (r : taxon_row) : bool :=
  Selection.isin (taxon_category r)
    ["monocot"; "eudicot"; "fern"; "gymnosperm"; "horsetail"; "lycophyte"].

Definition vascular_data (vegetation_data : list taxon_row) : list taxon_row :=
  filter vascular_category vegetation_data.

(** Lines 318-320: the bryophyte categories. *)
Definition bryophyte_category (r : taxon_row) : bool :=
  Selection.isin (taxon_category r)
    ["liverwort"; "moss"; "hornwort"; "functional group"; "unknown"].

(** Lines 321-329: the three alternatives of the mask. *)
Definition bryophyte_mask (r : taxon_row) : bool :=
  differs (taxon_category r) "functional group"
  || (differs (taxon_category r) "functional group"
      && among (name_accepted r)
           ["non-thalloid liverwort"; "thalloid liverwort"; "feathermoss (other)";
            "feathermoss (N-fixing)"; "Sphagnum moss"; "turf moss"])
  || (differs (taxon_category r) "unknown"
      && among (name_accepted r) ["liverwort"; "moss"]).

(** Lines 315-329: the bryophyte rows, among the rows of the site visits
    with an adequate bryophyte scope. *)
Definition bryophyte_rows (bryophyte_site_codes : list string)
    (vegetation_data : list taxon_row) : list taxon_row :=
  filter bryophyte_mask
    (filter bryophyte_category
       (filter (fun r => among (site_visit_code r) bryophyte_site_codes)
               vegetation_data)).

(** Line 384. *)
Definition lichen_category (r : taxon_row) : bool :=
  equals (taxon_category r) "lichen".

(** Lines 385-395. *)
Definition lichen_mask (r : taxon_row) : bool :=
  differs (taxon_category r) "functional group"
  || (differs (taxon_category r) "functional group"
      && among (name_accepted r)
           ["arboreal lichen"; "crustose lichen (orange)";
            "crustose lichen (non-orange)"; "foliose lichen (other)";
            "foliose lichen (N-fixing)"; "forage lichen";
            "fruticose lichen (N-fixing)"; "fruticose lichen (other)"])
  || (differs (taxon_category r) "unknown"
      && among (name_accepted r)
           ["lichen"; "crustose lichen"; "fruticose lichen"; "foliose lichen"]).

(** Lines 380-395. *)
Definition lichen_rows (lichen_site_codes : list string)
    (vegetation_data : list taxon_row) : list taxon_row :=
  filter lichen_mask
    (filter lichen_category
       (filter (fun r => among (site_visit_code r) lichen_site_codes)
               vegetation_data)).

Definition with_name (r : taxon_row) (name : string) : taxon_row :=
  {| site_visit_code := site_visit_code r;
     name_accepted := name;
     cover_percent := cover_percent r;
     taxon_genus := taxon_genus r;
     taxon_category := taxon_category r;
     taxon_habit := taxon_habit r |}.

(** One [np.where(genus == g, name, name_accepted)] statement on the whole
    table. *)
Definition rename_genus (rule : string * string) (data : list taxon_row)
  : list taxon_row :=
  map (fun r => if equals (taxon_genus r) (fst rule)
                then with_name r (snd rule)
                else r)
      data.

(** Lines 334-363: the genera aggregated among the bryophytes, each with
    the name given to its rows, in the order of the statements. *)
Definition bryophyte_genera : list (string * string) :=
  [("Brachythecium", "Brachythecium"); ("Calliergon", "Calliergon");
   ("Cinclidium", "Cinclidium"); ("Dicranum", "Dicranum");
   ("Drepanocladus", "Drepanocladus"); ("Hamatocaulis", "Hamatocaulis");
   ("Loeskypnum", "Loeskypnum"); ("Meesia", "Meesia");
   ("Polytrichum", "Polytrichum"); ("Pseudocalliergon", "Pseudocalliergon");
   ("Racomitrium", "Racomitrium"); ("Rhizomnium", "Rhizomnium");
   ("Sarmentypnum", "Sarmentypnum"); ("Scorpidium", "Scorpidium");
   ("Sphagnum", "Sphagnum")].

(** Lines 399-416: the genera aggregated among the lichens. *)
Definition lichen_genera : list (string * string) :=
  [("Bryoria", "Bryoria"); ("Dactylina", "Dactylina"); ("Lobaria", "Lobaria");
   ("Masonhalea", "Masonhalea richardsonii"); ("Nephroma", "Nephroma");
   ("Peltigera", "Peltigera"); ("Sphaerophorus", "Sphaerophorus");
   ("Stereocaulon", "Stereocaulon"); ("Thamnolia", "Thamnolia")].

(** The statements run one after the other on the table. *)
Definition aggregate_genera (rules : list (string * string)) (data : list taxon_row)
  : list taxon_row :=
  fold_left (fun table rule => rename_genus rule table) rules data.

(** The name a row carries after the statements, read from the rules: the
    name of the rule of its genus, its own name when no rule has its
    genus. *)
Definition aggregated_name (rules : list (string * string)) (r : taxon_row) : string :=
  match find (fun rule => equals (taxon_genus r) (fst rule)) rules with
  | Some rule => snd rule
  | None => name_accepted r
  end.

End Taxa.

(** ** Grouped sums and the diagnostic sets *)

Module Grouping.
Import Frame.

Open Scope string_scope.

(** The two grouping columns of a row. *)
Definition key : Type := (string * string)%type.

Definition key_eqb (a b : key) : bool :=
  String.eqb (fst a) (fst b) && String.eqb (snd a) (snd b).

(** The order of the group keys: by the first column, then by the
    second. *)
Definition key_leb (a b : key) : bool :=
  match String.compare (fst a) (fst b) with
  | Lt => true
  | Gt => false
  | Eq => String.leb (snd a) (snd b)
  end.

Fixpoint insert_key (k : key) (l : list key) : list key :=
  match l with
  | [] => [k]
  | h :: rest => if key_leb k h then k :: l else h :: insert_key k rest
  end.

Definition sort_keys (l : list key) : list key := fold_right insert_key [] l.

(** A row to group: its key and its cover. *)
Definition cover_row : Type := (key * cell)%type.

(** The sum of the covers of the rows of one group; missing covers are
    skipped. *)
Definition group_sum (k : key) (rows : list cover_row) : Q :=
  qsum (dropna (map snd (filter (fun row => key_eqb k (fst row)) rows))).

(** [groupby([a, b])[cover].sum().to_frame().reset_index()]: one row per
    distinct key, in the order of the keys, with the sum of its group. *)
Definition groupby_sum (rows : list cover_row) : list (key * Q) :=
  map (fun k => (k, group_sum k rows))
      (sort_keys (unique key_eqb (map fst rows))).

(** One row of the diagnostic schema after [dropna]. *)
Record schema_row : Type := {
  diagnostic_set : string;
  constituents : string
}.

(** Lines 680-684: the inner merge of the cover rows with the schema on
    the accepted name: one row per pair of a cover row and a schema row of
    that name, in the order of the cover rows. *)
Definition merge_schema (data : list Taxa.taxon_row) (schema_data : list schema_row)
  : list cover_row :=
  flat_map (fun r =>
              map (fun s => ((Taxa.site_visit_code r, diagnostic_set s),
                             Taxa.cover_percent r))
                  (filter (fun s => String.eqb (Taxa.name_accepted r) (constituents s))
                          schema_data))
           data.

(** Lines 680-689 (and 692-701 for the bryophytes): the cover of each
    diagnostic set in each site visit. *)
Definition diagnostic_table (data : list Taxa.taxon_row)
    (schema_data : list schema_row) : list (key * Q) :=
  groupby_sum (merge_schema data schema_data).

(** The two columns read by the constancy statements of lines 704-717. *)
Definition diagnostic_occurrences (data : list Taxa.taxon_row)
    (schema_data : list schema_row) : Vegetation.occurrence_table :=
  map fst (diagnostic_table data schema_data).

(** Lines 366-369 (and 419-422 for the lichens): the covers summed by
    site visit and name. *)
Definition sum_by_name (data : list Taxa.taxon_row) : list (key * Q) :=
  groupby_sum (map (fun r => ((Taxa.site_visit_code r, Taxa.name_accepted r),
                              Taxa.cover_percent r))
                   data).

End Grouping.

(** ** Pivot tables of summed cover and their column means *)

Module Pivot.
Import Frame.

Open Scope string_scope.

Fixpoint insert_label (x : string) (l : list string) : list string :=
  match l with
  | [] => [x]
  | y :: rest => if String.leb x y then x :: l else y :: insert_label x rest
  end.

(** The labels of an axis: the distinct values, in their order. *)
Definition axis (values : list string) : list string :=
  fold_right insert_label [] (unique String.eqb values).

(** The rows that enter the pivot of a column: those whose value in that
    column is present, keyed by site visit and by that value. *)
Definition keyed (column : Taxa.taxon_row -> option string)
    (data : list Taxa.taxon_row) : list Grouping.cover_row :=
  flat_map (fun r =>
              match column r with
              | Some value => [((Taxa.site_visit_code r, value), Taxa.cover_percent r)]
              | None => []
              end)
           data.

(** The index of the pivot: the site visits of those rows. *)
Definition index (column : Taxa.taxon_row -> option string)
    (data : list Taxa.taxon_row) : list string :=
  axis (map (fun row => fst (fst row)) (keyed column data)).

(** The columns of the pivot. *)
Definition columns (column : Taxa.taxon_row -> option string)
    (data : list Taxa.taxon_row) : list string :=
  axis (map (fun row => snd (fst row)) (keyed column data)).

(** One cell of [pivot_table(index='site_visit_code', columns=column,
    values='cover_percent', aggfunc='sum', fill_value=0)]: the sum of the
    covers recorded for the site visit and the value, zero when there is
    none. *)
Definition pivot_cell (column : Taxa.taxon_row -> option string)
    (data : list Taxa.taxon_row) (site value : string) : Q :=
  Grouping.group_sum (site, value) (keyed column data).

(** [.mean()] of one column of the pivot: over all the site visits of the
    index. *)
Definition column_mean (column : Taxa.taxon_row -> option string)
    (data : list Taxa.taxon_row) (value : string) : Q :=
  qsum (map (fun site => pivot_cell column data site value) (index column data))
  / inject_Z (Z.of_nat (List.length (index column data))).

(** Lines 551-562 (and 565-590 for bryophytes and lichens): the mean
    cover by taxon habit. *)
Definition structure_means (data : list Taxa.taxon_row) : Structure.means :=
  map (fun habit => (habit, column_mean Taxa.taxon_habit data habit))
      (columns Taxa.taxon_habit data).

(** Line 593: the biotic structure, the three tables of means one after
    the other. *)
Definition structure_biotic (vascular_data bryophyte_data lichen_data : list Taxa.taxon_row)
  : Structure.means :=
  (structure_means vascular_data ++ structure_means bryophyte_data
   ++ structure_means lichen_data)%list.

(** The cover recorded with a habit in a table, per site visit of its
    pivot. *)
Definition cover_per_site_visit (data : list Taxa.taxon_row) : Q :=
  qsum (dropna (map snd (keyed Taxa.taxon_habit data)))
  / inject_Z (Z.of_nat (List.length (index Taxa.taxon_habit data))).

(** Lines 902-909 and their siblings: the mean cover by accepted name,
    first of the aggregated statistics. *)
Definition cover_means (data : list Taxa.taxon_row) : list (string * Q) :=
  map (fun name => (name, column_mean (fun r => Some (Taxa.name_accepted r)) data name))
      (columns (fun r => Some (Taxa.name_accepted r)) data).

(** The total of the covers recorded for one value of the column. *)
Definition column_total (column : Taxa.taxon_row -> option string)
    (data : list Taxa.taxon_row) (value : string) : Q :=
  qsum (dropna (map snd (filter (fun row => String.eqb value (snd (fst row)))
                                (keyed column data)))).

End Pivot.

(** ** Frequencies *)

Module Shares.

(** The frequency, in percent, of a count among [n] records, as the
    frequency columns compute it. *)
Definition share (n c : nat) : Q :=
  (inject_Z (Z.of_nat c) / inject_Z (Z.of_nat n)) * 100.

End Shares.

(** ** More sample data *)

Module Samples.

Open Scope string_scope.

Definition raw_visit (code : string) (year : Z) (view bryophytes : string)
    (value : Z) : Selection.visit :=
  {| Selection.site_visit_code := code;
     Selection.obs_year := Some year;
     Selection.perspective := Some view;
     Selection.scope_vascular := Some "exhaustive";
     Selection.scope_bryophyte := Some bryophytes;
     Selection.scope_lichen := Some "none";
     Selection.raster_value := Some value;
     Selection.elevation_m := Some 12;
     Selection.slope_deg := Some 1 |}.

Definition raw_visits : list Selection.visit :=
  [raw_visit "NPRA_001" 2012 "ground" "exhaustive" 29;
   raw_visit "NPRA_002" 1998 "ground" "exhaustive" 29;
   raw_visit "NPRA_003" 2015 "aerial" "none" 29;
   raw_visit "NPRA_004" 2019 "ground" "none" 31;
   raw_visit "NPRA_005" 2021 "ground" "common species" 29].

Definition attributes : list Selection.attribute :=
  [{| Selection.VALUE := 29; Selection.COUNT := 1200;
      Selection.LABEL := "Wet Sedge Meadow" |};
   {| Selection.VALUE := 31; Selection.COUNT := 800;
      Selection.LABEL := "Tussock Tundra" |}].

Definition taxon (code name : string) (percent : Q) (genus category habit : string)
  : Taxa.taxon_row :=
  {| Taxa.site_visit_code := code; Taxa.name_accepted := name;
     Taxa.cover_percent := Some percent; Taxa.taxon_genus := Some genus;
     Taxa.taxon_category := Some category; Taxa.taxon_habit := Some habit |}.

Definition cover_table : list Taxa.taxon_row :=
  [taxon "NPRA_001" "Carex aquatilis" 40 "Carex" "monocot" "graminoid";
   taxon "NPRA_001" "Carex aquatilis" 5 "Carex" "monocot" "graminoid";
   taxon "NPRA_001" "Sphagnum fuscum" 10 "Sphagnum" "moss" "moss";
   taxon "NPRA_001" "Sphagnum moss" 15 "Sphagnum" "functional group" "moss";
   taxon "NPRA_005" "moss" 20 "moss" "functional group" "moss";
   taxon "NPRA_005" "Salix pulchra" 3 "Salix" "eudicot" "shrub"].

Definition schema : list Grouping.schema_row :=
  [{| Grouping.diagnostic_set := "wetland sedges";
      Grouping.constituents := "Carex aquatilis" |};
   {| Grouping.diagnostic_set := "willows";
      Grouping.constituents := "Salix pulchra" |}].

End Samples.

(** * Properties *)

(** ** Cells and columns *)

Section FrameFacts.
Import Frame.

Lemma cell_ge_true (c : cell) (t : Q) :
  cell_ge c t = true <-> exists v, c = Some v /\ t <= v.
Proof.
  destruct c as [v|]; simpl.
  - rewrite Qle_bool_iff. split.
    + intros H. exists v. auto.
    + intros [w [E H]]. inversion E. subst. exact H.
  - split; [discriminate | intros [w [E _]]; discriminate].
Qed.

Lemma num_neqb_true (x y : Q) : num_neqb x y = true <-> ~ x == y.
Proof.
  unfold num_neqb. rewrite negb_true_iff.
  split.
  - intros H E. apply Qeq_bool_iff in E. congruence.
  - intros H. destruct (Qeq_bool x y) eqn:E; [|reflexivity].
    apply Qeq_bool_iff in E. contradiction.
Qed.

Lemma filter_length_split {A : Type} (f : A -> bool) (l : list A) :
  (List.length l
   = List.length (filter (fun x => negb (f x)) l) + List.length (filter f l))%nat.
Proof.
  induction l as [|x l IH]; simpl; [reflexivity|].
  destruct (f x); simpl; lia.
Qed.

End FrameFacts.

(** ** Strings *)

Section TextFacts.
Import Text.

Open Scope string_scope.

Lemma append_assoc (a b c : string) : (a ++ b) ++ c = a ++ (b ++ c).
Proof. induction a as [|x a IH]; simpl; [reflexivity | rewrite IH; reflexivity]. Qed.

Lemma append_empty_r (a : string) : a ++ "" = a.
Proof. induction a as [|x a IH]; simpl; [reflexivity | rewrite IH; reflexivity]. Qed.

Lemma length_append (a b : string) :
  String.length (a ++ b) = (String.length a + String.length b)%nat.
Proof. induction a as [|x a IH]; simpl; [reflexivity | rewrite IH; reflexivity]. Qed.

Lemma substring_prefix (a b : string) : substring 0 (String.length a) (a ++ b) = a.
Proof.
  induction a as [|x a IH]; simpl.
  - destruct b; reflexivity.
  - rewrite IH. reflexivity.
Qed.

Lemma drop_last_append (a b : string) : drop_last (String.length b) (a ++ b) = a.
Proof.
  unfold drop_last. rewrite length_append.
  replace (String.length a + String.length b - String.length b)%nat
    with (String.length a) by lia.
  apply substring_prefix.
Qed.

Lemma fold_left_append {A : Type} (piece : A -> string) (l : list A) (start : string) :
  fold_left (fun text x => text ++ piece x) l start
  = start ++ String.concat "" (map piece l).
Proof.
  revert start. induction l as [|x l IH]; intros start; simpl.
  - rewrite append_empty_r. reflexivity.
  - rewrite IH, append_assoc. destruct l as [|y l]; simpl.
    + rewrite append_empty_r. reflexivity.
    + reflexivity.
Qed.

Lemma separated_pieces (sep : string) (l : list string) :
  l <> [] ->
  String.concat "" (map (fun x => x ++ sep) l) = String.concat sep l ++ sep.
Proof.
  induction l as [|x l IH]; intros N; [contradiction|].
  destruct l as [|y l].
  - reflexivity.
  - change (String.concat "" (map (fun x => x ++ sep) (x :: y :: l)))
      with ((x ++ sep) ++ "" ++ String.concat "" (map (fun x => x ++ sep) (y :: l))).
    rewrite IH by discriminate.
    change (String.concat sep (x :: y :: l))
      with (x ++ sep ++ String.concat sep (y :: l)).
    simpl. rewrite !append_assoc. reflexivity.
Qed.

End TextFacts.

Section SemicolonText.
Import Text Environment.

Open Scope string_scope.

Lemma semicolon_text_join (categories : list string) :
  semicolon_text categories = String.concat "; " categories.
Proof.
  unfold semicolon_text.
  rewrite (fold_left_append (fun x => x ++ "; ")). simpl.
  destruct categories as [|x l]; [reflexivity|].
  rewrite separated_pieces by discriminate.
  apply (drop_last_append _ "; ").
Qed.

End SemicolonText.

(** ** Categorical columns *)

Section CategoricalFacts.
Import Frame.

Context {A : Type} (eqb : A -> A -> bool).
Hypothesis eqb_eq : forall a b, eqb a b = true <-> a = b.

Lemma existsb_eqb (x : A) (l : list A) : existsb (eqb x) l = true <-> In x l.
Proof.
  rewrite existsb_exists. split.
  - intros [y [Hy E]]. apply eqb_eq in E. subst. exact Hy.
  - intros H. exists x. split; [exact H | apply eqb_eq; reflexivity].
Qed.

Lemma unique_from_In (x : A) (col seen : list A) :
  In x (unique_from eqb seen col) <-> In x col /\ ~ In x seen.
Proof.
  revert seen. induction col as [|y col IH]; intros seen; simpl; [tauto|].
  destruct (existsb (eqb y) seen) eqn:E.
  - apply existsb_eqb in E. rewrite IH. split.
    + tauto.
    + intros [[H | H] N]; [subst; contradiction | tauto].
  - assert (Ny : ~ In y seen).
    { intros H. apply existsb_eqb in H. congruence. }
    simpl. rewrite IH. simpl. split.
    + intros [H | [H N]]; [subst; tauto | tauto].
    + intros [[H | H] N]; [tauto|].
      destruct (eqb y x) eqn:Eyx.
      * apply eqb_eq in Eyx. tauto.
      * right. split; [exact H|]. intros [F | F]; [|tauto].
        subst. assert (eqb x x = true) by (apply eqb_eq; reflexivity). congruence.
Qed.

Lemma unique_In (x : A) (col : list A) : In x (unique eqb col) <-> In x col.
Proof. unfold unique. rewrite unique_from_In. simpl. tauto. Qed.

Lemma unique_from_NoDup (col seen : list A) : NoDup (unique_from eqb seen col).
Proof.
  revert seen. induction col as [|y col IH]; intros seen; simpl; [constructor|].
  destruct (existsb (eqb y) seen); [apply IH|].
  constructor; [|apply IH].
  rewrite unique_from_In. simpl. tauto.
Qed.

Lemma unique_from_NoDup_length (col seen : list A) :
  NoDup col -> (forall x, In x col -> ~ In x seen) ->
  List.length (unique_from eqb seen col) = List.length col.
Proof.
  revert seen. induction col as [|y col IH]; intros seen ND D; simpl; [reflexivity|].
  inversion ND as [|? ? Ny ND']; subst.
  destruct (existsb (eqb y) seen) eqn:E.
  - apply existsb_eqb in E. exfalso. apply (D y); [left; reflexivity | exact E].
  - simpl. f_equal. apply IH; [exact ND'|].
    intros x Hx [F | F]; [subst; contradiction|].
    apply (D x); [right; exact Hx | exact F].
Qed.

Lemma unique_NoDup_length (col : list A) :
  NoDup col -> List.length (unique eqb col) = List.length col.
Proof. intros ND. apply unique_from_NoDup_length; [exact ND | intros x _ []]. Qed.

Lemma insert_by_count_In (e f : A * nat) (l : list (A * nat)) :
  In f (insert_by_count e l) <-> f = e \/ In f l.
Proof.
  induction l as [|g l IH]; simpl.
  - split; intros [H | H]; auto.
  - destruct (snd g <=? snd e)%nat; simpl.
    + split; intros [H | H]; auto.
    + rewrite IH. split; intros H; tauto.
Qed.

Lemma value_counts_In (x : A) (n : nat) (col : list A) :
  In (x, n) (value_counts eqb col) <-> In x col /\ n = count_rows eqb x col.
Proof.
  unfold value_counts.
  assert (G : forall l, In (x, n) (fold_right insert_by_count []
                                     (map (fun y => (y, count_rows eqb y col)) l))
                        <-> In x l /\ n = count_rows eqb x col).
  { induction l as [|y l IH]; simpl; [tauto|].
    rewrite insert_by_count_In, IH. split.
    - intros [E | H]; [inversion E; subst; tauto | tauto].
    - intros [[E | H] C]; [left; subst; reflexivity | tauto]. }
  rewrite G, unique_In. tauto.
Qed.

End CategoricalFacts.

Lemma string_eqb_eq (a b : string) : String.eqb a b = true <-> a = b.
Proof. apply String.eqb_eq. Qed.

Lemma bool_eqb_eq (a b : bool) : Bool.eqb a b = true <-> a = b.
Proof. apply Bool.eqb_true_iff. Qed.

(** ** C1: the inclusion rule *)

Section InclusionRule.
Import Frame Floristics.

Lemma diagnostic_mask_rule (r : stats_row) :
  diagnostic_mask r = true <-> inclusion_rule r.
Proof.
  unfold diagnostic_mask, inclusion_rule.
  rewrite andb_true_iff, orb_true_iff, !andb_true_iff, !cell_ge_true.
  split.
  - intros [[p [Ep Hp]] [[[c [Ec Hc]] [m [Em Hm]]] | [[c [Ec Hc]] [m [Em Hm]]]]];
      exists c, m, p; tauto.
  - intros [c [m [p [Ec [Em [Ep [Hp H]]]]]]].
    split; [exists p; tauto|].
    destruct H as [[Hc Hm] | [Hc Hm]]; [left | right];
      (split; [exists c | exists m]; tauto).
Qed.

Lemma composition_mask_rule (r : stats_row) :
  composition_mask r = true <-> inclusion_rule r.
Proof. exact (diagnostic_mask_rule r). Qed.

(** C1.  A row of the diagnostic-set statistics, and likewise of the
    species-composition statistics, is kept if and only if its 75th
    percentile is at least 1 and (its constancy is at least 25 and its
    mean at least 2, or its constancy is at least 50 and its mean at least
    1).  A row with constancy 30, mean 2.5 and 75th percentile 1.2 is
    accepted; a row with constancy 10, mean 5 and 75th percentile 2 is
    rejected. *)
Theorem inclusion_rule_filters (table : list stats_row) (r : stats_row) :
  (In r (filter_stats_diagnostic table) <-> In r table /\ inclusion_rule r) /\
  (In r (filter_stats_composition table) <-> In r table /\ inclusion_rule r) /\
  (forall c m p,
      constancy r = Some c -> mean r = Some m -> percentile_75th r = Some p ->
      c == 30 -> m == 2.5 -> p == 1.2 ->
      diagnostic_mask r = true /\ composition_mask r = true) /\
  (forall c m p,
      constancy r = Some c -> mean r = Some m -> percentile_75th r = Some p ->
      c == 10 -> m == 5 -> p == 2 ->
      diagnostic_mask r = false /\ composition_mask r = false).
Proof.
  split; [|split; [|split]].
  - unfold filter_stats_diagnostic. rewrite filter_In, diagnostic_mask_rule. tauto.
  - unfold filter_stats_composition. rewrite filter_In, composition_mask_rule. tauto.
  - intros c m p Ec Em Ep Hc Hm Hp.
    rewrite composition_mask_rule, diagnostic_mask_rule.
    assert (inclusion_rule r); [|tauto].
    exists c, m, p. repeat (split; [assumption|]).
    rewrite Hc, Hm, Hp. split; [|left; split]; discriminate.
  - intros c m p Ec Em Ep Hc Hm Hp.
    assert (N : ~ inclusion_rule r).
    { intros [c' [m' [p' [Ec' [Em' [Ep' [_ H]]]]]]].
      rewrite Ec in Ec'. inversion Ec'. subst c'.
      rewrite Hc in H. destruct H as [[H _] | [H _]]; apply H; reflexivity. }
    split.
    + destruct (diagnostic_mask r) eqn:E; [|reflexivity].
      apply diagnostic_mask_rule in E. contradiction.
    + destruct (composition_mask r) eqn:E; [|reflexivity].
      apply composition_mask_rule in E. contradiction.
Qed.

Lemma inclusion_rule_filters_witness :
  filter_stats_diagnostic [Examples.accepted_row; Examples.rejected_row] = [Examples.accepted_row]
  /\ In Examples.accepted_row (filter_stats_composition [Examples.accepted_row; Examples.rejected_row])
  /\ diagnostic_mask Examples.rejected_row = false.
Proof.
  split; [reflexivity|]. split.
  - apply (proj1 (proj2 (inclusion_rule_filters
                           [Examples.accepted_row; Examples.rejected_row] Examples.accepted_row))).
    split; [left; reflexivity|].
    exists 30, 2.5, 1.2. repeat (split; [reflexivity|]).
    split; [|left; split]; discriminate.
  - apply (proj2 (proj2 (proj2 (inclusion_rule_filters [] Examples.rejected_row))) 10 5 2);
      reflexivity.
Defined.

End InclusionRule.

(** ** C2: the structure treemap *)

Section Treemap.
Import Frame Structure.

Lemma qsum_app (xs ys : list Q) : qsum (xs ++ ys) == qsum xs + qsum ys.
Proof.
  induction xs as [|x xs IH]; simpl.
  - ring.
  - rewrite IH. ring.
Qed.

Lemma qsum_scale (k : Q) (xs : list Q) :
  qsum (map (fun x => x * k) xs) == qsum xs * k.
Proof.
  induction xs as [|x xs IH]; simpl.
  - ring.
  - rewrite IH. ring.
Qed.

Lemma fsum_finite (vs : list Q) : fsum (map Fin vs) = Fin (qsum vs).
Proof.
  induction vs as [|v vs IH]; [reflexivity|].
  unfold fsum, qsum in *. simpl. rewrite IH. reflexivity.
Qed.

Lemma adjustment_finite (structure_biotic structure_abiotic : means) :
  ~ abiotic_sum structure_abiotic == 0 ->
  abiotic_adjustment structure_biotic structure_abiotic
  = Fin (abiotic_remainder structure_biotic / abiotic_sum structure_abiotic).
Proof.
  intros N. unfold abiotic_adjustment, fdiv.
  destruct (Qeq_bool (abiotic_sum structure_abiotic) 0) eqn:E; [|reflexivity].
  apply Qeq_bool_iff in E. contradiction.
Qed.

Lemma concat_structure_values (structure_biotic structure_abiotic : means) :
  ~ abiotic_sum structure_abiotic == 0 ->
  map snd (concat_structure structure_biotic structure_abiotic)
  = map Fin
      (map snd structure_biotic
       ++ map (fun x => x * (abiotic_remainder structure_biotic
                             / abiotic_sum structure_abiotic))
              (map snd structure_abiotic)).
Proof.
  intros N. unfold concat_structure, rescale_abiotic.
  rewrite (adjustment_finite _ _ N).
  rewrite !map_app, !map_map. reflexivity.
Qed.

(** C2, as amended.  When the abiotic means do not sum to zero, the
    biotic means together with the rescaled abiotic means sum to 100, in
    exact arithmetic, before the table is rounded and before its rows
    that are not above zero are removed. *)
Theorem rescaled_structure_totals_100 (structure_biotic structure_abiotic : means) :
  ~ abiotic_sum structure_abiotic == 0 ->
  exists total,
    treemap_total (concat_structure structure_biotic structure_abiotic) = Fin total
    /\ total == 100.
Proof.
  intros N. unfold treemap_total.
  rewrite (concat_structure_values _ _ N), fsum_finite.
  eexists. split; [reflexivity|].
  rewrite qsum_app, qsum_scale.
  unfold abiotic_remainder, biotic_sum.
  fold (abiotic_sum structure_abiotic). field. exact N.
Qed.

Lemma rescaled_structure_totals_100_witness :
  exists total,
    treemap_total (concat_structure [("graminoid"%string, 45); ("moss"%string, 30)]
                                    [("water"%string, 4); ("soil"%string, 1)])
    = Fin total
    /\ total == 100.
Proof.
  apply rescaled_structure_totals_100. discriminate.
Defined.

(** C2 as stated fails: with mean covers of 60 and 70 for two growth
    habits and one abiotic element of mean 10, the abiotic remainder is
    negative, the rescaled abiotic row is removed, and the values of the
    summary total 130. *)
Lemma structure_summary_total_not_100 :
  structure_summary [("graminoid"%string, 60); ("moss"%string, 70)]
                    [("water"%string, 10)]
  = [("graminoid"%string, Fin 60.0); ("moss"%string, Fin 70.0)]
  /\ exists total,
      treemap_total (structure_summary [("graminoid"%string, 60); ("moss"%string, 70)]
                                       [("water"%string, 10)])
      = Fin total
      /\ ~ total == 100.
Proof.
  split; [vm_compute; reflexivity|].
  eexists. split; [vm_compute; reflexivity|]. discriminate.
Qed.

(** Rounding alone already moves the total: three values of one third of
    100 are each rounded to 33.3. *)
Lemma structure_summary_rounding_total :
  exists total,
    treemap_total (structure_summary [("forb"%string, 33.33); ("moss"%string, 33.33)]
                                     [("water"%string, 2)])
    = Fin total
    /\ total == 99.9.
Proof.
  eexists. split; [vm_compute; reflexivity|]. reflexivity.
Qed.

(** Without any abiotic cover the adjustment is not finite and the summary
    holds the biotic rows alone. *)
Lemma structure_summary_no_abiotic :
  abiotic_adjustment [("forb"%string, 30); ("moss"%string, 30)] [("water"%string, 0)]
  = PosInf
  /\ map fst (structure_summary [("forb"%string, 30); ("moss"%string, 30)]
                                [("water"%string, 0)])
     = ["forb"%string; "moss"%string].
Proof. split; vm_compute; reflexivity. Qed.

End Treemap.

(** ** C3: the site visits behind every query *)

Section UnitFilter.
Import Frame Text SiteVisits.

Open Scope string_scope.

Lemma filter_to_unit_In (unit_name : string) (site_visit_data : list site_visit)
    (sv : site_visit) :
  In sv (filter_to_unit unit_name site_visit_data)
  <-> In sv site_visit_data /\ veg_type sv = Some unit_name.
Proof.
  unfold filter_to_unit, veg_type_is. rewrite filter_In.
  destruct (veg_type sv) as [label|].
  - rewrite String.eqb_eq. split; intros [H E]; (split; [exact H|]); congruence.
  - split; intros [_ E]; discriminate.
Qed.

Lemma input_sql_rendering (site_visit_data : list site_visit) :
  site_visit_data <> [] ->
  input_sql site_visit_data
  = where_head
    ++ String.concat ", " (map quoted (map site_visit_code site_visit_data))
    ++ ");".
Proof.
  intros N. unfold input_sql.
  rewrite (fold_left_append (fun sv => "'" ++ site_visit_code sv ++ "', ")).
  replace (map (fun sv => "'" ++ site_visit_code sv ++ "', ") site_visit_data)
    with (map (fun x => x ++ ", ") (map quoted (map site_visit_code site_visit_data))).
  - rewrite separated_pieces.
    + rewrite <- append_assoc, (drop_last_append _ ", "), append_assoc. reflexivity.
    + destruct site_visit_data; [contradiction | discriminate].
  - rewrite !map_map. apply map_ext. intros sv. unfold quoted.
    simpl. rewrite append_assoc. reflexivity.
Qed.

Lemma quoted_literals_outside (cur s : string) :
  quoted_literals false cur s = quoted_literals false "" s.
Proof. destruct s; reflexivity. Qed.

Lemma quoted_literals_skip (s t : string) :
  quote_free s = true ->
  quoted_literals false "" (s ++ t) = quoted_literals false "" t.
Proof.
  induction s as [|c s IH]; simpl; intros Q; [reflexivity|].
  apply andb_true_iff in Q. destruct Q as [Qc Qs].
  apply negb_true_iff in Qc. rewrite Qc. apply IH. exact Qs.
Qed.

Lemma quoted_literals_inside (code cur t : string) :
  quote_free code = true ->
  quoted_literals true cur (code ++ String "'" t)
  = (cur ++ code) :: quoted_literals false "" t.
Proof.
  revert cur. induction code as [|c code IH]; simpl; intros cur Q.
  - rewrite append_empty_r. reflexivity.
  - apply andb_true_iff in Q. destruct Q as [Qc Qs].
    apply negb_true_iff in Qc. rewrite Qc, IH by exact Qs.
    rewrite append_assoc. reflexivity.
Qed.

Lemma quoted_literals_quoted (code t : string) :
  quote_free code = true ->
  quoted_literals false "" (quoted code ++ t) = code :: quoted_literals false "" t.
Proof.
  intros Q. unfold quoted. simpl.
  rewrite append_assoc. simpl. apply (quoted_literals_inside code "" t Q).
Qed.

Lemma quoted_literals_list (codes : list string) (t : string) :
  Forall (fun code => quote_free code = true) codes ->
  quoted_literals false "" (String.concat ", " (map quoted codes) ++ t)
  = (codes ++ quoted_literals false "" t)%list.
Proof.
  induction codes as [|code codes IH]; intros F; [reflexivity|].
  inversion F as [|? ? Q F']; subst.
  destruct codes as [|code' codes].
  - simpl map. simpl String.concat. apply quoted_literals_quoted. exact Q.
  - change (String.concat ", " (map quoted (code :: code' :: codes)))
      with (quoted code ++ ", " ++ String.concat ", " (map quoted (code' :: codes))).
    rewrite !append_assoc, quoted_literals_quoted by exact Q.
    rewrite (quoted_literals_skip ", ") by reflexivity.
    rewrite IH by exact F'. reflexivity.
Qed.

Lemma in_list_input_sql (site_visit_data : list site_visit) :
  Forall (fun sv => quote_free (site_visit_code sv) = true) site_visit_data ->
  in_list (input_sql site_visit_data) = map site_visit_code site_visit_data.
Proof.
  intros F. destruct site_visit_data as [|sv l] eqn:E; [vm_compute; reflexivity|].
  rewrite <- E in *. rewrite input_sql_rendering by (subst; discriminate).
  unfold in_list. rewrite (quoted_literals_skip where_head) by reflexivity.
  rewrite quoted_literals_list.
  - simpl. apply app_nil_r.
  - apply Forall_map. exact F.
Qed.

(** A query text that ends with its only semicolon gets the clause in
    place of that semicolon. *)
Lemma replace_semicolon_final (clause body : string) :
  semicolon_free body = true ->
  replace_semicolon clause (body ++ ";") = body ++ clause.
Proof.
  induction body as [|c body IH]; simpl; intros F.
  - rewrite append_empty_r. reflexivity.
  - apply andb_true_iff in F. destruct F as [Fc Fb].
    apply negb_true_iff in Fc. rewrite Fc, IH by exact Fb. reflexivity.
Qed.

Lemma replace_semicolon_append (clause a b : string) :
  replace_semicolon clause (a ++ b)
  = replace_semicolon clause a ++ replace_semicolon clause b.
Proof.
  induction a as [|c a IH]; simpl; [reflexivity|].
  destruct (Ascii.eqb c ";"); rewrite IH; [rewrite append_assoc|]; reflexivity.
Qed.

Lemma replace_semicolon_none (clause query : string) :
  semicolon_free query = true -> replace_semicolon clause query = query.
Proof.
  induction query as [|c q IH]; simpl; intros F; [reflexivity|].
  apply andb_true_iff in F. destruct F as [Fc Fq].
  apply negb_true_iff in Fc. rewrite Fc, IH by exact Fq. reflexivity.
Qed.

(** Whitespace holds neither a semicolon nor a single quote. *)
Lemma blank_plain (rest : string) :
  blank rest = true -> semicolon_free rest = true /\ quote_free rest = true.
Proof.
  induction rest as [|c rest IH]; simpl; intros B; [split; reflexivity|].
  apply andb_true_iff in B. destruct B as [Bc Br].
  destruct (IH Br) as [S Q]. rewrite S, Q, !andb_true_r.
  split; apply negb_true_iff.
  - destruct (Ascii.eqb c ";") eqn:E; [|reflexivity].
    apply Ascii.eqb_eq in E. subst c. discriminate.
  - destruct (Ascii.eqb c "'") eqn:E; [|reflexivity].
    apply Ascii.eqb_eq in E. subst c. discriminate.
Qed.

(** The injection into a text with one semicolon followed by whitespace. *)
Lemma replace_semicolon_closing (clause body rest : string) :
  semicolon_free body = true -> blank rest = true ->
  replace_semicolon clause (body ++ ";" ++ rest) = body ++ clause ++ rest.
Proof.
  intros F B. destruct (blank_plain rest B) as [S _].
  rewrite replace_semicolon_append, (replace_semicolon_none clause body F).
  change (";" ++ rest) with (String ";" rest). simpl replace_semicolon.
  rewrite (replace_semicolon_none clause rest S). reflexivity.
Qed.

(** A literal that lacks the character [c] and does not start [s] does
    not start [s] followed by [c] and more text either. *)
Lemma after_prefix_cut (c : ascii) (lit s t : string) :
  existsb (Ascii.eqb c) (list_ascii_of_string lit) = false ->
  after_prefix lit s = None ->
  after_prefix lit (s ++ String c t) = None.
Proof.
  revert s. induction lit as [|a lit IH]; intros s C N; [discriminate|].
  simpl in C. apply orb_false_iff in C. destruct C as [Ca Cl].
  destruct s as [|b s]; simpl in *.
  - rewrite Ascii.eqb_sym, Ca. reflexivity.
  - destruct (Ascii.eqb a b); [apply IH; assumption | reflexivity].
Qed.

Lemma after_first_step (lit : string) (c : ascii) (s : string) :
  after_first lit (String c s)
  = match after_prefix lit (String c s) with
    | Some rest => Some rest
    | None => after_first lit s
    end.
Proof. reflexivity. Qed.

Lemma after_first_cut (c : ascii) (lit s t : string) :
  existsb (Ascii.eqb c) (list_ascii_of_string lit) = false ->
  after_first lit s = None ->
  after_first lit (s ++ String c t) = after_first lit (String c t).
Proof.
  intros C. induction s as [|b s IH]; intros N; [reflexivity|].
  rewrite after_first_step in N.
  destruct (after_prefix lit (String b s)) eqn:P; [discriminate|].
  change (String b s ++ String c t) with (String b (s ++ String c t)).
  rewrite after_first_step.
  change (String b (s ++ String c t)) with (String b s ++ String c t).
  rewrite (after_prefix_cut c lit (String b s) t C P).
  apply IH. exact N.
Qed.

(** The clause is a line end, the opening words of the restriction and a
    text whose string literals are the codes of the table. *)
Lemma input_sql_restriction (site_visit_data : list site_visit) :
  Forall (fun sv => quote_free (site_visit_code sv) = true) site_visit_data ->
  exists listed,
    input_sql site_visit_data = String CR (String LF (restriction_head ++ listed))
    /\ forall rest, quote_free rest = true ->
                    in_list (listed ++ rest) = map site_visit_code site_visit_data.
Proof.
  intros F. destruct site_visit_data as [|sv l] eqn:E.
  - exists ");". split; [reflexivity|].
    intros rest Q. unfold in_list.
    change (");" ++ rest) with (String ")" (String ";" rest)). simpl.
    rewrite <- (append_empty_r rest), quoted_literals_skip by exact Q. reflexivity.
  - rewrite <- E in *.
    exists (" (" ++ String.concat ", " (map quoted (map site_visit_code site_visit_data))
                 ++ ");").
    split; [rewrite input_sql_rendering by (subst; discriminate); reflexivity|].
    intros rest Q. unfold in_list.
    rewrite !append_assoc.
    rewrite (quoted_literals_skip " (") by reflexivity.
    rewrite quoted_literals_list by (apply Forall_map; exact F).
    change (");" ++ rest) with (String ")" (String ";" rest)). simpl.
    rewrite <- (append_empty_r rest), quoted_literals_skip by exact Q.
    simpl. apply app_nil_r.
Qed.

(** What the modelled store reads in a query text that received the
    clause. *)
Lemma restriction_of_injected (site_visit_data : list site_visit) (body rest : string) :
  Forall (fun sv => quote_free (site_visit_code sv) = true) site_visit_data ->
  after_first restriction_head body = None ->
  quote_free rest = true ->
  exists listed,
    after_first restriction_head (body ++ input_sql site_visit_data ++ rest)
    = Some listed
    /\ in_list listed = map site_visit_code site_visit_data.
Proof.
  intros F N Q. destruct (input_sql_restriction site_visit_data F) as [listed [E L]].
  exists (listed ++ rest). split; [|apply L; exact Q].
  rewrite E.
  change (String CR (String LF (restriction_head ++ listed)) ++ rest)
    with (String CR (String LF (restriction_head ++ listed) ++ rest)).
  rewrite (after_first_cut CR) by (reflexivity || exact N).
  change (String LF (restriction_head ++ listed) ++ rest)
    with (String LF ((restriction_head ++ listed) ++ rest)).
  rewrite append_assoc. reflexivity.
Qed.

(** C3, as amended.  The site visit table is restricted to the rows whose
    vegetation label is the unit name before the clause is written, so the
    clause lists the codes of those site visits and no other.  When the
    text of a query holds one semicolon, followed by nothing but
    whitespace, and no restriction of the site visit code of its own, and
    no site visit code of the unit holds a single quote, the replacement
    of the semicolon puts the clause at the end of the statement, and the
    query returns a row only if its site visit code is the code of a site
    visit with that label.  Every elevation and slope value read
    afterwards belongs to a site visit with that label. *)
Theorem downstream_data_of_unit_only {row : Type} (code_of : row -> string)
    (unit_name : string) (site_visit_data : list site_visit) (table : list row)
    (body rest : string) :
  (forall sv, In sv site_visit_data -> veg_type sv = Some unit_name ->
              quote_free (site_visit_code sv) = true) ->
  semicolon_free body = true ->
  after_first restriction_head body = None ->
  blank rest = true ->
  (forall sv, In sv (filter_to_unit unit_name site_visit_data)
              <-> In sv site_visit_data /\ veg_type sv = Some unit_name) /\
  in_list (unit_input_sql unit_name site_visit_data)
  = map site_visit_code (filter_to_unit unit_name site_visit_data) /\
  replace_semicolon (unit_input_sql unit_name site_visit_data) (body ++ ";" ++ rest)
  = body ++ unit_input_sql unit_name site_visit_data ++ rest /\
  (forall r,
      In r (query_to_dataframe code_of table
              (replace_semicolon (unit_input_sql unit_name site_visit_data)
                                 (body ++ ";" ++ rest)))
      <-> In r table
          /\ exists sv, In sv site_visit_data /\ veg_type sv = Some unit_name
                        /\ site_visit_code sv = code_of r) /\
  (forall v,
      In v (unit_elevation_column unit_name site_visit_data)
      -> exists sv, In sv site_visit_data /\ veg_type sv = Some unit_name
                    /\ elevation_m sv = v) /\
  (forall v,
      In v (unit_slope_column unit_name site_visit_data)
      -> exists sv, In sv site_visit_data /\ veg_type sv = Some unit_name
                    /\ slope_deg sv = v).
Proof.
  intros Q F N B.
  assert (QF : Forall (fun sv => quote_free (site_visit_code sv) = true)
                      (filter_to_unit unit_name site_visit_data)).
  { apply Forall_forall. intros sv H.
    apply filter_to_unit_In in H. apply Q; tauto. }
  assert (R := replace_semicolon_closing
                 (unit_input_sql unit_name site_visit_data) body rest F B).
  split; [apply filter_to_unit_In|].
  split; [unfold unit_input_sql; apply in_list_input_sql; exact QF|].
  split; [exact R|]. split; [|split].
  - intros r. rewrite R. unfold query_to_dataframe, unit_input_sql.
    destruct (restriction_of_injected (filter_to_unit unit_name site_visit_data)
                body rest QF N (proj2 (blank_plain rest B))) as [listed [E L]].
    rewrite E, filter_In, L, existsb_exists.
    split; intros [H X]; (split; [exact H|]).
    + destruct X as [code [I C]]. apply String.eqb_eq in C.
      apply in_map_iff in I. destruct I as [sv [Ec I]].
      apply filter_to_unit_In in I. destruct I as [I V].
      exists sv. repeat split; [exact I | exact V | congruence].
    + destruct X as [sv [I [V C]]]. exists (site_visit_code sv). split.
      * apply in_map. apply filter_to_unit_In. tauto.
      * apply String.eqb_eq. symmetry. exact C.
  - intros v I. apply in_map_iff in I. destruct I as [sv [E I]].
    apply filter_to_unit_In in I. exists sv. tauto.
  - intros v I. apply in_map_iff in I. destruct I as [sv [E I]].
    apply filter_to_unit_In in I. exists sv. tauto.
Qed.

Lemma downstream_data_of_unit_only_witness :
  replace_semicolon (unit_input_sql "Wet Sedge Meadow" Examples.visits)
                    Examples.cover_query
  = Examples.open_query ++ unit_input_sql "Wet Sedge Meadow" Examples.visits
    ++ Examples.LF
  /\ map Vegetation.site_visit_code
       (query_to_dataframe Vegetation.site_visit_code Examples.covers
          (replace_semicolon (unit_input_sql "Wet Sedge Meadow" Examples.visits)
                             Examples.cover_query))
     = ["NPRA_001"; "NPRA_004"].
Proof.
  split; [|vm_compute; reflexivity].
  refine (proj1 (proj2 (proj2
            (downstream_data_of_unit_only Vegetation.site_visit_code
               "Wet Sedge Meadow" Examples.visits Examples.covers
               Examples.open_query Examples.LF _ eq_refl eq_refl eq_refl)))).
  intros sv H V. simpl in H.
  destruct H as [H | [H | [H | [H | H]]]]; try (subst sv; reflexivity).
  destruct H.
Defined.

(** C3 as stated fails where the clause does not reach the query or does
    not list what the table holds.  A query text without a semicolon is
    left as it is by the replacement and returns the rows of every site
    visit, among them those of a site visit labelled with another unit;
    and a site visit code of the unit that holds a single quote is read as
    two codes, neither of them the code of a site visit of the unit and
    the second the code of a site visit of another unit. *)
Lemma query_reaches_other_units :
  map site_visit_code (filter_to_unit "Wet Sedge Meadow" Examples.visits)
  = ["NPRA_001"; "NPRA_004"]
  /\ map veg_type
       (filter (fun sv => String.eqb (site_visit_code sv) "NPRA_002") Examples.visits)
     = [Some "Tussock Tundra"]
  /\ replace_semicolon (unit_input_sql "Wet Sedge Meadow" Examples.visits)
                       Examples.open_query
     = Examples.open_query
  /\ map Vegetation.site_visit_code
       (query_to_dataframe Vegetation.site_visit_code Examples.covers
          (replace_semicolon (unit_input_sql "Wet Sedge Meadow" Examples.visits)
                             Examples.open_query))
     = ["NPRA_001"; "NPRA_002"; "NPRA_004"]
  /\ map site_visit_code (filter_to_unit "Wet Sedge Meadow" Examples.quoted_visits)
     = ["NPRA_001', 'NPRA_002"]
  /\ map veg_type
       (filter (fun sv => String.eqb (site_visit_code sv) "NPRA_002")
               Examples.quoted_visits)
     = [Some "Tussock Tundra"]
  /\ map Vegetation.site_visit_code
       (query_to_dataframe Vegetation.site_visit_code Examples.covers
          (replace_semicolon (unit_input_sql "Wet Sedge Meadow" Examples.quoted_visits)
                             Examples.cover_query))
     = ["NPRA_001"; "NPRA_002"].
Proof. repeat split; vm_compute; reflexivity. Qed.

End UnitFilter.

(** ** C4: missing-data codes *)

Section Sentinels.
Import Frame Environment.

Lemma sentinel_filter_code (s : series) (values : list Q) :
  sentinel_filter s values = filter (fun v => num_neqb v (missing_code s)) values.
Proof. destruct s; reflexivity. Qed.

Lemma sentinel_filter_In (s : series) (values : list Q) (v : Q) :
  In v (sentinel_filter s values) <-> In v values /\ ~ v == missing_code s.
Proof. rewrite sentinel_filter_code, filter_In, num_neqb_true. tauto. Qed.

(** The statements of each series end with its filtering statement,
    applied to the values recorded for the series. *)
Lemma present_with_code {A : Type} (code : A -> option string) (value : A -> cell)
    (rows : list A) :
  dropna (map (fun row => match fst row with
                          | Some _ => snd row
                          | None => None
                          end)
              (map (fun r => (code r, value r)) rows))
  = dropna (map value (filter (fun r => match code r with
                                        | Some _ => true
                                        | None => false
                                        end) rows)).
Proof.
  induction rows as [|r rows IH]; [reflexivity|].
  simpl. destruct (code r); simpl; rewrite IH; reflexivity.
Qed.

Lemma statistics_input_filtered (s : series) (t : Measurements.tables) :
  Measurements.statistics_input s t
  = sentinel_filter s (Measurements.recorded s t).
Proof.
  assert (Two : forall x a b : string,
             existsb (String.eqb x) [a; b] = String.eqb x a || String.eqb x b).
  { intros x a b. simpl. rewrite orb_false_r. reflexivity. }
  destruct s; unfold Measurements.statistics_input, Measurements.recorded;
    try reflexivity.
  - unfold canopy_data.
    rewrite (filter_ext _ _ (fun r => Two (height_type r) _ _)). reflexivity.
  - unfold Measurements.tussock_data.
    rewrite (filter_ext _ _ (fun r => Two (Measurements.Tussock.cover_type r) _ _)).
    reflexivity.
  - unfold elevation_data. rewrite present_with_code. reflexivity.
  - unfold Measurements.slope_data. rewrite present_with_code. reflexivity.
  - unfold Measurements.waterdepth_data. rewrite present_with_code. reflexivity.
Qed.

(** C4.  For each of the nine measurement series, the column handed to
    the statistics is the column of the recorded values of the series
    after its filtering statement, which removes exactly the rows whose
    value equals the missing-data code of the series (-32768 for elevation
    and slope, -999 for the others) and no other row: the rows left are
    the other rows in their order, a value is left if and only if it was
    recorded and differs from the code, and the number of rows removed is
    the number of rows equal to the code. *)
Theorem sentinel_filter_exact (s : series) (t : Measurements.tables) :
  Measurements.statistics_input s t
  = filter (fun v => negb (Qeq_bool v (missing_code s))) (Measurements.recorded s t) /\
  (forall v, In v (Measurements.statistics_input s t)
             <-> In v (Measurements.recorded s t) /\ ~ v == missing_code s) /\
  (List.length (Measurements.recorded s t)
   = List.length (Measurements.statistics_input s t)
     + count_code (missing_code s) (Measurements.recorded s t))%nat /\
  ((s = elevation \/ s = slope) /\ missing_code s = -32768
   \/ (s <> elevation /\ s <> slope) /\ missing_code s = -999).
Proof.
  rewrite statistics_input_filtered.
  split; [apply sentinel_filter_code|].
  split; [intros v; apply sentinel_filter_In|].
  split.
  - rewrite sentinel_filter_code. unfold count_code, num_neqb, num_eqb.
    apply (filter_length_split (fun v => Qeq_bool v (missing_code s))).
  - destruct s; ((left; split; [tauto | reflexivity])
                 || (right; split; [split; discriminate | reflexivity])).
Qed.

(** The two pipelines named by the claim end with that statement. *)
Lemma canopy_data_has_no_code (shrub_data : list shrub_row) (v : Q) :
  In v (canopy_data shrub_data) -> ~ v == -999.
Proof.
  unfold canopy_data. intros H.
  apply (sentinel_filter_In shrub_canopy_height) in H. tauto.
Qed.

Lemma elevation_data_has_no_code (site_visit_data : list (option string * cell)) (v : Q) :
  In v (elevation_data site_visit_data) -> ~ v == -32768.
Proof.
  unfold elevation_data. intros H.
  apply (sentinel_filter_In elevation) in H. tauto.
Qed.

Lemma sentinel_filter_exact_witness :
  Measurements.recorded elevation Examples.measured = [12.5; -32768; -999]
  /\ Measurements.statistics_input elevation Examples.measured = [12.5; -999]
  /\ (4 = List.length (Measurements.statistics_input soil_pH Examples.measured) + 2)%nat.
Proof.
  split; [reflexivity|]. split.
  - exact (proj1 (sentinel_filter_exact elevation Examples.measured)).
  - exact (proj1 (proj2 (proj2 (sentinel_filter_exact soil_pH Examples.measured)))).
Defined.

End Sentinels.

(** ** C5: explicit absences in the cover table *)

Section AbsenceCover.
Import Frame Vegetation.

Lemma replace_absence_code (v : Q) :
  v == -999 -> replace_absence (Some v) = Some 0.
Proof.
  intros E. unfold replace_absence, num_eqb.
  apply Qeq_bool_iff in E. rewrite E. reflexivity.
Qed.

Lemma replace_absence_other (v : Q) :
  ~ v == -999 -> replace_absence (Some v) = Some v.
Proof.
  intros N. unfold replace_absence, num_eqb.
  destruct (Qeq_bool v (-999)) eqn:E; [|reflexivity].
  apply Qeq_bool_iff in E. contradiction.
Qed.

Lemma enforce_numeric_keeps_filters (f : cover_row -> bool)
    (vegetation_data : list cover_row) :
  (forall r c, f (with_cover r c) = f r) ->
  filter f (enforce_numeric vegetation_data)
  = enforce_numeric (filter f vegetation_data).
Proof.
  intros Hf. unfold enforce_numeric.
  induction vegetation_data as [|r l IH]; simpl; [reflexivity|].
  rewrite Hf. destruct (f r); simpl; rewrite IH; reflexivity.
Qed.

Lemma process_cover_commutes (vegetation_data : list cover_row) :
  process_cover vegetation_data
  = enforce_numeric (filter live (filter absolute_cover vegetation_data)).
Proof.
  unfold process_cover.
  rewrite (enforce_numeric_keeps_filters absolute_cover) by reflexivity.
  rewrite (enforce_numeric_keeps_filters live) by reflexivity.
  reflexivity.
Qed.

(** The covers of a table after the replacement add up to the covers
    other than -999 of the table before it. *)
Lemma enforce_numeric_sum (rows : list cover_row) :
  qsum (dropna (map cover_percent (enforce_numeric rows)))
  == qsum (filter (fun v => negb (Qeq_bool v (-999)))
                  (dropna (map cover_percent rows))).
Proof.
  induction rows as [|r rows IH]; [reflexivity|].
  unfold enforce_numeric in *. simpl map.
  destruct (cover_percent r) as [v|]; simpl replace_absence; [|exact IH].
  unfold num_eqb. simpl dropna. simpl filter.
  destruct (Qeq_bool v (-999)); simpl negb; cbv iota.
  - change (0 + qsum (dropna (map cover_percent
                                (map (fun r0 => with_cover r0
                                                  (replace_absence (cover_percent r0)))
                                     rows)))
            == qsum (filter (fun v0 => negb (Qeq_bool v0 (-999)))
                            (dropna (map cover_percent rows)))).
    rewrite IH. apply Qplus_0_l.
  - change (v + qsum (dropna (map cover_percent
                                (map (fun r0 => with_cover r0
                                                  (replace_absence (cover_percent r0)))
                                     rows)))
            == v + qsum (filter (fun v0 => negb (Qeq_bool v0 (-999)))
                                (dropna (map cover_percent rows)))).
    rewrite IH. reflexivity.
Qed.

(** C5.  The cover step does not exclude an observation whose cover is
    -999: every row is retained in its place with its site visit and
    name, the cover of such a row becomes 0 and any other cover is
    unchanged; the rows that reach the cover statistics are the same rows
    as without the replacement, so each of these observations still counts
    as one occurrence row of its taxon; and in the table that reaches the
    statistics the covers are the replaced covers, none is -999, and in
    any group of rows chosen by site visit and name the covers add up to
    the covers other than -999 recorded for the group, so that such an
    observation contributes zero. *)
Theorem absence_cover_zeroed_and_kept (vegetation_data : list cover_row) :
  List.length (enforce_numeric vegetation_data) = List.length vegetation_data /\
  (forall i r,
      nth_error vegetation_data i = Some r ->
      exists r',
        nth_error (enforce_numeric vegetation_data) i = Some r' /\
        site_visit_code r' = site_visit_code r /\
        name_accepted r' = name_accepted r /\
        cover_type r' = cover_type r /\
        dead_status r' = dead_status r /\
        (forall v, cover_percent r = Some v -> v == -999 ->
                   cover_percent r' = Some 0) /\
        (forall v, cover_percent r = Some v -> ~ v == -999 ->
                   cover_percent r' = Some v)) /\
  map (fun r => (site_visit_code r, name_accepted r)) (process_cover vegetation_data)
  = map (fun r => (site_visit_code r, name_accepted r))
        (filter live (filter absolute_cover vegetation_data)) /\
  (forall x,
      count_rows String.eqb x (map name_accepted (process_cover vegetation_data))
      = count_rows String.eqb x
          (map name_accepted (filter live (filter absolute_cover vegetation_data)))) /\
  map cover_percent (process_cover vegetation_data)
  = map (fun r => replace_absence (cover_percent r))
        (filter live (filter absolute_cover vegetation_data)) /\
  (forall r v, In r (process_cover vegetation_data) ->
               cover_percent r = Some v -> ~ v == -999) /\
  (forall group : string -> string -> bool,
      qsum (dropna (map cover_percent
                      (filter (fun r => group (site_visit_code r) (name_accepted r))
                              (process_cover vegetation_data))))
      == qsum (filter (fun v => negb (Qeq_bool v (-999)))
                      (dropna (map cover_percent
                                 (filter (fun r => group (site_visit_code r)
                                                         (name_accepted r))
                                         (filter live
                                            (filter absolute_cover vegetation_data))))))).
Proof.
  assert (K : forall l, map (fun r => (site_visit_code r, name_accepted r))
                            (enforce_numeric l)
                        = map (fun r => (site_visit_code r, name_accepted r)) l).
  { intros l. unfold enforce_numeric. rewrite map_map. reflexivity. }
  assert (N : forall l, map name_accepted (enforce_numeric l) = map name_accepted l).
  { intros l. unfold enforce_numeric. rewrite map_map. reflexivity. }
  split; [|split; [|split; [|split; [|split; [|split]]]]].
  - unfold enforce_numeric. apply length_map.
  - intros i r Hi.
    exists (with_cover r (replace_absence (cover_percent r))).
    split.
    + unfold enforce_numeric. rewrite nth_error_map, Hi. reflexivity.
    + repeat (split; [reflexivity|]). simpl. split; intros v E H; rewrite E.
      * apply replace_absence_code. exact H.
      * apply replace_absence_other. exact H.
  - rewrite process_cover_commutes. apply K.
  - intros x. rewrite process_cover_commutes, N. reflexivity.
  - rewrite process_cover_commutes. unfold enforce_numeric.
    rewrite map_map. reflexivity.
  - intros r v I E. rewrite process_cover_commutes in I.
    unfold enforce_numeric in I. apply in_map_iff in I.
    destruct I as [r0 [E0 _]]. subst r. simpl in E.
    unfold replace_absence, num_eqb in E.
    destruct (cover_percent r0) as [u|]; [|discriminate].
    destruct (Qeq_bool u (-999)) eqn:C; inversion E; subst v.
    + intros Z0. discriminate Z0.
    + intros Z0. apply Qeq_bool_iff in Z0. congruence.
  - intros group. rewrite process_cover_commutes.
    rewrite (enforce_numeric_keeps_filters
               (fun r => group (site_visit_code r) (name_accepted r)))
      by reflexivity.
    apply enforce_numeric_sum.
Qed.

Lemma absence_cover_zeroed_and_kept_witness :
  List.length (enforce_numeric Examples.covers) = 3%nat
  /\ exists r',
      nth_error (enforce_numeric Examples.covers) 2 = Some r'
      /\ site_visit_code r' = "NPRA_004"%string
      /\ name_accepted r' = "Salix pulchra"%string
      /\ cover_percent r' = Some 0.
Proof.
  split; [exact (proj1 (absence_cover_zeroed_and_kept Examples.covers))|].
  destruct (proj1 (proj2 (absence_cover_zeroed_and_kept Examples.covers))
              2%nat (Examples.cover "NPRA_004" "Salix pulchra" (-999)) eq_refl)
    as [r' [E [Hs [Hn [_ [_ [Hz _]]]]]]].
  exists r'. repeat split; [exact E | exact Hs | exact Hn |].
  apply (Hz (-999)); reflexivity.
Defined.

End AbsenceCover.

(** ** C6: percentile helpers *)

Section PercentileFacts.
Import Frame Percentiles.

Lemma insert_sorted_perm (x : Q) (l : list Q) : Permutation (x :: l) (insert_sorted x l).
Proof.
  induction l as [|y l IH]; simpl; [apply Permutation_refl|].
  destruct (Qle_bool x y); [apply Permutation_refl|].
  apply perm_trans with (y :: x :: l); [apply perm_swap|].
  apply perm_skip. exact IH.
Qed.

Lemma sort_values_perm (xs : list Q) : Permutation xs (sort_values xs).
Proof.
  induction xs as [|x xs IH]; simpl; [apply perm_nil|].
  apply perm_trans with (x :: sort_values xs).
  - apply perm_skip. exact IH.
  - apply insert_sorted_perm.
Qed.

Lemma insert_sorted_sorted (x : Q) (l : list Q) :
  StronglySorted Qle l -> StronglySorted Qle (insert_sorted x l).
Proof.
  induction l as [|y l IH]; simpl; intros S.
  - constructor; constructor.
  - destruct (Qle_bool x y) eqn:E.
    + apply Qle_bool_iff in E.
      constructor; [exact S|].
      constructor; [exact E|].
      inversion S as [|? ? _ F]; subst.
      eapply Forall_impl; [|exact F].
      intros z Hz. simpl in Hz. apply Qle_trans with y; assumption.
    + assert (L : y <= x).
      { apply Qlt_le_weak, Qnot_le_lt. intros H.
        apply Qle_bool_iff in H. congruence. }
      inversion S as [|? ? S' F]; subst.
      constructor; [apply IH; exact S'|].
      eapply Permutation_Forall; [apply insert_sorted_perm|].
      constructor; assumption.
Qed.

Lemma sort_values_sorted (xs : list Q) : StronglySorted Qle (sort_values xs).
Proof.
  induction xs as [|x xs IH]; simpl; [constructor|].
  apply insert_sorted_sorted. exact IH.
Qed.

Lemma sort_values_nonempty (x : list Q) : x <> [] -> sort_values x <> [].
Proof.
  intros N E. apply N. apply Permutation_nil.
  apply Permutation_sym. rewrite <- E. apply sort_values_perm.
Qed.

Lemma quantile_sorted (q : Q) (x : list Q) :
  x <> [] -> quantile q x = Some (interpolate q (sort_values x)).
Proof.
  intros N. apply sort_values_nonempty in N.
  unfold quantile, interpolate.
  destruct (sort_values x) as [|first rest]; [contradiction | reflexivity].
Qed.

(** C6.  Each percentile helper returns the linear-interpolation quantile
    of its input at its fixed quantile, 0.10, 0.25, 0.75 and 0.90: on an
    empty input a missing value, otherwise the interpolation between the
    two neighbouring values of the input put in ascending order.  For the
    input 1, 2, ..., 10 the 10th percentile is 1.9 and the 90th is 9.1. *)
Theorem percentile_helpers_interpolate (x : list Q) :
  (x = [] ->
   percentile_10 x = None /\ percentile_25 x = None /\
   percentile_75 x = None /\ percentile_90 x = None) /\
  (x <> [] ->
   exists ascending,
     Permutation x ascending /\ StronglySorted Qle ascending /\
     percentile_10 x = Some (interpolate 0.10 ascending) /\
     percentile_25 x = Some (interpolate 0.25 ascending) /\
     percentile_75 x = Some (interpolate 0.75 ascending) /\
     percentile_90 x = Some (interpolate 0.90 ascending)) /\
  cell_eq (percentile_10 [1; 2; 3; 4; 5; 6; 7; 8; 9; 10]) (Some 1.9) /\
  cell_eq (percentile_90 [1; 2; 3; 4; 5; 6; 7; 8; 9; 10]) (Some 9.1).
Proof.
  split; [|split; [|split]].
  - intros E. subst x. repeat split; reflexivity.
  - intros N. exists (sort_values x).
    split; [apply sort_values_perm|]. split; [apply sort_values_sorted|].
    unfold percentile_10, percentile_25, percentile_75, percentile_90.
    repeat split; apply quantile_sorted; exact N.
  - vm_compute. reflexivity.
  - vm_compute. reflexivity.
Qed.

Lemma percentile_helpers_interpolate_witness :
  exists ascending,
    Permutation [7; 3; 5] ascending /\ StronglySorted Qle ascending /\
    percentile_10 [7; 3; 5] = Some (interpolate 0.10 ascending) /\
    percentile_25 [7; 3; 5] = Some (interpolate 0.25 ascending) /\
    percentile_75 [7; 3; 5] = Some (interpolate 0.75 ascending) /\
    percentile_90 [7; 3; 5] = Some (interpolate 0.90 ascending).
Proof.
  apply (proj1 (proj2 (percentile_helpers_interpolate [7; 3; 5]))).
  discriminate.
Defined.

End PercentileFacts.

(** ** C7: constancy *)

Section Constancy.
Import Frame Vegetation.

Lemma count_rows_names (x : string) (data : occurrence_table) :
  count_rows String.eqb x (names data)
  = List.length (filter (fun row => String.eqb x (snd row)) data).
Proof.
  unfold count_rows, names.
  induction data as [|row data IH]; simpl; [reflexivity|].
  destruct (String.eqb x (snd row)); simpl; rewrite IH; reflexivity.
Qed.

Lemma site_codes_NoDup (x : string) (data : occurrence_table) :
  NoDup data ->
  NoDup (site_codes (filter (fun row => String.eqb x (snd row)) data)).
Proof.
  unfold site_codes.
  induction data as [|[site name] data IH]; simpl; intros ND; [constructor|].
  inversion ND as [|? ? Nrow ND']; subst.
  destruct (String.eqb x name) eqn:E; simpl; [|apply IH; exact ND'].
  apply String.eqb_eq in E. subst name.
  constructor; [|apply IH; exact ND'].
  intros H. apply in_map_iff in H. destruct H as [[site' name'] [Es H]].
  simpl in Es. subst site'. apply filter_In in H. destruct H as [H E].
  simpl in E. apply String.eqb_eq in E. subst name'. contradiction.
Qed.

(** On a table in which no site visit holds a name twice, as the tables
    grouped by site visit and name are, the computed constancy is the
    constancy of the glossary. *)
Lemma constancy_table_of_grouped (data : occurrence_table) (x : string) :
  NoDup data -> In x (names data) ->
  exists row,
    In row (constancy_table data) /\ taxon row = x /\
    constancy row == glossary_constancy x data.
Proof.
  intros ND Hx.
  exists {| taxon := x;
            occurrences := count_rows String.eqb x (names data);
            constancy :=
              (inject_Z (Z.of_nat (count_rows String.eqb x (names data)))
               / inject_Z (Z.of_nat (List.length (unique String.eqb (site_codes data)))))
              * 100 |}.
  split; [|split; [reflexivity|]].
  - unfold constancy_table. apply in_map_iff.
    exists (x, count_rows String.eqb x (names data)). split; [reflexivity|].
    apply (value_counts_In String.eqb string_eqb_eq). tauto.
  - simpl. unfold glossary_constancy, visits_with.
    rewrite (unique_NoDup_length String.eqb string_eqb_eq
               (site_codes (filter (fun row => String.eqb x (snd row)) data)))
      by (apply site_codes_NoDup; exact ND).
    unfold site_codes at 2. rewrite length_map, <- count_rows_names.
    unfold Qdiv. ring.
Qed.

(** C7 on the vascular table, which is not grouped by site visit and
    name: a taxon recorded in two rows of the only site visit gets two
    occurrences and a constancy of 200, where it occurs in one site visit
    out of one, a constancy of 100. *)
Theorem vascular_constancy_counts_rows :
  constancy_vascular [("NPRA_001_20120712"%string, "Carex aquatilis"%string);
                   ("NPRA_001_20120712"%string, "Carex aquatilis"%string)]
  = [{| taxon := "Carex aquatilis"; occurrences := 2; constancy := 200 |}]
  /\ glossary_constancy "Carex aquatilis"
       [("NPRA_001_20120712"%string, "Carex aquatilis"%string);
        ("NPRA_001_20120712"%string, "Carex aquatilis"%string)] == 100.
Proof. split; vm_compute; reflexivity. Qed.

End Constancy.

(** ** C8 and C9: the markdown field parser *)

Section LiteralSearch.
Import Text.

Open Scope string_scope.

Lemma after_prefix_Some (p s rest : string) :
  after_prefix p s = Some rest <-> s = p ++ rest.
Proof.
  revert s. induction p as [|a p IH]; intros s; simpl.
  - split; [intros E; inversion E; reflexivity | intros E; subst; reflexivity].
  - destruct s as [|b s]; [split; discriminate|].
    destruct (Ascii.eqb a b) eqn:E.
    + apply Ascii.eqb_eq in E. subst b. rewrite IH.
      split; [intros H; subst; reflexivity | intros H; inversion H; reflexivity].
    + split; [discriminate|].
      intros H. inversion H. subst. rewrite Ascii.eqb_refl in E. discriminate.
Qed.

Lemma after_first_Some (lit s rest : string) :
  after_first lit s = Some rest -> exists before, s = before ++ lit ++ rest.
Proof.
  induction s as [|c s IH]; simpl.
  - destruct (after_prefix lit "") eqn:E; [|discriminate].
    intros H. inversion H. subst. apply after_prefix_Some in E.
    exists "". exact E.
  - destruct (after_prefix lit (String c s)) eqn:E.
    + intros H. inversion H. subst. apply after_prefix_Some in E.
      exists "". exact E.
    + intros H. destruct (IH H) as [before B].
      exists (String c before). simpl. rewrite B. reflexivity.
Qed.

Lemma after_first_None (lit s : string) :
  after_first lit s = None <-> ~ occurs lit s.
Proof.
  split.
  - induction s as [|c s IH]; simpl;
      destruct (after_prefix lit _) eqn:E; try discriminate; intros H.
    + intros [before [after O]].
      destruct before; [|discriminate]. simpl in O.
      apply after_prefix_Some in O. simpl in E. congruence.
    + intros [before [after O]].
      destruct before as [|b before].
      * simpl in O. apply after_prefix_Some in O. congruence.
      * simpl in O. inversion O. subst. apply (IH H). exists before, after.
        reflexivity.
  - intros N. destruct (after_first lit s) as [rest|] eqn:E; [|reflexivity].
    exfalso. apply N. destruct (after_first_Some _ _ _ E) as [before B].
    exists before, rest. exact B.
Qed.

(** The occurrence found is the leftmost one. *)
Lemma after_first_leftmost (lit before rest : string) :
  (forall before' rest',
      before ++ lit ++ rest = before' ++ lit ++ rest' ->
      (String.length before <= String.length before')%nat) ->
  after_first lit (before ++ lit ++ rest) = Some rest.
Proof.
  induction before as [|c before IH]; intros L.
  - simpl. assert (E : after_prefix lit (lit ++ rest) = Some rest)
      by (apply after_prefix_Some; reflexivity).
    destruct (lit ++ rest); simpl; rewrite E; reflexivity.
  - simpl. destruct (after_prefix lit (String c (before ++ lit ++ rest))) eqn:E.
    + apply after_prefix_Some in E.
      specialize (L "" s E). simpl in L. lia.
    + apply IH. intros before' rest' H.
      specialize (L (String c before') rest'). simpl in L.
      rewrite H in L. specialize (L eq_refl). lia.
Qed.

Lemma upto_newline_line (line rest : string) :
  one_line line = true -> upto_newline (line ++ String LF rest) = line.
Proof.
  induction line as [|c line IH]; simpl; intros O; [reflexivity|].
  apply andb_true_iff in O. destruct O as [Oc Ol].
  apply negb_true_iff in Oc. rewrite Oc, IH by exact Ol. reflexivity.
Qed.

(** Skipping the whitespace before cutting the line gives the same
    stripped text as cutting first, as long as the line holds some text. *)
Lemma strip_line_after_lstrip (rest : string) :
  strip (upto_newline rest) <> "" ->
  strip (upto_newline (lstrip rest)) = strip (upto_newline rest).
Proof.
  induction rest as [|c rest IH]; [reflexivity|].
  simpl lstrip. destruct (isspace c) eqn:S; [|reflexivity].
  simpl upto_newline. destruct (Ascii.eqb c LF) eqn:E.
  - intros N. exfalso. apply N. reflexivity.
  - unfold strip in *. simpl lstrip. rewrite S. exact IH.
Qed.

End LiteralSearch.

Section MarkdownFields.
Import Text Run Markdown.

Open Scope string_scope.

Lemma parse_markdown_present (fs : filesystem) (text_input label content : string) :
  fs text_input = Some content ->
  run (parse_markdown fs text_input label)
  = (Return (match search_group1 label content with
             | Some group1 => Some (strip group1)
             | None => None
             end), []).
Proof.
  intros F. unfold run, parse_markdown. rewrite F.
  destruct (search_group1 label content); reflexivity.
Qed.

(** C8, as amended.  For a label free of regular-expression characters
    and the content of an existing file: the parser returns null exactly
    when the marker of the label does not occur in the content; and when
    the line that follows the first marker holds some text, it returns
    that remainder of the line, stripped.  In particular it extracts
    "Wet Sedge Meadow" from the unit name line. *)
Theorem parse_markdown_field (fs : filesystem) (text_input label content : string) :
  plain_label label = true ->
  fs text_input = Some content ->
  (~ occurs (marker label) content
   <-> run (parse_markdown fs text_input label) = (Return None, [])) /\
  (forall text,
      line_remainder label content = Some text -> text <> "" ->
      run (parse_markdown fs text_input label) = (Return (Some text), [])) /\
  (content = "**Unit Name:** Wet Sedge Meadow" -> label = "Unit Name" ->
   run (parse_markdown fs text_input label) = (Return (Some "Wet Sedge Meadow"), [])).
Proof.
  intros _ F. rewrite (parse_markdown_present fs text_input label content F).
  unfold search_group1, line_remainder.
  split; [|split].
  - rewrite <- after_first_None.
    destruct (after_first (marker label) content); split; congruence.
  - intros text. destruct (after_first (marker label) content) as [rest|];
      [|discriminate].
    intros E N. inversion E as [E']. rewrite E'.
    rewrite strip_line_after_lstrip; [rewrite E'; reflexivity|].
    rewrite E'. exact N.
  - intros C L. subst. vm_compute. reflexivity.
Qed.

Lemma parse_markdown_field_witness :
  run (parse_markdown (fun _ => Some Examples.blank_level_file)
         "29_ArcticBrownMossSedgePeatlandMinerotrophic.md" "Unit Name")
  = (Return (Some "Wet Sedge Meadow"), []).
Proof.
  apply (proj1 (proj2 (parse_markdown_field
                         (fun _ => Some Examples.blank_level_file)
                         "29_ArcticBrownMossSedgePeatlandMinerotrophic.md"
                         "Unit Name" Examples.blank_level_file
                         eq_refl eq_refl))).
  - reflexivity.
  - discriminate.
Defined.

(** The remainder of a line in the words of the description: when the
    first marker is followed by a line and a line feed, the field value
    is that line, stripped. *)
Lemma line_remainder_of_line (label before line rest : string) :
  (forall before' rest',
      before ++ marker label ++ line ++ String LF rest
      = before' ++ marker label ++ rest' ->
      (String.length before <= String.length before')%nat) ->
  one_line line = true ->
  line_remainder label (before ++ marker label ++ line ++ String LF rest)
  = Some (strip line).
Proof.
  intros L O. unfold line_remainder.
  rewrite after_first_leftmost by exact L.
  rewrite upto_newline_line by exact O. reflexivity.
Qed.

(** C8 as stated fails when a field is left blank: the line of the level
    has nothing after its marker, so that its stripped remainder is
    empty, but the parser returns the text of the next line. *)
Lemma parse_markdown_blank_field :
  plain_label "Level" = true
  /\ line_remainder "Level" Examples.blank_level_file = Some ""
  /\ run (parse_markdown (fun _ => Some Examples.blank_level_file)
            "29_ArcticBrownMossSedgePeatlandMinerotrophic.md" "Level")
     = (Return (Some "**Photos:** a.jpg, b.jpg"), []).
Proof. repeat split; vm_compute; reflexivity. Qed.

(** C9.  When the markdown file does not exist, the parser prints the
    error line and returns null without raising, whatever the label; the
    split of the null photo text then raises, which ends the statements
    that parse the text descriptions. *)
Theorem missing_file_null_then_crash (fs : filesystem) (text_input : string) :
  fs text_input = None ->
  (forall label,
      run (parse_markdown fs text_input label)
      = (Return None, ["Error: The file " ++ text_input ++ " was not found."])) /\
  run (parse_text_descriptions fs text_input)
  = (Raise AttributeError,
     ["Error: The file " ++ text_input ++ " was not found.";
      "Error: The file " ++ text_input ++ " was not found.";
      "Error: The file " ++ text_input ++ " was not found."]).
Proof.
  intros F. split.
  - intros label. unfold run, parse_markdown. rewrite F. reflexivity.
  - unfold run, parse_text_descriptions, parse_markdown, bind. rewrite F.
    reflexivity.
Qed.

Lemma missing_file_null_then_crash_witness :
  run (parse_text_descriptions (fun _ => None)
         "29_ArcticBrownMossSedgePeatlandMinerotrophic.md")
  = (Raise AttributeError,
     ["Error: The file 29_ArcticBrownMossSedgePeatlandMinerotrophic.md was not found.";
      "Error: The file 29_ArcticBrownMossSedgePeatlandMinerotrophic.md was not found.";
      "Error: The file 29_ArcticBrownMossSedgePeatlandMinerotrophic.md was not found."]).
Proof.
  exact (proj2 (missing_file_null_then_crash
                  (fun _ => None)
                  "29_ArcticBrownMossSedgePeatlandMinerotrophic.md" eq_refl)).
Defined.

End MarkdownFields.

(** ** C10: categorical environment summaries *)

Section CategoryThresholds.
Import Frame Text Run Environment.

Lemma dropna_In {A : Type} (x : A) (col : list (option A)) :
  In x (dropna col) <-> In (Some x) col.
Proof.
  induction col as [|[y|] col IH]; simpl.
  - tauto.
  - rewrite IH. split; intros [H | H]; auto; [left; congruence | inversion H; auto].
  - rewrite IH. split; [auto | intros [H | H]; [discriminate | exact H]].
Qed.

Lemma frequency_table_In {A : Type} (eqb : A -> A -> bool)
    (eqb_eq : forall a b, eqb a b = true <-> a = b)
    (x : A) (fr : Q) (data : list A) :
  In (x, fr) (frequency_table eqb data)
  <-> In x data
      /\ fr = (inject_Z (Z.of_nat (count_rows eqb x data))
               / inject_Z (Z.of_nat (List.length data))) * 100.
Proof.
  unfold frequency_table. rewrite in_map_iff. split.
  - intros [[y n] [E H]]. simpl in E. inversion E; subst.
    apply (value_counts_In eqb eqb_eq) in H. destruct H as [H C]. subst n. tauto.
  - intros [H E]. exists (x, count_rows eqb x data). simpl. split.
    + subst fr. reflexivity.
    + apply (value_counts_In eqb eqb_eq). tauto.
Qed.

Lemma relative_frequency_eq {A : Type} (eqb : A -> A -> bool) (x : A)
    (column : list (option A)) :
  (inject_Z (Z.of_nat (count_rows eqb x (dropna column)))
   / inject_Z (Z.of_nat (List.length (dropna column)))) * 100
  == relative_frequency eqb x column.
Proof. unfold relative_frequency, Qdiv. ring. Qed.

Lemma kept_categories_In {A : Type} (eqb : A -> A -> bool)
    (eqb_eq : forall a b, eqb a b = true <-> a = b)
    (threshold : Q) (x : A) (column : list (option A)) :
  In x (map fst (at_least threshold (frequency_table eqb (dropna column))))
  <-> In (Some x) column /\ threshold <= relative_frequency eqb x column.
Proof.
  rewrite in_map_iff. unfold at_least. split.
  - intros [[y fr] [E H]]. simpl in E. subst y.
    apply filter_In in H. destruct H as [H T]. simpl in T.
    apply Qle_bool_iff in T.
    apply (frequency_table_In eqb eqb_eq) in H. destruct H as [H F].
    split; [apply dropna_In; exact H|].
    rewrite <- relative_frequency_eq, <- F. exact T.
  - intros [H T].
    eexists (x, _). split; [reflexivity|].
    apply filter_In. split.
    + apply (frequency_table_In eqb eqb_eq). split; [apply dropna_In; exact H|].
      reflexivity.
    + simpl. apply Qle_bool_iff. rewrite relative_frequency_eq. exact T.
Qed.

Lemma field_list_threshold (f : text_field) (environment_data : list environment_row) :
  field_list f environment_data
  = unique String.eqb
      (map fst (at_least (field_threshold f)
                         (frequency_table String.eqb
                            (dropna (field_column f environment_data))))).
Proof. destruct f; reflexivity. Qed.

Lemma at_true_found (table : list (bool * Q)) (fr : Q) (out : list string) :
  In (true, fr) table ->
  (forall fr', In (true, fr') table -> fr' = fr) ->
  at_true table out = (Return fr, out).
Proof.
  induction table as [|[[|] g] table IH]; simpl; intros H U.
  - destruct H.
  - rewrite (U g) by (left; reflexivity). reflexivity.
  - apply IH.
    + destruct H as [H | H]; [discriminate | exact H].
    + intros fr' H'. apply U. right. exact H'.
Qed.

(** The value held for a result depends on the result only, not on the
    fraction that writes it. *)
Lemma binary64_comp (x y : Q) : x == y -> binary64 x = binary64 y.
Proof. intros E. unfold binary64. rewrite (Qred_complete x y E). reflexivity. Qed.

Lemma str_round1_comp (x y : Q) : x == y -> str_round1 x = str_round1 y.
Proof.
  intros E. unfold str_round1.
  assert (H : binary64 (x / 100) = binary64 (y / 100)).
  { apply binary64_comp. rewrite E. reflexivity. }
  rewrite H. reflexivity.
Qed.

(** C10, as amended.  For physiography, geomorphology, macrotopography,
    microtopography, moisture regime and restrictive layer type, a
    category is written to the output text if and only if its relative
    frequency among the non-null records reaches the threshold of the
    field, 10 for the first four and 20 for the last two, the text being
    the kept categories separated by a semicolon and a space.  For surface
    water the threshold of 20 is applied in the same way, and when the
    category [True] reaches it the output text is the frequency of that
    category, rounded to one decimal as its binary64 value rounds, and
    followed by a percent sign. *)
Theorem category_thresholds (environment_data : list environment_row) :
  (forall f category,
      In category (field_list f environment_data)
      <-> In (Some category) (field_column f environment_data)
          /\ field_threshold f
             <= relative_frequency String.eqb category
                  (field_column f environment_data)) /\
  (forall f,
      field_text f environment_data
      = String.concat "; " (field_list f environment_data)) /\
  (20 <= relative_frequency Bool.eqb true (map surface_water environment_data) ->
   run (surfacewater_frequency environment_data)
   = (Return (str_round1 (relative_frequency Bool.eqb true
                            (map surface_water environment_data)) ++ "%")%string,
      [])).
Proof.
  split; [|split].
  - intros f category.
    rewrite field_list_threshold, (unique_In String.eqb string_eqb_eq).
    apply (kept_categories_In String.eqb string_eqb_eq).
  - intros f. unfold field_text. apply semicolon_text_join.
  - intros T.
    set (column := map surface_water environment_data) in *.
    assert (P : In (Some true) column).
    { apply dropna_In.
      destruct (in_dec Bool.bool_dec true (dropna column)) as [H | H]; [exact H|].
      exfalso. unfold relative_frequency in T.
      assert (Z0 : count_rows Bool.eqb true (dropna column) = 0%nat).
      { unfold count_rows.
        destruct (filter (Bool.eqb true) (dropna column)) as [|b l] eqn:E;
          [reflexivity|].
        assert (I : In b (filter (Bool.eqb true) (dropna column)))
          by (rewrite E; left; reflexivity).
        apply filter_In in I. destruct I as [I Eb].
        apply (proj1 (bool_eqb_eq true b)) in Eb. subst b. contradiction. }
      rewrite Z0 in T. revert T. unfold Qdiv. simpl.
      rewrite Qmult_0_r, Qmult_0_l. intros T. apply T. reflexivity. }
    rewrite <- (str_round1_comp _ _ (relative_frequency_eq Bool.eqb true column)).
    unfold run, surfacewater_frequency, bind. fold column.
    rewrite (at_true_found _
               ((inject_Z (Z.of_nat (count_rows Bool.eqb true (dropna column)))
                 / inject_Z (Z.of_nat (List.length (dropna column)))) * 100)).
    + reflexivity.
    + apply filter_In. split.
      * apply (frequency_table_In Bool.eqb bool_eqb_eq).
        split; [apply dropna_In; exact P | reflexivity].
      * simpl. apply Qle_bool_iff. rewrite relative_frequency_eq. exact T.
    + intros fr' H. apply filter_In in H. destruct H as [H _].
      apply (frequency_table_In Bool.eqb bool_eqb_eq) in H. tauto.
Qed.

Lemma category_thresholds_witness :
  (In "wet"%string (field_list MoistureRegime Examples.survey)
   <-> In (Some "wet"%string) (field_column MoistureRegime Examples.survey)
       /\ field_threshold MoistureRegime
          <= relative_frequency String.eqb "wet"%string
               (field_column MoistureRegime Examples.survey))
  /\ run (surfacewater_frequency Examples.survey)
     = (Return (str_round1 (relative_frequency Bool.eqb true
                              (map surface_water Examples.survey)) ++ "%")%string,
        []).
Proof.
  split.
  - apply (proj1 (category_thresholds Examples.survey) MoistureRegime "wet"%string).
  - apply (proj2 (proj2 (category_thresholds Examples.survey))).
    vm_compute. discriminate.
Defined.

(** C10 as stated fails for surface water: in three records of which two
    have no surface water, the category [False] has a relative frequency
    of two thirds and passes the threshold of 20, yet the output text is
    the frequency of [True] and names no category. *)
Lemma surface_water_text_is_a_frequency :
  relative_frequency Bool.eqb false (map surface_water Examples.survey) == 200 # 3
  /\ 20 <= relative_frequency Bool.eqb false (map surface_water Examples.survey)
  /\ run (surfacewater_frequency Examples.survey) = (Return "33.3%"%string, []).
Proof. repeat split; vm_compute; congruence. Qed.

(** The text follows the binary64 value of the frequency: for 23 records
    with surface water out of 80 the frequency is 28.75, the value held
    is just below it and the text is 28.7, where 28.75 itself would round
    half to even to 28.8. *)
Lemma surface_water_text_of_binary64 :
  relative_frequency Bool.eqb true
    (map surface_water (repeat Examples.wet_record 23 ++ repeat Examples.dry_record 57))
  == 28.75
  /\ run (surfacewater_frequency
            (repeat Examples.wet_record 23 ++ repeat Examples.dry_record 57))
     = (Return "28.7%"%string, [])
  /\ round1 28.75 == 28.8.
Proof. repeat split; vm_compute; reflexivity. Qed.

(** When the category [True] stays below the threshold, the lookup of its
    row raises and no text is produced. *)
Lemma surface_water_rare_raises :
  run (surfacewater_frequency
         [Examples.dry_record; Examples.dry_record; Examples.dry_record; Examples.dry_record; Examples.dry_record; Examples.wet_record])
  = (Raise KeyError, []).
Proof. vm_compute. reflexivity. Qed.

End CategoryThresholds.

(** ** Categorical summaries: order, size and the surface water lookup *)

Section CountingFacts.
Import Frame.

Context {A : Type} (eqb : A -> A -> bool).
Hypothesis eqb_eq : forall a b, eqb a b = true <-> a = b.

Lemma eqb_same (a : A) : eqb a a = true.
Proof. apply eqb_eq. reflexivity. Qed.

Lemma eqb_differ (a b : A) : a <> b -> eqb a b = false.
Proof.
  intros N. destruct (eqb a b) eqn:E; [|reflexivity].
  apply eqb_eq in E. contradiction.
Qed.

Lemma unique_from_fixed (col seen : list A) :
  NoDup col -> (forall x, In x col -> ~ In x seen) ->
  unique_from eqb seen col = col.
Proof.
  revert seen. induction col as [|y col IH]; intros seen ND D; simpl; [reflexivity|].
  inversion ND as [|? ? Ny ND']; subst.
  destruct (existsb (eqb y) seen) eqn:E.
  - apply (existsb_eqb eqb eqb_eq) in E. exfalso.
    apply (D y); [left; reflexivity | exact E].
  - f_equal. apply IH; [exact ND'|].
    intros x Hx [F | F]; [subst; contradiction|].
    apply (D x); [right; exact Hx | exact F].
Qed.

Lemma unique_fixed (col : list A) : NoDup col -> unique eqb col = col.
Proof. intros ND. apply unique_from_fixed; [exact ND | intros x _ []]. Qed.

Lemma unique_NoDup (col : list A) : NoDup (unique eqb col).
Proof. apply (unique_from_NoDup eqb eqb_eq). Qed.

(** The rows counted for the values of a duplicate-free list are distinct
    rows of the column. *)
Lemma counts_within_length (keys data : list A) :
  NoDup keys ->
  (list_sum (map (fun x => count_rows eqb x data) keys) <= List.length data)%nat.
Proof.
  intros ND. induction data as [|y data IH]; simpl.
  - induction keys as [|k keys IHk]; simpl; [lia|].
    inversion ND; subst. unfold count_rows at 1. simpl. apply IHk. assumption.
  - assert (S1 : (list_sum (map (fun x => count_rows eqb x (y :: data)) keys)
                  <= 1 + list_sum (map (fun x => count_rows eqb x data) keys))%nat).
    { clear IH. induction keys as [|k keys IHk]; simpl; [lia|].
      inversion ND as [|? ? Nk ND']; subst. specialize (IHk ND').
      unfold count_rows at 1 3. simpl.
      destruct (eqb k y) eqn:E; simpl.
      - apply eqb_eq in E. subst y.
        assert (Z0 : list_sum (map (fun x => count_rows eqb x (k :: data)) keys)
                     = list_sum (map (fun x => count_rows eqb x data) keys)).
        { f_equal. apply map_ext_in. intros x Hx. unfold count_rows. simpl.
          rewrite eqb_differ; [reflexivity|]. intros F. subst. contradiction. }
        rewrite Z0. unfold count_rows. lia.
      - unfold count_rows in *. lia. }
    lia.
Qed.

Lemma insert_by_count_sorted (e : A * nat) (l : list (A * nat)) :
  StronglySorted (fun a b => (snd b <= snd a)%nat) l ->
  StronglySorted (fun a b => (snd b <= snd a)%nat) (insert_by_count e l).
Proof.
  induction l as [|f l IH]; simpl; intros S.
  - constructor; constructor.
  - destruct (snd f <=? snd e)%nat eqn:E.
    + apply Nat.leb_le in E. constructor; [exact S|].
      constructor; [exact E|].
      inversion S as [|? ? _ F]; subst.
      eapply Forall_impl; [|exact F]. intros g Hg. simpl in Hg. lia.
    + apply Nat.leb_gt in E.
      inversion S as [|? ? S' F]; subst.
      constructor; [apply IH; exact S'|].
      apply Forall_forall. intros g Hg.
      apply insert_by_count_In in Hg. destruct Hg as [Hg | Hg].
      * subst g. lia.
      * rewrite Forall_forall in F. apply F. exact Hg.
Qed.

Lemma value_counts_sorted (col : list A) :
  StronglySorted (fun a b => (snd b <= snd a)%nat) (value_counts eqb col).
Proof.
  unfold value_counts.
  induction (map (fun x => (x, count_rows eqb x col)) (unique eqb col)) as [|e l IH];
    simpl; [constructor|].
  apply insert_by_count_sorted. exact IH.
Qed.

Lemma insert_by_count_perm (e : A * nat) (l : list (A * nat)) :
  Permutation (e :: l) (insert_by_count e l).
Proof.
  induction l as [|f l IH]; simpl; [apply Permutation_refl|].
  destruct (snd f <=? snd e)%nat; [apply Permutation_refl|].
  apply perm_trans with (f :: e :: l); [apply perm_swap|].
  apply perm_skip. exact IH.
Qed.

Lemma value_counts_keys_NoDup (col : list A) :
  NoDup (map fst (value_counts eqb col)).
Proof.
  unfold value_counts.
  assert (P : Permutation
                (map (fun x => (x, count_rows eqb x col)) (unique eqb col))
                (fold_right insert_by_count []
                   (map (fun x => (x, count_rows eqb x col)) (unique eqb col)))).
  { induction (map (fun x => (x, count_rows eqb x col)) (unique eqb col))
      as [|e l IH]; simpl; [apply perm_nil|].
    apply perm_trans with (e :: fold_right insert_by_count [] l).
    - apply perm_skip. exact IH.
    - apply insert_by_count_perm. }
  eapply Permutation_NoDup; [apply Permutation_map; exact P|].
  rewrite map_map. simpl. rewrite map_id. apply unique_NoDup.
Qed.

End CountingFacts.

Section SortedFacts.

Context {A B : Type}.

Lemma StronglySorted_filter_keep (R : A -> A -> Prop) (p : A -> bool) (l : list A) :
  StronglySorted R l -> StronglySorted R (filter p l).
Proof.
  induction 1 as [|a l S IH F]; simpl; [constructor|].
  destruct (p a); [|exact IH].
  constructor; [exact IH|].
  rewrite Forall_forall in *. intros x Hx. apply filter_In in Hx. apply F. tauto.
Qed.

Lemma StronglySorted_map_within (R : A -> A -> Prop) (R' : B -> B -> Prop)
    (f : A -> B) (l : list A) :
  (forall a b, In a l -> In b l -> R a b -> R' (f a) (f b)) ->
  StronglySorted R l -> StronglySorted R' (map f l).
Proof.
  intros M S. induction S as [|a l S IH F]; simpl; [constructor|].
  constructor.
  - apply IH. intros x y Hx Hy. apply M; right; assumption.
  - rewrite Forall_forall in *. intros y Hy. apply in_map_iff in Hy.
    destruct Hy as [x [E Hx]]. subst y.
    apply M; [left; reflexivity | right; exact Hx | apply F; exact Hx].
Qed.

Lemma distinct_keys_filtered (key : A -> B) (keep : A -> bool) (rows : list A)
  (ND : NoDup (map key rows)) : NoDup (map key (filter keep rows)).
Proof.
  induction rows as [|r rows IH]; simpl in *; [constructor|].
  inversion ND as [|? ? Nr ND']; subst.
  destruct (keep r); simpl; [|apply IH; exact ND'].
  constructor; [|apply IH; exact ND'].
  intros H. apply Nr. apply in_map_iff in H. destruct H as [x [E Hx]].
  apply in_map_iff. exists x. apply filter_In in Hx. tauto.
Qed.

End SortedFacts.

Section KeptCategories.
Import Frame Text Run Environment Shares.

Context {A : Type} (eqb : A -> A -> bool).
Hypothesis eqb_eq : forall a b, eqb a b = true <-> a = b.

Lemma at_least_as_filter (threshold : Q) (data : list A) :
  at_least threshold (frequency_table eqb data)
  = map (fun e => (fst e, share (List.length data) (snd e)))
        (filter (fun e => Qle_bool threshold (share (List.length data) (snd e)))
                (value_counts eqb data)).
Proof.
  unfold at_least, frequency_table.
  induction (value_counts eqb data) as [|e l IH]; simpl; [reflexivity|].
  fold (share (List.length data) (snd e)).
  destruct (Qle_bool threshold (share (List.length data) (snd e))); simpl;
    rewrite IH; reflexivity.
Qed.

Lemma kept_keys (threshold : Q) (data : list A) :
  map fst (at_least threshold (frequency_table eqb data))
  = map fst (filter (fun e => Qle_bool threshold (share (List.length data) (snd e)))
                    (value_counts eqb data)).
Proof. rewrite at_least_as_filter, map_map. reflexivity. Qed.

Lemma kept_keys_NoDup (threshold : Q) (data : list A) :
  NoDup (map fst (at_least threshold (frequency_table eqb data))).
Proof.
  rewrite kept_keys. apply distinct_keys_filtered.
  apply (value_counts_keys_NoDup eqb eqb_eq).
Qed.

Lemma share_le (n c d : nat) : (c <= d)%nat -> share n c <= share n d.
Proof.
  intros L. unfold share. apply Qmult_le_compat_r; [|discriminate].
  unfold Qdiv. apply Qmult_le_compat_r.
  - rewrite <- Zle_Qle. lia.
  - destruct n as [|n]; [discriminate|].
    apply Qlt_le_weak, Qinv_lt_0_compat.
    change 0 with (inject_Z 0). rewrite <- Zlt_Qlt. lia.
Qed.

Lemma kept_keys_sorted (threshold : Q) (column : list (option A)) :
  StronglySorted
    (fun a b => relative_frequency eqb b column <= relative_frequency eqb a column)
    (map fst (at_least threshold (frequency_table eqb (dropna column)))).
Proof.
  rewrite kept_keys.
  apply (StronglySorted_map_within (fun a b => (snd b <= snd a)%nat)).
  - intros a b Ha Hb L.
    apply filter_In in Ha. destruct Ha as [Ha _].
    apply filter_In in Hb. destruct Hb as [Hb _].
    destruct a as [x c]. destruct b as [y d].
    apply (value_counts_In eqb eqb_eq) in Ha. apply (value_counts_In eqb eqb_eq) in Hb.
    destruct Ha as [_ Ec]. destruct Hb as [_ Ed]. simpl in *. subst c d.
    rewrite <- !relative_frequency_eq. apply share_le. exact L.
  - apply StronglySorted_filter_keep. apply (value_counts_sorted eqb).
Qed.

Lemma share_threshold (t : Z) (n c : nat) :
  (0 < n)%nat -> inject_Z t <= share n c -> (t * Z.of_nat n <= 100 * Z.of_nat c)%Z.
Proof.
  intros P H. unfold share in H.
  assert (Pn : 0 < inject_Z (Z.of_nat n)).
  { change 0 with (inject_Z 0). rewrite <- Zlt_Qlt. lia. }
  apply (Qmult_le_compat_r _ _ (inject_Z (Z.of_nat n))) in H;
    [|apply Qlt_le_weak; exact Pn].
  assert (E : inject_Z (Z.of_nat c) / inject_Z (Z.of_nat n) * 100
              * inject_Z (Z.of_nat n)
              == inject_Z 100 * inject_Z (Z.of_nat c)).
  { change (inject_Z 100) with 100. field.
    intros F. rewrite F in Pn. apply (Qlt_irrefl 0). exact Pn. }
  rewrite E, <- !inject_Z_mult in H. rewrite Zle_Qle. exact H.
Qed.

Lemma kept_keys_bounded (t : Z) (data : list A) :
  (0 < t)%Z ->
  (Z.of_nat (List.length
               (map fst (at_least (inject_Z t) (frequency_table eqb data)))) * t
   <= 100)%Z.
Proof.
  intros Pt. rewrite kept_keys.
  set (kept := filter (fun e => Qle_bool (inject_Z t)
                                         (share (List.length data) (snd e)))
                      (value_counts eqb data)).
  assert (ND : NoDup (map fst kept)).
  { apply distinct_keys_filtered. apply (value_counts_keys_NoDup eqb eqb_eq). }
  assert (C : forall e, In e kept ->
                        In (fst e) data /\ snd e = count_rows eqb (fst e) data
                        /\ inject_Z t <= share (List.length data) (snd e)).
  { intros [x c] H. apply filter_In in H. destruct H as [H T].
    apply (value_counts_In eqb eqb_eq) in H. simpl in *.
    apply Qle_bool_iff in T. tauto. }
  destruct kept as [|e0 kept0] eqn:K; [simpl; lia|].
  rewrite <- K in *.
  assert (Pn : (0 < List.length data)%nat).
  { destruct (C e0) as [I _]; [rewrite K; left; reflexivity|].
    destruct data; [destruct I | simpl; lia]. }
  assert (S : (Z.of_nat (List.length (map fst kept)) * (t * Z.of_nat (List.length data))
               <= 100 * Z.of_nat (list_sum (map (fun x => count_rows eqb x data)
                                                (map fst kept))))%Z).
  { clear K ND. induction kept as [|e l IH]; simpl map; simpl List.length; [simpl; lia|].
    assert (IH' := IH (fun e' H => C e' (or_intror H))).
    destruct (C e (or_introl eq_refl)) as [_ [Ec T]].
    apply (share_threshold t _ _ Pn) in T. rewrite Ec in T.
    simpl list_sum. rewrite Nat2Z.inj_succ, Nat2Z.inj_add. lia. }
  assert (B := counts_within_length eqb eqb_eq (map fst kept) data ND).
  apply Nat2Z.inj_le in B.
  assert (Pz : (0 < Z.of_nat (List.length data))%Z) by lia.
  nia.
Qed.

End KeptCategories.

Section FieldLists.
Import Frame Text Run Environment.

Lemma field_list_kept (f : text_field) (environment_data : list environment_row) :
  field_list f environment_data
  = map fst (at_least (field_threshold f)
                      (frequency_table String.eqb
                         (dropna (field_column f environment_data)))).
Proof.
  rewrite field_list_threshold.
  apply (unique_fixed String.eqb string_eqb_eq).
  apply (kept_keys_NoDup String.eqb string_eqb_eq).
Qed.

(** X1.  No category is written twice in a field, and a field lists at
    most ten categories under the threshold of 10 and at most five under
    the threshold of 20: the number of categories times the threshold
    never exceeds 100. *)
Theorem field_list_distinct_and_bounded (f : text_field)
    (environment_data : list environment_row) :
  NoDup (field_list f environment_data) /\
  inject_Z (Z.of_nat (List.length (field_list f environment_data)))
  * field_threshold f <= 100.
Proof.
  rewrite field_list_kept. split.
  - apply (kept_keys_NoDup String.eqb string_eqb_eq).
  - destruct f; simpl field_threshold;
      try (change 10 with (inject_Z 10)); try (change 20 with (inject_Z 20));
      change 100 with (inject_Z 100);
      rewrite <- inject_Z_mult, <- Zle_Qle;
      apply (kept_keys_bounded String.eqb string_eqb_eq); lia.
Qed.

(** X2.  The categories of a field are written by decreasing relative
    frequency: a category never comes before a more frequent one. *)
Theorem field_list_by_decreasing_frequency (f : text_field)
    (environment_data : list environment_row) :
  StronglySorted
    (fun earlier later =>
       relative_frequency String.eqb later (field_column f environment_data)
       <= relative_frequency String.eqb earlier (field_column f environment_data))
    (field_list f environment_data) /\
  field_text f environment_data
  = String.concat "; " (field_list f environment_data).
Proof.
  split.
  - rewrite field_list_kept.
    apply (kept_keys_sorted String.eqb string_eqb_eq).
  - apply semicolon_text_join.
Qed.

Lemma present_when_reaching {A : Type} (eqb : A -> A -> bool)
    (eqb_eq : forall a b, eqb a b = true <-> a = b)
    (threshold : Q) (x : A) (column : list (option A)) :
  0 < threshold -> threshold <= relative_frequency eqb x column ->
  In x (dropna column).
Proof.
  intros P T.
  destruct (count_rows eqb x (dropna column)) as [|c] eqn:C.
  - exfalso. unfold relative_frequency in T. rewrite C in T.
    apply (Qlt_irrefl 0). eapply Qlt_le_trans; [exact P|].
    eapply Qle_trans; [exact T|]. unfold Qdiv. simpl.
    rewrite Qmult_0_r, Qmult_0_l. apply Qle_refl.
  - unfold count_rows in C.
    destruct (filter (eqb x) (dropna column)) as [|y l] eqn:E; [discriminate|].
    assert (I : In y (filter (eqb x) (dropna column))) by (rewrite E; left; reflexivity).
    apply filter_In in I. destruct I as [I Ey]. apply eqb_eq in Ey. subst y. exact I.
Qed.

Lemma at_true_absent (table : list (bool * Q)) (out : list string) :
  (forall fr, ~ In (true, fr) table) -> at_true table out = (Raise KeyError, out).
Proof.
  induction table as [|[[|] g] table IH]; simpl; intros N.
  - reflexivity.
  - exfalso. apply (N g). left. reflexivity.
  - apply IH. intros fr H. apply (N fr). right. exact H.
Qed.

(** X3.  The surface water statement raises [KeyError] exactly when the
    relative frequency of [True] among the non-null records is below 20;
    in particular it raises when every record is null.  Otherwise it
    returns a text, so these are the only two outcomes, and nothing is
    printed. *)
Theorem surface_water_lookup_outcomes (environment_data : list environment_row) :
  (run (surfacewater_frequency environment_data) = (Raise KeyError, [])
   <-> ~ 20 <= relative_frequency Bool.eqb true
                 (map surface_water environment_data)) /\
  ((forall r, In r environment_data -> surface_water r = None) ->
   run (surfacewater_frequency environment_data) = (Raise KeyError, [])) /\
  ((exists text, run (surfacewater_frequency environment_data) = (Return text, []))
   \/ run (surfacewater_frequency environment_data) = (Raise KeyError, [])).
Proof.
  set (column := map surface_water environment_data).
  assert (Below : ~ 20 <= relative_frequency Bool.eqb true column ->
                  run (surfacewater_frequency environment_data) = (Raise KeyError, [])).
  { intros N. unfold run, surfacewater_frequency, bind. fold column.
    rewrite at_true_absent; [reflexivity|].
    intros fr H. apply N. apply filter_In in H. destruct H as [H T].
    apply (frequency_table_In Bool.eqb bool_eqb_eq) in H. destruct H as [_ E].
    simpl in T. apply Qle_bool_iff in T.
    rewrite <- relative_frequency_eq, <- E. exact T. }
  assert (Reach : 20 <= relative_frequency Bool.eqb true column ->
                  exists text,
                    run (surfacewater_frequency environment_data) = (Return text, [])).
  { intros T. unfold run, surfacewater_frequency, bind. fold column.
    eexists.
    rewrite (at_true_found _
               ((inject_Z (Z.of_nat (count_rows Bool.eqb true (dropna column)))
                 / inject_Z (Z.of_nat (List.length (dropna column)))) * 100)).
    - reflexivity.
    - apply filter_In. split.
      + apply (frequency_table_In Bool.eqb bool_eqb_eq). split; [|reflexivity].
        apply (present_when_reaching Bool.eqb bool_eqb_eq 20); [reflexivity | exact T].
      + simpl. apply Qle_bool_iff. rewrite relative_frequency_eq. exact T.
    - intros fr' H. apply filter_In in H. destruct H as [H _].
      apply (frequency_table_In Bool.eqb bool_eqb_eq) in H. tauto. }
  split; [|split].
  - split; [|exact Below].
    intros R T. destruct (Reach T) as [text E]. rewrite E in R. discriminate.
  - intros AllNull. apply Below. intros T.
    apply (present_when_reaching Bool.eqb bool_eqb_eq 20) in T; [|reflexivity].
    apply dropna_In in T. unfold column in T. apply in_map_iff in T.
    destruct T as [r [E I]]. rewrite (AllNull r I) in E. discriminate.
  - destruct (Qlt_le_dec (relative_frequency Bool.eqb true column) 20) as [L | T].
    + right. apply Below. apply Qlt_not_le. exact L.
    + left. apply Reach. exact T.
Qed.

End FieldLists.

(** ** Rounding to one decimal *)

Section RoundingFacts.
Import Frame.

Lemma rint_cases (n : Z) (d : positive) :
  let lo := (n / Zpos d)%Z in
  let r := (n mod Zpos d)%Z in
  (n = Zpos d * lo + r)%Z /\ (0 <= r < Zpos d)%Z /\
  ((2 * r < Zpos d)%Z /\ rint (n # d) = lo
   \/ (2 * r > Zpos d)%Z /\ rint (n # d) = (lo + 1)%Z
   \/ (2 * r = Zpos d)%Z /\ rint (n # d) = (if Z.even lo then lo else lo + 1)%Z).
Proof.
  intros lo r. split; [apply Z.div_mod; discriminate|].
  split; [apply Z.mod_pos_bound; reflexivity|].
  unfold rint. simpl Qnum. simpl Qden. fold lo r.
  destruct (Z.compare_spec (2 * r) (Zpos d)) as [E | L | G].
  - right. right. split; [exact E | reflexivity].
  - left. split; [exact L | reflexivity].
  - right. left. split; [lia | reflexivity].
Qed.

Lemma rint_upper (x : Q) : inject_Z (rint x) <= x + (1 # 2).
Proof.
  destruct x as [n d].
  destruct (rint_cases n d) as [E [B C]].
  unfold Qle, Qplus, inject_Z. simpl.
  destruct C as [[L R] | [[G R] | [T R]]]; rewrite R.
  - nia.
  - nia.
  - destruct (Z.even (n / Zpos d)); nia.
Qed.

Lemma rint_lower (x : Q) : x - (1 # 2) <= inject_Z (rint x).
Proof.
  destruct x as [n d].
  destruct (rint_cases n d) as [E [B C]].
  unfold Qle, Qminus, Qplus, Qopp, inject_Z. simpl.
  destruct C as [[L R] | [[G R] | [T R]]]; rewrite R.
  - nia.
  - nia.
  - destruct (Z.even (n / Zpos d)); nia.
Qed.

Lemma rint_comp (x y : Q) : x == y -> rint x = rint y.
Proof.
  intros E. assert (F : Qfloor x = Qfloor y) by (apply Qfloor_comp; exact E).
  destruct x as [n d]. destruct y as [m e].
  unfold Qeq in E. simpl in E. unfold Qfloor in F.
  destruct (rint_cases n d) as [En [Bn Cn]].
  destruct (rint_cases m e) as [Em [Bm Cm]].
  rewrite <- F in *.
  destruct Cn as [[Ln Rn] | [[Gn Rn] | [Tn Rn]]];
    destruct Cm as [[Lm Rm] | [[Gm Rm] | [Tm Rm]]];
    rewrite Rn, Rm; try reflexivity; exfalso; nia.
Qed.

Lemma rint_monotone (x y : Q) : x <= y -> (rint x <= rint y)%Z.
Proof.
  intros L. destruct (Z_le_gt_dec (rint x) (rint y)) as [H | H]; [exact H|].
  exfalso.
  assert (U := rint_upper x). assert (W := rint_lower y).
  assert (S : inject_Z (rint y) + 1 <= inject_Z (rint x)).
  { change 1 with (inject_Z 1). rewrite <- inject_Z_plus, <- Zle_Qle. lia. }
  assert (E : x == y) by lra.
  apply rint_comp in E. lia.
Qed.

Lemma rint_integer (z : Z) : rint (inject_Z z) = z.
Proof.
  unfold rint, inject_Z. simpl.
  rewrite Z.div_1_r, Z.mod_1_r. reflexivity.
Qed.

Lemma round1_comp (x y : Q) : x == y -> round1 x == round1 y.
Proof.
  intros E. unfold round1.
  rewrite (rint_comp (x * 10) (y * 10)); [reflexivity|].
  rewrite E. reflexivity.
Qed.

Lemma round1_monotone (x y : Q) : x <= y -> round1 x <= round1 y.
Proof.
  intros L. unfold round1, Qdiv. apply Qmult_le_compat_r; [|discriminate].
  rewrite <- Zle_Qle. apply rint_monotone.
  apply Qmult_le_compat_r; [exact L | discriminate].
Qed.

Lemma round1_close (x : Q) : Qabs (round1 x - x) <= (1 # 20).
Proof.
  apply Qabs_Qle_condition. unfold round1.
  assert (U := rint_upper (x * 10)). assert (W := rint_lower (x * 10)).
  unfold Qdiv. change (/ 10) with (1 # 10). split; lra.
Qed.

Lemma round1_nonpositive (x : Q) : x <= 0 -> round1 x <= 0.
Proof.
  intros L. apply round1_monotone in L.
  eapply Qle_trans; [exact L|]. vm_compute. discriminate.
Qed.

Lemma round1_idempotent (x : Q) : round1 (round1 x) == round1 x.
Proof.
  unfold round1 at 1.
  assert (E : round1 x * 10 == inject_Z (rint (x * 10))).
  { unfold round1. field. }
  rewrite (rint_comp _ _ E), rint_integer. reflexivity.
Qed.

End RoundingFacts.

(** ** Order of the percentiles *)

Section PercentileOrder.
Import Frame Percentiles.

Lemma sorted_nth_le (s : list Q) (i j : nat) (d d' : Q) :
  StronglySorted Qle s -> (i <= j)%nat -> (j < List.length s)%nat ->
  nth i s d <= nth j s d'.
Proof.
  intros S. revert i j. induction S as [|a l S IH F]; intros i j L B; simpl in B; [lia|].
  destruct i as [|i]; destruct j as [|j]; simpl; try lia.
  - apply Qle_refl.
  - rewrite Forall_forall in F. apply F. apply nth_In. lia.
  - apply IH; lia.
Qed.

(** The interpolated value at the fractional rank [h]. *)
Lemma interpolate_at (q : Q) (s : list Q) :
  interpolate q s
  = let h := inject_Z (Z.of_nat (List.length s) - 1) * q in
    let at_k := nth (Z.to_nat (Qfloor h)) s (hd 0 s) in
    at_k + (h - inject_Z (Qfloor h))
           * (nth (Z.to_nat (Qfloor h + 1)) s at_k - at_k).
Proof. reflexivity. Qed.

Lemma rank_bounds (q : Q) (s : list Q) :
  s <> [] -> 0 <= q -> q <= 1 ->
  let h := inject_Z (Z.of_nat (List.length s) - 1) * q in
  0 <= h /\ h <= inject_Z (Z.of_nat (List.length s) - 1)
  /\ (0 <= Qfloor h)%Z /\ (Z.to_nat (Qfloor h) < List.length s)%nat.
Proof.
  intros N Q0 Q1 h.
  assert (P : 0 <= inject_Z (Z.of_nat (List.length s) - 1)).
  { change 0 with (inject_Z 0). rewrite <- Zle_Qle.
    destruct s; [contradiction | simpl List.length; lia]. }
  assert (H0 : 0 <= h) by (unfold h; apply Qmult_le_0_compat; assumption).
  assert (H1 : h <= inject_Z (Z.of_nat (List.length s) - 1)).
  { unfold h. rewrite <- (Qmult_1_r (inject_Z (Z.of_nat (List.length s) - 1))) at 2.
    rewrite !(Qmult_comm (inject_Z (Z.of_nat (List.length s) - 1))).
    apply Qmult_le_compat_r; assumption. }
  assert (F0 : (0 <= Qfloor h)%Z).
  { change 0%Z with (Qfloor 0). apply Qfloor_resp_le. exact H0. }
  assert (F1 : (Qfloor h <= Z.of_nat (List.length s) - 1)%Z).
  { rewrite <- (Qfloor_Z (Z.of_nat (List.length s) - 1)).
    apply Qfloor_resp_le. exact H1. }
  repeat split; try assumption. lia.
Qed.

Lemma step_nonnegative (s : list Q) (k : Z) :
  StronglySorted Qle s -> (0 <= k)%Z -> (Z.to_nat k < List.length s)%nat ->
  nth (Z.to_nat k) s (hd 0 s)
  <= nth (Z.to_nat (k + 1)) s (nth (Z.to_nat k) s (hd 0 s)).
Proof.
  intros S K B.
  destruct (Nat.lt_ge_cases (Z.to_nat (k + 1)) (List.length s)) as [I | O].
  - apply sorted_nth_le; [exact S | lia | exact I].
  - rewrite (nth_overflow s _ O). apply Qle_refl.
Qed.

Lemma interpolate_between (q : Q) (s : list Q) :
  StronglySorted Qle s -> s <> [] -> 0 <= q -> q <= 1 ->
  let h := inject_Z (Z.of_nat (List.length s) - 1) * q in
  let at_k := nth (Z.to_nat (Qfloor h)) s (hd 0 s) in
  at_k <= interpolate q s
  /\ interpolate q s <= nth (Z.to_nat (Qfloor h + 1)) s at_k.
Proof.
  intros S N Q0 Q1 h at_k.
  destruct (rank_bounds q s N Q0 Q1) as [H0 [H1 [F0 B]]]. fold h in H0, H1, F0, B.
  assert (St := step_nonnegative s (Qfloor h) S F0 B). fold at_k in St.
  assert (Fl := Qfloor_le h). assert (Fu := Qlt_floor h).
  rewrite inject_Z_plus in Fu. change (inject_Z 1) with 1 in Fu.
  rewrite interpolate_at. cbv zeta. fold h. fold at_k.
  set (next := nth (Z.to_nat (Qfloor h + 1)) s at_k) in *.
  set (f := h - inject_Z (Qfloor h)).
  assert (Ff : 0 <= f) by (unfold f; lra).
  assert (Fg : f <= 1) by (unfold f; lra).
  assert (D : 0 <= next - at_k) by lra.
  clearbody f next at_k.
  split.
  - assert (M : 0 <= f * (next - at_k)) by (apply Qmult_le_0_compat; assumption).
    lra.
  - assert (M : f * (next - at_k) <= 1 * (next - at_k))
      by (apply Qmult_le_compat_r; assumption).
    lra.
Qed.

Lemma interpolate_monotone (p q : Q) (s : list Q) :
  StronglySorted Qle s -> s <> [] -> 0 <= p -> p <= q -> q <= 1 ->
  interpolate p s <= interpolate q s.
Proof.
  intros S N P0 PQ Q1.
  assert (P1 : p <= 1) by lra. assert (Q0 : 0 <= q) by lra.
  set (n1 := inject_Z (Z.of_nat (List.length s) - 1)).
  assert (Pn : 0 <= n1).
  { unfold n1. change 0 with (inject_Z 0). rewrite <- Zle_Qle.
    destruct s; [contradiction | simpl List.length; lia]. }
  assert (HL : n1 * p <= n1 * q).
  { rewrite !(Qmult_comm n1). apply Qmult_le_compat_r; assumption. }
  destruct (rank_bounds p s N P0 P1) as [_ [_ [Fp Bp]]].
  destruct (rank_bounds q s N Q0 Q1) as [_ [_ [Fq Bq]]].
  fold n1 in Fp, Bp, Fq, Bq.
  assert (FL : (Qfloor (n1 * p) <= Qfloor (n1 * q))%Z)
    by (apply Qfloor_resp_le; exact HL).
  destruct (interpolate_between p s S N P0 P1) as [_ Up].
  destruct (interpolate_between q s S N Q0 Q1) as [Lq _].
  fold n1 in Up, Lq.
  destruct (Z.eq_dec (Qfloor (n1 * p)) (Qfloor (n1 * q))) as [E | D].
  - rewrite !interpolate_at. fold n1. cbv zeta. rewrite E.
    set (at_k := nth (Z.to_nat (Qfloor (n1 * q))) s (hd 0 s)).
    set (next := nth (Z.to_nat (Qfloor (n1 * q) + 1)) s at_k).
    assert (St : at_k <= next) by (apply step_nonnegative; assumption).
    assert (M : (n1 * p - inject_Z (Qfloor (n1 * q))) * (next - at_k)
                <= (n1 * q - inject_Z (Qfloor (n1 * q))) * (next - at_k)).
    { apply Qmult_le_compat_r; lra. }
    clearbody at_k next n1. lra.
  - eapply Qle_trans; [exact Up|]. eapply Qle_trans; [|exact Lq].
    rewrite (nth_indep s _ (hd 0 s)) by lia.
    apply sorted_nth_le; [exact S | lia | exact Bq].
Qed.

Lemma interpolate_within (q : Q) (s : list Q) :
  StronglySorted Qle s -> s <> [] -> 0 <= q -> q <= 1 ->
  (exists low, In low s /\ low <= interpolate q s)
  /\ (exists high, In high s /\ interpolate q s <= high).
Proof.
  intros S N Q0 Q1.
  destruct (rank_bounds q s N Q0 Q1) as [_ [_ [F0 B]]].
  destruct (interpolate_between q s S N Q0 Q1) as [L U].
  split.
  - eexists. split; [|exact L]. apply nth_In. exact B.
  - eexists. split; [|exact U].
    destruct (Nat.lt_ge_cases
                (Z.to_nat (Qfloor (inject_Z (Z.of_nat (List.length s) - 1) * q) + 1))
                (List.length s)) as [I | O].
    + apply nth_In. exact I.
    + rewrite (nth_overflow s _ O). apply nth_In. exact B.
Qed.

End PercentileOrder.

Section PercentileRanges.
Import Frame Percentiles.

(** X4.  On a non-empty column the four percentiles exist and are in
    order, the 10th is not below the smallest value and the 90th not above
    the largest; after the rounding to one decimal the widths of the two
    range bars, 90th minus 10th and 75th minus 25th, are never negative. *)
Theorem percentiles_ordered (x : list Q) :
  x <> [] ->
  exists p10 p25 p75 p90,
    percentile_10 x = Some p10 /\ percentile_25 x = Some p25 /\
    percentile_75 x = Some p75 /\ percentile_90 x = Some p90 /\
    p10 <= p25 /\ p25 <= p75 /\ p75 <= p90 /\
    (exists low, In low x /\ low <= p10) /\
    (exists high, In high x /\ p90 <= high) /\
    0 <= round1 p90 - round1 p10 /\
    0 <= round1 p75 - round1 p25.
Proof.
  intros N.
  assert (S := sort_values_sorted x).
  assert (N' := sort_values_nonempty x N).
  exists (interpolate 0.10 (sort_values x)), (interpolate 0.25 (sort_values x)),
    (interpolate 0.75 (sort_values x)), (interpolate 0.90 (sort_values x)).
  unfold percentile_10, percentile_25, percentile_75, percentile_90.
  rewrite !quantile_sorted by exact N.
  assert (A : interpolate 0.10 (sort_values x) <= interpolate 0.25 (sort_values x))
    by (apply interpolate_monotone; try assumption; discriminate).
  assert (B : interpolate 0.25 (sort_values x) <= interpolate 0.75 (sort_values x))
    by (apply interpolate_monotone; try assumption; discriminate).
  assert (C : interpolate 0.75 (sort_values x) <= interpolate 0.90 (sort_values x))
    by (apply interpolate_monotone; try assumption; discriminate).
  repeat (split; [reflexivity|]).
  repeat (split; [assumption|]).
  split; [|split; [|split]].
  - destruct (interpolate_within 0.10 (sort_values x) S N') as [[low [I L]] _];
      try discriminate.
    exists low. split; [|exact L].
    eapply Permutation_in; [apply Permutation_sym, sort_values_perm | exact I].
  - destruct (interpolate_within 0.90 (sort_values x) S N') as [_ [high [I L]]];
      try discriminate.
    exists high. split; [|exact L].
    eapply Permutation_in; [apply Permutation_sym, sort_values_perm | exact I].
  - assert (R : round1 (interpolate 0.10 (sort_values x))
                <= round1 (interpolate 0.90 (sort_values x))).
    { apply round1_monotone. lra. }
    lra.
  - assert (R : round1 (interpolate 0.25 (sort_values x))
                <= round1 (interpolate 0.75 (sort_values x))).
    { apply round1_monotone. exact B. }
    lra.
Qed.

Lemma percentiles_ordered_witness :
  exists p10 p25 p75 p90,
    percentile_10 [40; 0; 5] = Some p10 /\ percentile_25 [40; 0; 5] = Some p25 /\
    percentile_75 [40; 0; 5] = Some p75 /\ percentile_90 [40; 0; 5] = Some p90 /\
    p10 <= p25 /\ p25 <= p75 /\ p75 <= p90 /\
    (exists low, In low [40; 0; 5] /\ low <= p10) /\
    (exists high, In high [40; 0; 5] /\ p90 <= high) /\
    0 <= round1 p90 - round1 p10 /\
    0 <= round1 p75 - round1 p25.
Proof.
  refine (percentiles_ordered [40; 0; 5] _). discriminate.
Defined.

End PercentileRanges.

(** ** The structure summary after rounding and filtering *)

Section SummaryFacts.
Import Frame Structure.

Lemma positive_Fin (q : Q) : positive (Fin q) = true <-> 0 < q.
Proof.
  simpl. rewrite negb_true_iff. split.
  - intros H. apply Qnot_le_lt. intros L. apply Qle_bool_iff in L. congruence.
  - intros L. destruct (Qle_bool q 0) eqn:E; [|reflexivity].
    apply Qle_bool_iff in E. lra.
Qed.

Lemma qsum_nonnegative (xs : list Q) :
  (forall x, In x xs -> 0 <= x) -> 0 <= qsum xs.
Proof.
  induction xs as [|x xs IH]; simpl; intros H; [apply Qle_refl|].
  assert (0 <= x) by (apply H; left; reflexivity).
  assert (0 <= qsum xs) by (apply IH; intros y Hy; apply H; right; exact Hy).
  unfold qsum in *. lra.
Qed.

Lemma qsum_zero_all (xs : list Q) :
  (forall x, In x xs -> 0 <= x) -> qsum xs == 0 -> forall x, In x xs -> x == 0.
Proof.
  induction xs as [|y xs IH]; simpl; intros H Z x Hx; [destruct Hx|].
  assert (0 <= y) by (apply H; left; reflexivity).
  assert (0 <= qsum xs)
    by (apply qsum_nonnegative; intros z Hz; apply H; right; exact Hz).
  unfold qsum in *. destruct Hx as [E | Hx].
  - subst. lra.
  - apply IH; [intros z Hz; apply H; right; exact Hz | lra | exact Hx].
Qed.

Lemma rescaled_not_positive (structure_biotic structure_abiotic : means)
    (row : string * Q) :
  (forall r, In r structure_abiotic -> 0 <= snd r) ->
  100 <= biotic_sum structure_biotic \/ abiotic_sum structure_abiotic == 0 ->
  In row structure_abiotic ->
  positive (fround1 (fmul (snd row)
                          (abiotic_adjustment structure_biotic structure_abiotic)))
  = false.
Proof.
  intros NN C I.
  assert (P : 0 <= snd row) by (apply NN; exact I).
  assert (SN : 0 <= abiotic_sum structure_abiotic).
  { apply qsum_nonnegative. intros x Hx. apply in_map_iff in Hx.
    destruct Hx as [r [E Hr]]. subst x. apply NN. exact Hr. }
  unfold abiotic_adjustment, fdiv.
  destruct (Qeq_bool (abiotic_sum structure_abiotic) 0) eqn:Z.
  - apply Qeq_bool_iff in Z.
    assert (R0 : snd row == 0).
    { apply (qsum_zero_all (map snd structure_abiotic)).
      - intros x Hx. apply in_map_iff in Hx. destruct Hx as [r [E Hr]]. subst x.
        apply NN. exact Hr.
      - exact Z.
      - apply in_map. exact I. }
    apply Qeq_bool_iff in R0.
    destruct (Qeq_bool (abiotic_remainder structure_biotic) 0);
      [reflexivity|].
    destruct (Qle_bool 0 (abiotic_remainder structure_biotic)); simpl;
      rewrite R0; reflexivity.
  - destruct C as [C | C]; [|apply Qeq_bool_iff in C; congruence].
    assert (SP : 0 < abiotic_sum structure_abiotic).
    { apply Qle_lteq in SN. destruct SN as [L | E]; [exact L|].
      symmetry in E. apply Qeq_bool_iff in E. congruence. }
    simpl. rewrite negb_false_iff. apply Qle_bool_iff.
    apply round1_nonpositive.
    assert (A : abiotic_remainder structure_biotic / abiotic_sum structure_abiotic <= 0).
    { unfold Qdiv.
      assert (I0 : 0 < / abiotic_sum structure_abiotic)
        by (apply Qinv_lt_0_compat; exact SP).
      assert (R : abiotic_remainder structure_biotic <= 0)
        by (unfold abiotic_remainder; lra).
      assert (M : abiotic_remainder structure_biotic * / abiotic_sum structure_abiotic
                  <= 0 * / abiotic_sum structure_abiotic).
      { apply Qmult_le_compat_r; [exact R | apply Qlt_le_weak; exact I0]. }
      lra. }
    assert (M : abiotic_remainder structure_biotic / abiotic_sum structure_abiotic
                * snd row <= 0 * snd row)
      by (apply Qmult_le_compat_r; assumption).
    rewrite Qmult_comm. lra.
Qed.

(** X5.  When no abiotic mean is negative and either the biotic means sum
    to 100 or more or the abiotic means sum to zero, no abiotic element
    reaches the treemap: the summary is the one computed from the biotic
    means alone. *)
Theorem abiotic_rows_vanish (structure_biotic structure_abiotic : means) :
  (forall r, In r structure_abiotic -> 0 <= snd r) ->
  100 <= biotic_sum structure_biotic \/ abiotic_sum structure_abiotic == 0 ->
  structure_summary structure_biotic structure_abiotic
  = structure_summary structure_biotic [].
Proof.
  intros NN C. unfold structure_summary, concat_structure.
  rewrite !map_app, !filter_app. f_equal.
  unfold rescale_abiotic. simpl. rewrite map_map. simpl.
  assert (G : forall l,
             (forall r, In r l -> In r structure_abiotic) ->
             filter (fun row : string * fval => positive (snd row))
                    (map (fun x : string * Q =>
                            (fst x,
                             fround1 (fmul (snd x)
                                        (abiotic_adjustment structure_biotic
                                                            structure_abiotic)))) l)
             = []).
  { induction l as [|r l IH]; intros Sub; simpl; [reflexivity|].
    rewrite (rescaled_not_positive _ _ r NN C) by (apply Sub; left; reflexivity).
    apply IH. intros r' H. apply Sub. right. exact H. }
  apply G. intros r H. exact H.
Qed.

Lemma abiotic_rows_vanish_witness :
  structure_summary [("graminoid"%string, 60); ("moss"%string, 70)]
                    [("water"%string, 10); ("soil"%string, 0)]
  = structure_summary [("graminoid"%string, 60); ("moss"%string, 70)] [].
Proof.
  refine (abiotic_rows_vanish [("graminoid"%string, 60); ("moss"%string, 70)]
                              [("water"%string, 10); ("soil"%string, 0)] _ _).
  - intros r [E | [E | []]]; subst r; discriminate.
  - left. discriminate.
Defined.

Lemma qsum_round1_close (vs : list Q) :
  Qabs (qsum (map round1 vs) - qsum vs)
  <= inject_Z (Z.of_nat (List.length vs)) * (1 # 20).
Proof.
  induction vs as [|v vs IH].
  - simpl. vm_compute. discriminate.
  - assert (C := round1_close v).
    apply Qabs_Qle_condition in C. apply Qabs_Qle_condition in IH.
    apply Qabs_Qle_condition.
    simpl List.length. rewrite Nat2Z.inj_succ. unfold Z.succ.
    rewrite inject_Z_plus. change (inject_Z 1) with 1.
    unfold qsum in *. simpl.
    set (n := inject_Z (Z.of_nat (List.length vs))) in *.
    clearbody n. split; lra.
Qed.

Lemma filter_all_kept {A : Type} (p : A -> bool) (l : list A) :
  (forall x, In x l -> p x = true) -> filter p l = l.
Proof.
  induction l as [|x l IH]; simpl; intros H; [reflexivity|].
  rewrite (H x (or_introl eq_refl)). f_equal. apply IH.
  intros y Hy. apply H. right. exact Hy.
Qed.

(** X6.  When the abiotic means do not sum to zero and every rounded
    value is above zero, so that no row is removed, the values of the
    treemap total 100 up to the rounding: the total differs from 100 by
    at most 0.05 per row. *)
Theorem structure_summary_total_close (structure_biotic structure_abiotic : means) :
  ~ abiotic_sum structure_abiotic == 0 ->
  (forall row, In row (concat_structure structure_biotic structure_abiotic) ->
               positive (fround1 (snd row)) = true) ->
  exists total,
    treemap_total (structure_summary structure_biotic structure_abiotic) = Fin total
    /\ Qabs (total - 100)
       <= inject_Z (Z.of_nat (List.length structure_biotic
                              + List.length structure_abiotic)) * (1 # 20).
Proof.
  intros N P. unfold treemap_total, structure_summary.
  rewrite filter_all_kept.
  2:{ intros row H. apply in_map_iff in H. destruct H as [r [E I]]. subst row.
      simpl. apply P. exact I. }
  rewrite map_map. simpl.
  rewrite <- (map_map snd fround1), (concat_structure_values _ _ N), map_map.
  simpl. rewrite <- (map_map round1 Fin), fsum_finite.
  eexists. split; [reflexivity|].
  set (vs := (map snd structure_biotic
              ++ map (fun x => x * (abiotic_remainder structure_biotic
                                    / abiotic_sum structure_abiotic))
                     (map snd structure_abiotic))%list).
  assert (T : qsum vs == 100).
  { unfold vs. rewrite qsum_app, qsum_scale.
    unfold abiotic_remainder, biotic_sum.
    fold (abiotic_sum structure_abiotic). field. exact N. }
  assert (L : List.length vs
              = (List.length structure_biotic + List.length structure_abiotic)%nat).
  { unfold vs. rewrite length_app, !length_map. reflexivity. }
  assert (K := qsum_round1_close vs). rewrite L, T in K. exact K.
Qed.

Lemma structure_summary_total_close_witness :
  exists total,
    treemap_total (structure_summary [("forb"%string, 33.33); ("moss"%string, 33.33)]
                                     [("water"%string, 2)])
    = Fin total
    /\ Qabs (total - 100) <= inject_Z (Z.of_nat (2 + 1)) * (1 # 20).
Proof.
  refine (structure_summary_total_close
            [("forb"%string, 33.33); ("moss"%string, 33.33)]
            [("water"%string, 2)] _ _).
  - discriminate.
  - intros row [E | [E | [E | []]]]; subst row; vm_compute; reflexivity.
Defined.

End SummaryFacts.

(** ** Bryophyte and lichen rows *)

Section TaxonMasks.
Import Frame Taxa.

Open Scope string_scope.

Lemma isin_In (c : option string) (values : list string) :
  Selection.isin c values = true <-> exists s, c = Some s /\ In s values.
Proof.
  destruct c as [s|]; simpl.
  - rewrite existsb_exists. split.
    + intros [v [I E]]. apply String.eqb_eq in E. subst. exists v. auto.
    + intros [v [E I]]. inversion E. subst. exists v.
      split; [exact I | apply String.eqb_refl].
  - split; [discriminate | intros [s [E _]]; discriminate].
Qed.

Lemma among_In (s : string) (values : list string) :
  among s values = true <-> In s values.
Proof.
  unfold among. rewrite existsb_exists. split.
  - intros [v [I E]]. apply String.eqb_eq in E. subst. exact I.
  - intros I. exists s. split; [exact I | apply String.eqb_refl].
Qed.

Lemma differs_true (c : option string) (value : string) :
  differs c value = true <-> c <> Some value.
Proof.
  destruct c as [s|]; simpl.
  - rewrite negb_true_iff, String.eqb_neq. split; congruence.
  - split; [discriminate | reflexivity].
Qed.

Lemma equals_true (c : option string) (value : string) :
  equals c value = true <-> c = Some value.
Proof.
  destruct c as [s|]; simpl.
  - rewrite String.eqb_eq. split; congruence.
  - split; discriminate.
Qed.

(** X7.  The bryophyte mask keeps a row exactly when its category is not
    "functional group" or its name is "liverwort" or "moss": the second
    alternative of the mask never adds a row, so a functional group row
    named after one of the six listed groups, such as "Sphagnum moss", is
    removed, while every row of another category that passed the category
    filter, "unknown" included, is kept.  The bryophyte rows are thus the
    rows of the site visits appropriate for bryophytes, of one of the
    five categories, that are no functional group or are named
    "liverwort" or "moss". *)
Theorem bryophyte_mask_kept (r : taxon_row) :
  (bryophyte_mask r = true
   <-> taxon_category r <> Some "functional group"
       \/ In (name_accepted r) ["liverwort"; "moss"]) /\
  (taxon_category r = Some "functional group" ->
   In (name_accepted r)
      ["non-thalloid liverwort"; "thalloid liverwort"; "feathermoss (other)";
       "feathermoss (N-fixing)"; "Sphagnum moss"; "turf moss"] ->
   bryophyte_mask r = false) /\
  (taxon_category r = Some "unknown" -> bryophyte_mask r = true) /\
  (forall bryophyte_site_codes vegetation_data,
      In r (bryophyte_rows bryophyte_site_codes vegetation_data)
      <-> In r vegetation_data
          /\ In (site_visit_code r) bryophyte_site_codes
          /\ (exists category,
                 taxon_category r = Some category
                 /\ In category ["liverwort"; "moss"; "hornwort";
                                 "functional group"; "unknown"])
          /\ (taxon_category r <> Some "functional group"
              \/ In (name_accepted r) ["liverwort"; "moss"])).
Proof.
  assert (M : bryophyte_mask r = true
              <-> taxon_category r <> Some "functional group"
                  \/ In (name_accepted r) ["liverwort"; "moss"]).
  { unfold bryophyte_mask.
    rewrite !orb_true_iff, !andb_true_iff, !differs_true, !among_In.
    split.
    - intros [[H | [H _]] | [_ H]]; auto.
    - intros [H | H]; [left; left; exact H|].
      destruct (taxon_category r) as [c|]; [|left; left; discriminate].
      destruct (String.eqb_spec c "functional group") as [E | N].
      + right. split; [rewrite E; discriminate | exact H].
      + left. left. congruence. }
  split; [exact M|]. split; [|split].
  - intros C L. apply not_true_is_false. intros E.
    apply M in E. destruct E as [E | E]; [contradiction|].
    exfalso. simpl in L, E.
    destruct E as [E | [E | []]]; rewrite <- E in L;
      repeat (destruct L as [L | L]; [discriminate|]); destruct L.
  - intros C. apply M. left. rewrite C. discriminate.
  - intros codes data. unfold bryophyte_rows. rewrite !filter_In, M, among_In.
    unfold bryophyte_category. rewrite isin_In. tauto.
Qed.

Lemma bryophyte_mask_kept_witness :
  bryophyte_mask (Samples.taxon "NPRA_001" "Sphagnum moss" 15 "Sphagnum"
                                "functional group" "moss") = false.
Proof.
  refine (proj1 (proj2 (bryophyte_mask_kept
                          (Samples.taxon "NPRA_001" "Sphagnum moss" 15 "Sphagnum"
                                         "functional group" "moss"))) eq_refl _).
  simpl. tauto.
Defined.

(** X8.  On the rows of category "lichen" the lichen mask removes
    nothing: the lichen rows are the rows of the site visits appropriate
    for lichens whose category is "lichen", whatever their name. *)
Theorem lichen_mask_keeps_all (lichen_site_codes : list string)
    (vegetation_data : list taxon_row) :
  lichen_rows lichen_site_codes vegetation_data
  = filter lichen_category
      (filter (fun r => among (site_visit_code r) lichen_site_codes) vegetation_data)
  /\ forall r,
      In r (lichen_rows lichen_site_codes vegetation_data)
      <-> In r vegetation_data
          /\ In (site_visit_code r) lichen_site_codes
          /\ taxon_category r = Some "lichen".
Proof.
  assert (E : lichen_rows lichen_site_codes vegetation_data
              = filter lichen_category
                  (filter (fun r => among (site_visit_code r) lichen_site_codes)
                          vegetation_data)).
  { unfold lichen_rows.
    induction (filter (fun r => among (site_visit_code r) lichen_site_codes)
                      vegetation_data) as [|r l IH]; simpl; [reflexivity|].
    destruct (lichen_category r) eqn:C; simpl; [|exact IH].
    assert (M : lichen_mask r = true).
    { unfold lichen_category in C. apply equals_true in C.
      unfold lichen_mask. rewrite C. reflexivity. }
    rewrite M, IH. reflexivity. }
  split; [exact E|].
  intros r. rewrite E, !filter_In. unfold lichen_category.
  rewrite equals_true, among_In. tauto.
Qed.

Lemma with_name_same (r : taxon_row) : with_name r (name_accepted r) = r.
Proof. destruct r. reflexivity. Qed.

Lemma rename_genus_row (rule : string * string) (data : list taxon_row)
    (name_of : taxon_row -> string) :
  rename_genus rule (map (fun r => with_name r (name_of r)) data)
  = map (fun r => with_name r (if equals (taxon_genus r) (fst rule)
                               then snd rule else name_of r)) data.
Proof.
  unfold rename_genus. rewrite map_map. apply map_ext. intros r. simpl.
  destruct (equals (taxon_genus r) (fst rule)); reflexivity.
Qed.

Lemma aggregate_from (rules : list (string * string)) (data : list taxon_row)
    (name_of : taxon_row -> string) :
  aggregate_genera rules (map (fun r => with_name r (name_of r)) data)
  = map (fun r =>
           with_name r
             (fold_left (fun name rule => if equals (taxon_genus r) (fst rule)
                                          then snd rule else name)
                        rules (name_of r)))
        data.
Proof.
  revert name_of. unfold aggregate_genera.
  induction rules as [|rule rules IH]; intros name_of; simpl; [reflexivity|].
  rewrite rename_genus_row. apply IH.
Qed.

Lemma last_rule_is_first (rules : list (string * string)) (r : taxon_row)
    (name : string) :
  NoDup (map fst rules) ->
  fold_left (fun name rule => if equals (taxon_genus r) (fst rule)
                              then snd rule else name) rules name
  = match find (fun rule => equals (taxon_genus r) (fst rule)) rules with
    | Some rule => snd rule
    | None => name
    end.
Proof.
  revert name. induction rules as [|rule rules IH]; intros name ND; simpl;
    [reflexivity|].
  inversion ND as [|? ? N ND']; subst.
  rewrite IH by exact ND'.
  destruct (equals (taxon_genus r) (fst rule)) eqn:E; [|reflexivity].
  destruct (find (fun rule0 => equals (taxon_genus r) (fst rule0)) rules)
    as [other|] eqn:F; [|reflexivity].
  exfalso. apply find_some in F. destruct F as [I E'].
  apply equals_true in E. apply equals_true in E'.
  apply N. apply in_map_iff. exists other. split; [congruence | exact I].
Qed.

(** X9.  The aggregation statements keep every row in its place with its
    site visit, cover and taxonomy, and change only names: a row whose
    genus is one of the listed genera gets the name listed for that genus
    (the genus itself, and "Masonhalea richardsonii" for Masonhalea), any
    other row and any row without a genus keeps its name. *)
Theorem genera_aggregated (data : list taxon_row) :
  aggregate_genera bryophyte_genera data
  = map (fun r => with_name r (aggregated_name bryophyte_genera r)) data
  /\ aggregate_genera lichen_genera data
     = map (fun r => with_name r (aggregated_name lichen_genera r)) data
  /\ (forall r, taxon_genus r = Some "Masonhalea" ->
                aggregated_name lichen_genera r = "Masonhalea richardsonii")
  /\ (forall r, taxon_genus r = Some "Sphagnum" ->
                aggregated_name bryophyte_genera r = "Sphagnum")
  /\ (forall r, taxon_genus r = None ->
                aggregated_name bryophyte_genera r = name_accepted r
                /\ aggregated_name lichen_genera r = name_accepted r).
Proof.
  assert (G : forall rules,
             NoDup (map fst rules) ->
             aggregate_genera rules data
             = map (fun r => with_name r (aggregated_name rules r)) data).
  { intros rules ND.
    rewrite <- (map_id data) at 1.
    rewrite (map_ext (fun r => r) (fun r => with_name r (name_accepted r)))
      by (intros r; symmetry; apply with_name_same).
    rewrite aggregate_from. apply map_ext. intros r.
    rewrite last_rule_is_first by exact ND. reflexivity. }
  assert (NB : NoDup (map fst bryophyte_genera)).
  { simpl. repeat (constructor; [simpl; intuition discriminate|]). constructor. }
  assert (NL : NoDup (map fst lichen_genera)).
  { simpl. repeat (constructor; [simpl; intuition discriminate|]). constructor. }
  split; [apply G; exact NB|]. split; [apply G; exact NL|].
  split; [|split].
  - intros r E. unfold aggregated_name. rewrite E. reflexivity.
  - intros r E. unfold aggregated_name. rewrite E. reflexivity.
  - intros r E. unfold aggregated_name. rewrite E. split; reflexivity.
Qed.

End TaxonMasks.

(** ** Selection of the site visits *)

Section SelectionFacts.
Import Frame Selection.

Open Scope string_scope.

Lemma filter_site_visits_In (site_visit_data : list visit) (r : visit) :
  In r (filter_site_visits site_visit_data)
  <-> In r site_visit_data
      /\ (exists y, obs_year r = Some y /\ (2000 <= y)%Z)
      /\ perspective r = Some "ground"
      /\ (exists s, scope_vascular r = Some s
                    /\ In s ["exhaustive"; "non-trace species"]).
Proof.
  unfold filter_site_visits. rewrite !filter_In.
  unfold vascular_scope, from_ground, recent. rewrite isin_In.
  assert (Y : match obs_year r with Some y => (2000 <=? y)%Z | None => false end = true
              <-> exists y, obs_year r = Some y /\ (2000 <= y)%Z).
  { destruct (obs_year r) as [y|].
    - rewrite Z.leb_le. split.
      + intros H. exists y. auto.
      + intros [z [E H]]. inversion E. subst. exact H.
    - split; [discriminate | intros [z [E _]]; discriminate]. }
  assert (G : match perspective r with Some p => p =? "ground" | None => false end = true
              <-> perspective r = Some "ground").
  { destruct (perspective r) as [p|].
    - rewrite String.eqb_eq. split; congruence.
    - split; discriminate. }
  rewrite Y, G. tauto.
Qed.

Lemma merge_labels_In (site_visit_data : list visit) (attribute_data : list attribute)
    (sv : SiteVisits.site_visit) (label : string) :
  In sv (merge_labels site_visit_data attribute_data)
  /\ SiteVisits.veg_type sv = Some label
  <-> exists r a,
      In r site_visit_data /\ In a attribute_data
      /\ raster_value r = Some (VALUE a) /\ LABEL a = label
      /\ sv = labelled r (Some label).
Proof.
  unfold merge_labels. rewrite in_flat_map. split.
  - intros [[r [I H]] V].
    destruct (matching r attribute_data) as [|a0 found] eqn:M.
    + destruct H as [H | []]. subst sv. discriminate.
    + apply in_map_iff in H. destruct H as [a [E Ia]]. subst sv.
      simpl in V. inversion V as [L].
      rewrite <- M in Ia. unfold matching in Ia.
      destruct (raster_value r) as [v|] eqn:Rv; [|destruct Ia].
      apply filter_In in Ia. destruct Ia as [Ia Ev]. apply Z.eqb_eq in Ev.
      exists r, a. rewrite L. repeat split; try assumption. congruence.
  - intros [r [a [Ir [Ia [Rv [L E]]]]]]. subst sv. split; [|reflexivity].
    exists r. split; [exact Ir|].
    assert (Im : In a (matching r attribute_data)).
    { unfold matching. rewrite Rv. apply filter_In. split; [exact Ia|].
      apply Z.eqb_refl. }
    destruct (matching r attribute_data) as [|a0 found]; [destruct Im|].
    apply in_map_iff. exists a. rewrite L. split; [reflexivity | exact Im].
Qed.

(** X10.  A site visit belongs to the site visits of the unit exactly when
    it comes from a row observed in 2000 or later, from the ground, with a
    vascular scope that is exhaustive or without trace species only, whose
    raster value has an attribute row labelled with the unit name: rows
    without a year, a perspective, a scope, a raster value or a matching
    attribute row never enter. *)
Theorem unit_site_visits_selected (unit_name : string) (site_visit_data : list visit)
    (attribute_data : list attribute) (sv : SiteVisits.site_visit) :
  In sv (unit_site_visits unit_name site_visit_data attribute_data)
  <-> exists r a y s,
      In r site_visit_data /\ In a attribute_data
      /\ obs_year r = Some y /\ (2000 <= y)%Z
      /\ perspective r = Some "ground"
      /\ scope_vascular r = Some s /\ In s ["exhaustive"; "non-trace species"]
      /\ raster_value r = Some (VALUE a) /\ LABEL a = unit_name
      /\ sv = labelled r (Some unit_name).
Proof.
  unfold unit_site_visits. rewrite filter_to_unit_In, merge_labels_In.
  split.
  - intros [r [a [Ir [Ia [Rv [L E]]]]]].
    apply filter_site_visits_In in Ir.
    destruct Ir as [Ir [[y [Ey Hy]] [G [s [Es Hs]]]]].
    exists r, a, y, s. tauto.
  - intros [r [a [y [s [Ir [Ia [Ey [Hy [G [Es [Hs [Rv [L E]]]]]]]]]]]]].
    exists r, a. repeat split; try assumption.
    apply filter_site_visits_In. split; [exact Ir|].
    split; [exists y; tauto|]. split; [exact G|]. exists s. tauto.
Qed.

Lemma flat_map_length_ge {A B : Type} (f : A -> list B) (l : list A) :
  (forall x, (1 <= List.length (f x))%nat) ->
  (List.length l <= List.length (flat_map f l))%nat.
Proof.
  intros H. induction l as [|x l IH]; simpl; [lia|].
  rewrite length_app. specialize (H x). lia.
Qed.

Lemma map_flat_map_single {A B C : Type} (f : A -> list B) (g : B -> C)
    (h : A -> C) (l : list A) :
  (forall x, map g (f x) = [h x]) -> map g (flat_map f l) = map h l.
Proof.
  intros H. induction l as [|x l IH]; simpl; [reflexivity|].
  rewrite map_app, H, IH. reflexivity.
Qed.

Lemma matching_unique (r : visit) (attribute_data : list attribute) :
  NoDup (map VALUE attribute_data) ->
  (List.length (matching r attribute_data) <= 1)%nat.
Proof.
  unfold matching. destruct (raster_value r) as [v|]; [|simpl; lia].
  induction attribute_data as [|a l IH]; simpl; intros ND; [lia|].
  inversion ND as [|? ? N ND']; subst.
  destruct (VALUE a =? v)%Z eqn:E; [|apply IH; exact ND'].
  apply Z.eqb_eq in E. simpl.
  assert (Z0 : filter (fun a0 => (VALUE a0 =? v)%Z) l = []).
  { destruct (filter (fun a0 => (VALUE a0 =? v)%Z) l) as [|b m] eqn:F; [reflexivity|].
    exfalso. assert (Ib : In b (filter (fun a0 => (VALUE a0 =? v)%Z) l))
      by (rewrite F; left; reflexivity).
    apply filter_In in Ib. destruct Ib as [Ib Eb]. apply Z.eqb_eq in Eb.
    apply N. apply in_map_iff. exists b. split; [congruence | exact Ib]. }
  rewrite Z0. simpl. lia.
Qed.

(** X11.  The merge with the raster attribute table never loses a site
    visit: the table does not get shorter and every site visit code is
    still there afterwards; and when no raster value appears twice in the
    attribute table, no site visit is repeated, so that the column of the
    codes is the one of the table before the merge. *)
Theorem merge_labels_keeps_site_visits (site_visit_data : list visit)
    (attribute_data : list attribute) :
  (List.length site_visit_data
   <= List.length (merge_labels site_visit_data attribute_data))%nat /\
  (forall r, In r site_visit_data ->
             In (site_visit_code r)
                (map SiteVisits.site_visit_code
                     (merge_labels site_visit_data attribute_data))) /\
  (NoDup (map VALUE attribute_data) ->
   map SiteVisits.site_visit_code (merge_labels site_visit_data attribute_data)
   = map site_visit_code site_visit_data).
Proof.
  unfold merge_labels. split; [|split].
  - apply flat_map_length_ge. intros r.
    destruct (matching r attribute_data) as [|a found]; simpl; lia.
  - intros r I. apply in_map_iff.
    destruct (matching r attribute_data) as [|a found] eqn:M.
    + exists (labelled r None). split; [reflexivity|].
      apply in_flat_map. exists r. split; [exact I|]. rewrite M. left. reflexivity.
    + exists (labelled r (Some (LABEL a))). split; [reflexivity|].
      apply in_flat_map. exists r. split; [exact I|]. rewrite M. left. reflexivity.
  - intros ND. apply map_flat_map_single. intros r.
    assert (U := matching_unique r attribute_data ND).
    destruct (matching r attribute_data) as [|a [|b found]]; simpl in *;
      [reflexivity | reflexivity | lia].
Qed.

Lemma merge_labels_keeps_site_visits_witness :
  map SiteVisits.site_visit_code
      (merge_labels Samples.raw_visits Samples.attributes)
  = map site_visit_code Samples.raw_visits.
Proof.
  refine (proj2 (proj2 (merge_labels_keeps_site_visits
                          Samples.raw_visits Samples.attributes)) _).
  simpl. repeat (constructor; [simpl; intuition discriminate|]). constructor.
Defined.

End SelectionFacts.

(** ** Grouped sums and diagnostic constancy *)

Section GroupingFacts.
Import Frame Grouping.

Lemma key_eqb_eq (a b : key) : key_eqb a b = true <-> a = b.
Proof.
  destruct a as [a1 a2]. destruct b as [b1 b2]. unfold key_eqb. simpl.
  rewrite andb_true_iff, !String.eqb_eq. split.
  - intros [E1 E2]. subst. reflexivity.
  - intros E. inversion E. auto.
Qed.

Lemma insert_key_perm (k : key) (l : list key) : Permutation (k :: l) (insert_key k l).
Proof.
  induction l as [|h l IH]; simpl; [apply Permutation_refl|].
  destruct (key_leb k h); [apply Permutation_refl|].
  apply perm_trans with (h :: k :: l); [apply perm_swap|].
  apply perm_skip. exact IH.
Qed.

Lemma sort_keys_perm (l : list key) : Permutation l (sort_keys l).
Proof.
  induction l as [|k l IH]; simpl; [apply perm_nil|].
  apply perm_trans with (k :: sort_keys l).
  - apply perm_skip. exact IH.
  - apply insert_key_perm.
Qed.

Lemma group_keys_NoDup (rows : list cover_row) :
  NoDup (sort_keys (unique key_eqb (map fst rows))).
Proof.
  eapply Permutation_NoDup; [apply sort_keys_perm|].
  apply (unique_NoDup key_eqb key_eqb_eq).
Qed.

Lemma group_keys_In (rows : list cover_row) (k : key) :
  In k (sort_keys (unique key_eqb (map fst rows))) <-> In k (map fst rows).
Proof.
  split; intros H.
  - apply (unique_In key_eqb key_eqb_eq).
    eapply Permutation_in; [apply Permutation_sym, sort_keys_perm | exact H].
  - eapply Permutation_in; [apply sort_keys_perm|].
    apply (unique_In key_eqb key_eqb_eq). exact H.
Qed.

Lemma groupby_sum_keys (rows : list cover_row) :
  map fst (groupby_sum rows) = sort_keys (unique key_eqb (map fst rows)).
Proof. unfold groupby_sum. rewrite map_map. simpl. apply map_id. Qed.

Lemma key_eqb_differ (a b : key) : a <> b -> key_eqb a b = false.
Proof.
  intros N. destruct (key_eqb a b) eqn:E; [|reflexivity].
  apply key_eqb_eq in E. contradiction.
Qed.

Lemma qsum_cons (x : Q) (xs : list Q) : qsum (x :: xs) = x + qsum xs.
Proof. reflexivity. Qed.

Lemma group_sum_cons (k k0 : key) (c : cell) (rows : list cover_row) :
  group_sum k ((k0, c) :: rows)
  == (if key_eqb k k0 then match c with Some v => v | None => 0 end else 0)
     + group_sum k rows.
Proof.
  unfold group_sum. simpl filter. simpl fst. destruct (key_eqb k k0).
  - simpl map. destruct c as [v|]; simpl dropna.
    + rewrite qsum_cons. reflexivity.
    + ring.
  - ring.
Qed.

(** The sums of the groups of a duplicate-free list of keys that holds
    the key of every row add up to the sum of all the covers. *)
Lemma group_sums_total (keys : list key) (rows : list cover_row) :
  NoDup keys -> (forall row, In row rows -> In (fst row) keys) ->
  qsum (map (fun k => group_sum k rows) keys) == qsum (dropna (map snd rows)).
Proof.
  intros ND. induction rows as [|[k0 c] rows IH]; intros Cov.
  - simpl dropna. clear ND Cov.
    induction keys as [|k keys IHk]; [reflexivity|].
    simpl map. rewrite qsum_cons, IHk. reflexivity.
  - assert (IH' := IH (fun row H => Cov row (or_intror H))).
    assert (I0 : In k0 keys) by (apply (Cov (k0, c)); left; reflexivity).
    assert (G : forall ks, NoDup ks ->
                 qsum (map (fun k => group_sum k ((k0, c) :: rows)) ks)
                 == qsum (map (fun k => group_sum k rows) ks)
                    + (if existsb (key_eqb k0) ks
                       then match c with Some v => v | None => 0 end
                       else 0)).
    { induction ks as [|k ks IHk]; intros NDk; [simpl; ring|].
      inversion NDk as [|? ? Nk NDk']; subst.
      simpl map. rewrite !qsum_cons, (IHk NDk'), group_sum_cons.
      simpl existsb.
      destruct (key_eqb k k0) eqn:E.
      - apply key_eqb_eq in E. subst k0.
        assert (X : existsb (key_eqb k) ks = false).
        { destruct (existsb (key_eqb k) ks) eqn:X; [|reflexivity].
          apply (existsb_eqb key_eqb key_eqb_eq) in X. contradiction. }
        assert (Ekk : key_eqb k k = true) by (apply key_eqb_eq; reflexivity).
        rewrite X, Ekk. simpl. ring.
      - assert (E' : key_eqb k0 k = false).
        { apply key_eqb_differ. intros F. subst.
          assert (key_eqb k k = true) by (apply key_eqb_eq; reflexivity). congruence. }
        rewrite E'. simpl. ring. }
    rewrite (G keys ND), IH'.
    assert (X : existsb (key_eqb k0) keys = true)
      by (apply (existsb_eqb key_eqb key_eqb_eq); exact I0).
    rewrite X. simpl map. destruct c as [v|]; simpl dropna.
    + rewrite qsum_cons. ring.
    + ring.
Qed.

(** X12.  The grouped table has exactly one row per distinct pair of site
    visit and name of the input, each with the sum of the covers recorded
    for that pair (a missing cover counting for nothing), and the sums of
    the groups add up to the sum of all the covers: grouping neither loses
    nor invents cover. *)
Theorem groupby_sum_groups (rows : list cover_row) :
  NoDup (map fst (groupby_sum rows)) /\
  (forall k s, In (k, s) (groupby_sum rows)
               <-> In k (map fst rows) /\ s = group_sum k rows) /\
  qsum (map snd (groupby_sum rows)) == qsum (dropna (map snd rows)).
Proof.
  split; [|split].
  - rewrite groupby_sum_keys. apply group_keys_NoDup.
  - intros k s. unfold groupby_sum. rewrite in_map_iff. split.
    + intros [k' [E I]]. inversion E; subst. apply group_keys_In in I. tauto.
    + intros [I E]. exists k. subst s. split; [reflexivity|].
      apply group_keys_In. exact I.
  - unfold groupby_sum. rewrite map_map. simpl.
    apply group_sums_total; [apply group_keys_NoDup|].
    intros row I. apply group_keys_In. apply in_map. exact I.
Qed.

End GroupingFacts.

Section DiagnosticConstancy.
Import Frame Grouping Vegetation.

Lemma NoDup_map_fst {A B : Type} (l : list (A * B)) : NoDup (map fst l) -> NoDup l.
Proof.
  induction l as [|x l IH]; simpl; intros ND; [constructor|].
  inversion ND as [|? ? N ND']; subst.
  constructor; [|apply IH; exact ND'].
  intros I. apply N. apply in_map. exact I.
Qed.

Lemma visits_with_within (x : string) (data : occurrence_table) :
  (List.length (visits_with x data)
   <= List.length (unique String.eqb (site_codes data)))%nat.
Proof.
  apply NoDup_incl_length.
  - apply (unique_NoDup String.eqb string_eqb_eq).
  - intros c I. unfold visits_with in I.
    apply (proj1 (unique_In String.eqb string_eqb_eq _ _)) in I.
    apply (proj2 (unique_In String.eqb string_eqb_eq _ _)).
    unfold site_codes in *. apply in_map_iff in I. destruct I as [row [E I]].
    apply filter_In in I. apply in_map_iff. exists row. tauto.
Qed.

Lemma glossary_constancy_at_most_100 (x : string) (data : occurrence_table) :
  glossary_constancy x data <= 100.
Proof.
  unfold glossary_constancy.
  assert (W := visits_with_within x data).
  set (v := List.length (visits_with x data)) in *.
  set (n := List.length (unique String.eqb (site_codes data))) in *.
  destruct n as [|n].
  - assert (v = 0%nat) by lia. subst v. replace (List.length (visits_with x data)) with 0%nat by lia.
    vm_compute. discriminate.
  - apply Qle_shift_div_r.
    + change 0 with (inject_Z 0). rewrite <- Zlt_Qlt. lia.
    + apply Qmult_le_l; [reflexivity|]. rewrite <- Zle_Qle. lia.
Qed.

(** X13.  For the diagnostic sets, whose table is grouped by site visit
    and set before the constancy is computed, every row of the constancy
    table is the row of a set of the table, its constancy is the
    percentage of the site visits of the table in which the set occurs and
    never exceeds 100; every set of the table has a row, and no set has
    two. *)
Theorem diagnostic_constancy_is_percentage (data : list Taxa.taxon_row)
    (schema_data : list schema_row) :
  (forall row,
      In row (constancy_diagnostic_vasc (diagnostic_occurrences data schema_data)) ->
      In (taxon row) (names (diagnostic_occurrences data schema_data))
      /\ constancy row
         == glossary_constancy (taxon row) (diagnostic_occurrences data schema_data)
      /\ constancy row <= 100) /\
  (forall x,
      In x (names (diagnostic_occurrences data schema_data)) ->
      exists row,
        In row (constancy_diagnostic_vasc (diagnostic_occurrences data schema_data))
        /\ taxon row = x) /\
  NoDup (map taxon
           (constancy_diagnostic_vasc (diagnostic_occurrences data schema_data))).
Proof.
  set (table := diagnostic_occurrences data schema_data).
  assert (ND : NoDup table).
  { unfold table, diagnostic_occurrences, diagnostic_table.
    rewrite groupby_sum_keys. apply group_keys_NoDup. }
  unfold constancy_diagnostic_vasc, constancy_table.
  split; [|split].
  - intros row I. apply in_map_iff in I. destruct I as [[x n] [E I]].
    apply (value_counts_In String.eqb string_eqb_eq) in I. destruct I as [I C].
    subst row n. simpl.
    assert (G : (inject_Z (Z.of_nat (count_rows String.eqb x (names table)))
                 / inject_Z (Z.of_nat (List.length (unique String.eqb (site_codes table)))))
                * 100
                == glossary_constancy x table).
    { unfold glossary_constancy, visits_with.
      rewrite (unique_NoDup_length String.eqb string_eqb_eq
                 (site_codes (filter (fun row => String.eqb x (snd row)) table)))
        by (apply site_codes_NoDup; exact ND).
      unfold site_codes at 2. rewrite length_map, <- count_rows_names.
      unfold Qdiv. ring. }
    split; [exact I|]. split; [exact G|].
    rewrite G. apply glossary_constancy_at_most_100.
  - intros x I.
    eexists {| taxon := x; occurrences := _; constancy := _ |}.
    split; [|reflexivity].
    apply in_map_iff. exists (x, count_rows String.eqb x (names table)).
    split; [reflexivity|].
    apply (value_counts_In String.eqb string_eqb_eq). tauto.
  - rewrite map_map. simpl.
    apply (value_counts_keys_NoDup String.eqb string_eqb_eq).
Qed.

Lemma diagnostic_constancy_is_percentage_witness :
  exists row,
    In row (constancy_diagnostic_vasc
              (diagnostic_occurrences Samples.cover_table Samples.schema))
    /\ taxon row = "wetland sedges"%string
    /\ constancy row
       == glossary_constancy "wetland sedges"
            (diagnostic_occurrences Samples.cover_table Samples.schema)
    /\ constancy row <= 100.
Proof.
  assert (I : In "wetland sedges"%string
                 (names (diagnostic_occurrences Samples.cover_table Samples.schema)))
    by (vm_compute; tauto).
  destruct (proj1 (proj2 (diagnostic_constancy_is_percentage
                            Samples.cover_table Samples.schema))
              "wetland sedges"%string I) as [row [Ir T]].
  destruct (proj1 (diagnostic_constancy_is_percentage
                     Samples.cover_table Samples.schema) row Ir) as [_ [C L]].
  exists row. rewrite T in C. repeat split; assumption.
Defined.

End DiagnosticConstancy.

(** ** Splitting the photo text *)

Section SplitFacts.
Import Text Run Markdown.

Open Scope string_scope.

Lemma prefix_split (p s : string) : prefix p s = true -> exists rest, s = p ++ rest.
Proof.
  revert s. induction p as [|a p IH]; intros s H.
  - exists s. reflexivity.
  - destruct s as [|b s]; simpl in H; [discriminate|].
    destruct (ascii_dec a b) as [E | N]; [|discriminate].
    subst b. destruct (IH s H) as [rest R]. exists rest. simpl. rewrite R. reflexivity.
Qed.

Lemma split_from_step (sep cur t : string) (c : ascii) (skip : nat) :
  split_from sep skip cur (String c t)
  = match skip with
    | S k => split_from sep k cur t
    | O =>
        if prefix sep (String c t)
        then cur :: split_from sep (String.length sep - 1) EmptyString t
        else split_from sep 0 (cur ++ String c EmptyString) t
    end.
Proof. reflexivity. Qed.

Lemma split_from_nonempty (sep s cur : string) (skip : nat) :
  split_from sep skip cur s <> [].
Proof.
  revert skip cur. induction s as [|c s IH]; intros skip cur; [discriminate|].
  rewrite split_from_step.
  destruct skip as [|k]; [|apply IH].
  destruct (prefix sep (String c s)); [discriminate | apply IH].
Qed.

Lemma split_from_skip (sep passed s cur : string) :
  split_from sep (String.length passed) cur (passed ++ s) = split_from sep 0 cur s.
Proof.
  induction passed as [|c passed IH]; [reflexivity|].
  simpl String.length. simpl append. rewrite split_from_step. exact IH.
Qed.

Lemma concat_cons (sep x : string) (l : list string) :
  l <> [] -> String.concat sep (x :: l) = x ++ sep ++ String.concat sep l.
Proof. destruct l; [contradiction | reflexivity]. Qed.

Lemma split_from_joined (a : ascii) (p : string) (n : nat) :
  forall s cur, (String.length s <= n)%nat ->
    String.concat (String a p) (split_from (String a p) 0 cur s) = cur ++ s.
Proof.
  induction n as [|n IH]; intros s cur L.
  - destruct s; [|simpl in L; lia]. simpl. rewrite append_empty_r. reflexivity.
  - destruct s as [|c t]; [simpl; rewrite append_empty_r; reflexivity|].
    rewrite split_from_step. destruct (prefix (String a p) (String c t)) eqn:P.
    + apply prefix_split in P. destruct P as [rest R].
      simpl in R. injection R as Ec Et. subst c t.
      replace (String.length (String a p) - 1)%nat with (String.length p)
        by (simpl; lia).
      rewrite split_from_skip.
      rewrite concat_cons by apply split_from_nonempty.
      rewrite IH.
      * reflexivity.
      * simpl in L. rewrite length_append in L. lia.
    + rewrite IH by (simpl in L; lia).
      rewrite append_assoc. reflexivity.
Qed.

(** X14.  Splitting a text at a non-empty separator loses nothing: the
    pieces joined again by the separator give back the text, and there is
    always at least one piece.  So the photo list of a parsed photo text
    is never empty, even for an empty text, and joined by a comma and a
    space it is the photo text. *)
Theorem split_joins_back (sep s : string) :
  sep <> "" ->
  String.concat sep (split sep s) = s /\ split sep s <> [] /\
  (sep = ", " ->
   exists first rest,
     run (split_photos (Some s)) = (Return (first :: rest), [])
     /\ String.concat ", " (first :: rest) = s).
Proof.
  intros N. destruct sep as [|a p]; [contradiction|].
  assert (J : String.concat (String a p) (split (String a p) s) = s).
  { unfold split. apply (split_from_joined a p (String.length s)). lia. }
  split; [exact J|]. split; [apply split_from_nonempty|].
  intros E. rewrite E in J. unfold run, split_photos, ret.
  destruct (split ", " s) as [|first rest] eqn:S.
  - exfalso. apply (split_from_nonempty ", " s "" 0). exact S.
  - exists first, rest. split; [reflexivity | exact J].
Qed.

Lemma split_joins_back_witness :
  String.concat ", " (split ", " "a.jpg, b.jpg") = "a.jpg, b.jpg".
Proof.
  refine (proj1 (split_joins_back ", " "a.jpg, b.jpg" _)). discriminate.
Defined.

End SplitFacts.

(** ** Shape of a parsed field *)

Section ParsedFieldShape.
Import Text Run Markdown.

Open Scope string_scope.

Lemma lstrip_fixed (c : ascii) (s : string) :
  isspace c = false -> lstrip (String c s) = String c s.
Proof. intros H. simpl. rewrite H. reflexivity. Qed.

Lemma lstrip_shape (s : string) :
  lstrip s = "" \/ exists c t, lstrip s = String c t /\ isspace c = false.
Proof.
  induction s as [|c s IH]; simpl; [left; reflexivity|].
  destruct (isspace c) eqn:E; [exact IH|].
  right. exists c, s. auto.
Qed.

Lemma rstrip_head (c : ascii) (t : string) :
  isspace c = false -> exists t', rstrip (String c t) = String c t'.
Proof.
  intros H. simpl. destruct (rstrip t) as [|d u].
  - rewrite H. exists "". reflexivity.
  - exists (String d u). reflexivity.
Qed.

Lemma rstrip_step (c : ascii) (t : string) :
  rstrip (String c t)
  = match rstrip t with
    | EmptyString => if isspace c then EmptyString else String c EmptyString
    | kept => String c kept
    end.
Proof. reflexivity. Qed.

Lemma rstrip_idempotent (s : string) : rstrip (rstrip s) = rstrip s.
Proof.
  induction s as [|c s IH]; [reflexivity|].
  rewrite rstrip_step. destruct (rstrip s) as [|d u] eqn:R.
  - destruct (isspace c) eqn:E; [reflexivity|].
    rewrite rstrip_step. simpl. rewrite E. reflexivity.
  - rewrite rstrip_step, IH. reflexivity.
Qed.

Lemma strip_idempotent (s : string) : strip (strip s) = strip s.
Proof.
  unfold strip. destruct (lstrip_shape s) as [E | [c [t [E H]]]]; rewrite E.
  - reflexivity.
  - destruct (rstrip_head c t H) as [t' R]. rewrite R.
    rewrite (lstrip_fixed c t' H), <- R. apply rstrip_idempotent.
Qed.

Lemma one_line_upto_newline (s : string) : one_line (upto_newline s) = true.
Proof.
  induction s as [|c s IH]; simpl; [reflexivity|].
  destruct (Ascii.eqb c LF) eqn:E; [reflexivity|].
  simpl. rewrite E, IH. reflexivity.
Qed.

Lemma one_line_lstrip (s : string) : one_line s = true -> one_line (lstrip s) = true.
Proof.
  induction s as [|c s IH]; simpl; intros H; [reflexivity|].
  apply andb_true_iff in H. destruct H as [Hc Hs].
  destruct (isspace c); [apply IH; exact Hs|].
  simpl. rewrite Hc, Hs. reflexivity.
Qed.

Lemma one_line_rstrip (s : string) : one_line s = true -> one_line (rstrip s) = true.
Proof.
  induction s as [|c s IH]; simpl; intros H; [reflexivity|].
  apply andb_true_iff in H. destruct H as [Hc Hs].
  specialize (IH Hs). destruct (rstrip s) as [|d u].
  - destruct (isspace c); [reflexivity|]. simpl. rewrite Hc. reflexivity.
  - simpl in *. rewrite Hc, IH. reflexivity.
Qed.

(** X15.  For a label without a character that is special in a regular
    expression, as the three labels of the script are, and whatever the
    file holds, a field returned by the parser is a single line without
    surrounding whitespace: it contains no line feed and stripping it
    again changes nothing; and the parser does not raise and prints
    nothing when the file exists. *)
Theorem parsed_field_is_stripped_line (fs : filesystem)
    (text_input label content : string) :
  plain_label label = true ->
  fs text_input = Some content ->
  exists field,
    run (parse_markdown fs text_input label) = (Return field, [])
    /\ forall text, field = Some text ->
                    one_line text = true /\ strip text = text.
Proof.
  intros _ F. unfold run, parse_markdown. rewrite F.
  destruct (search_group1 label content) as [group1|] eqn:S.
  - exists (Some (strip group1)). split; [reflexivity|].
    intros text E. inversion E. subst text. split.
    + unfold search_group1 in S.
      destruct (after_first (marker label) content) as [rest|]; [|discriminate].
      inversion S. unfold strip.
      apply one_line_rstrip, one_line_lstrip, one_line_upto_newline.
    + apply strip_idempotent.
  - exists None. split; [reflexivity | discriminate].
Qed.

Lemma parsed_field_is_stripped_line_witness :
  exists field,
    run (parse_markdown (fun _ => Some Examples.blank_level_file)
           "29_ArcticBrownMossSedgePeatlandMinerotrophic.md" "Photos")
    = (Return field, [])
    /\ forall text, field = Some text ->
                    one_line text = true /\ strip text = text.
Proof.
  refine (parsed_field_is_stripped_line
            (fun _ => Some Examples.blank_level_file)
            "29_ArcticBrownMossSedgePeatlandMinerotrophic.md" "Photos"
            Examples.blank_level_file eq_refl eq_refl).
Defined.

End ParsedFieldShape.

(** ** The clause and the query texts *)

Section ClauseText.
Import Frame Text SiteVisits.

Open Scope string_scope.

(** X16.  For at least one site visit the clause is the head, the quoted
    codes separated by a comma and a space, and the closing; for no site
    visit at all the removal of two characters eats the opening
    parenthesis and the clause is the text "IN);" after the column name,
    which is what every query receives when no site visit carries the
    unit name. *)
Theorem input_sql_text (unit_name : string) (site_visit_data : list site_visit) :
  (site_visit_data <> [] ->
   input_sql site_visit_data
   = where_head
     ++ String.concat ", " (map quoted (map site_visit_code site_visit_data))
     ++ ");") /\
  input_sql [] = String CR (String LF "WHERE site_visit.site_visit_code IN);") /\
  ((forall sv, In sv site_visit_data -> veg_type sv <> Some unit_name) ->
   unit_input_sql unit_name site_visit_data
   = String CR (String LF "WHERE site_visit.site_visit_code IN);")).
Proof.
  split; [apply input_sql_rendering|]. split; [reflexivity|].
  intros N. unfold unit_input_sql.
  assert (E : filter_to_unit unit_name site_visit_data = []).
  { destruct (filter_to_unit unit_name site_visit_data) as [|sv l] eqn:F;
      [reflexivity|].
    exfalso. assert (I : In sv (filter_to_unit unit_name site_visit_data))
      by (rewrite F; left; reflexivity).
    apply filter_to_unit_In in I. destruct I as [I V]. exact (N sv I V). }
  rewrite E. reflexivity.
Qed.

Lemma input_sql_text_witness :
  unit_input_sql "Dryas Dwarf Shrub" Examples.visits
  = String CR (String LF "WHERE site_visit.site_visit_code IN);").
Proof.
  refine (proj2 (proj2 (input_sql_text "Dryas Dwarf Shrub" Examples.visits)) _).
  intros sv H. simpl in H.
  destruct H as [H | [H | [H | [H | []]]]]; subst sv; discriminate.
Defined.

(** X17.  The replacement puts the clause in place of every semicolon of
    a query text and changes nothing else: a text without a semicolon is
    left as it is, so that such a query would run without the
    restriction; a text that ends with its only semicolon gets the clause
    at its end; and a text with a second semicolon gets the clause
    twice. *)
Theorem replace_semicolon_everywhere (clause first second : string) :
  semicolon_free first = true -> semicolon_free second = true ->
  replace_semicolon clause first = first /\
  replace_semicolon clause (first ++ ";") = first ++ clause /\
  replace_semicolon clause (first ++ ";" ++ second ++ ";")
  = first ++ clause ++ second ++ clause.
Proof.
  intros F S.
  split; [apply replace_semicolon_none; exact F|].
  split; [apply replace_semicolon_final; exact F|].
  rewrite replace_semicolon_append, (replace_semicolon_none clause first F).
  change (";" ++ second ++ ";") with (String ";" (second ++ ";")).
  simpl replace_semicolon at 1.
  rewrite (replace_semicolon_final clause second S). reflexivity.
Qed.

Lemma replace_semicolon_everywhere_witness :
  replace_semicolon (input_sql Examples.visits)
    "SELECT * FROM site_visit;"
  = "SELECT * FROM site_visit" ++ input_sql Examples.visits.
Proof.
  refine (proj1 (proj2 (replace_semicolon_everywhere
                          (input_sql Examples.visits)
                          "SELECT * FROM site_visit" "" eq_refl eq_refl))).
Defined.

End ClauseText.

(** ** The values that enter the structure and environment statistics *)

Section PipelineValues.
Import Frame Environment.

Open Scope Q_scope.

(** X18.  A value enters the canopy height statistics exactly when it is
    the height of a shrub row of type "point-intercept mean" or "mean",
    present and different from -999; a value enters the elevation
    statistics exactly when it is the elevation of a site visit with a
    code, present and different from -32768. *)
Theorem statistics_inputs (shrub_data : list shrub_row)
    (site_visit_data : list (option string * cell)) (v : Q) :
  (In v (canopy_data shrub_data)
   <-> (exists r, In r shrub_data
                  /\ In (height_type r) ["point-intercept mean"%string; "mean"%string]
                  /\ height_cm r = Some v)
       /\ ~ v == -999) /\
  (In v (elevation_data site_visit_data)
   <-> (exists code, In (Some code, Some v) site_visit_data) /\ ~ v == -32768).
Proof.
  split.
  - unfold canopy_data. rewrite sentinel_filter_In, dropna_In, in_map_iff.
    simpl missing_code. split.
    + intros [[r [E I]] N]. split; [|exact N].
      apply filter_In in I. destruct I as [I T].
      apply existsb_exists in T. destruct T as [t [It Et]].
      apply String.eqb_eq in Et. exists r. rewrite Et. tauto.
    + intros [[r [I [T E]]] N]. split; [|exact N].
      exists r. split; [exact E|]. apply filter_In. split; [exact I|].
      apply existsb_exists. exists (height_type r).
      split; [exact T | apply String.eqb_refl].
  - unfold elevation_data. rewrite sentinel_filter_In, dropna_In, in_map_iff.
    simpl missing_code. split.
    + intros [[[code value] [E I]] N]. split; [|exact N]. simpl in E.
      destruct code as [code|]; [|discriminate]. subst value. exists code. exact I.
    + intros [[code I] N]. split; [|exact N].
      exists (Some code, Some v). split; [reflexivity | exact I].
Qed.

End PipelineValues.

(** ** Column means of the pivot tables *)

Section PivotFacts.
Import Frame Grouping Pivot.

Lemma insert_label_perm (x : string) (l : list string) :
  Permutation (x :: l) (insert_label x l).
Proof.
  induction l as [|y l IH]; simpl; [apply Permutation_refl|].
  destruct (String.leb x y); [apply Permutation_refl|].
  apply perm_trans with (y :: x :: l); [apply perm_swap|].
  apply perm_skip. exact IH.
Qed.

Lemma axis_perm (values : list string) :
  Permutation (unique String.eqb values) (axis values).
Proof.
  unfold axis. induction (unique String.eqb values) as [|x l IH]; simpl;
    [apply perm_nil|].
  apply perm_trans with (x :: fold_right insert_label [] l).
  - apply perm_skip. exact IH.
  - apply insert_label_perm.
Qed.

Lemma axis_NoDup (values : list string) : NoDup (axis values).
Proof.
  eapply Permutation_NoDup; [apply axis_perm|].
  apply (unique_NoDup String.eqb string_eqb_eq).
Qed.

Lemma axis_In (values : list string) (x : string) : In x (axis values) <-> In x values.
Proof.
  split; intros H.
  - apply (proj1 (unique_In String.eqb string_eqb_eq _ _)).
    eapply Permutation_in; [apply Permutation_sym, axis_perm | exact H].
  - eapply Permutation_in; [apply axis_perm|].
    apply (proj2 (unique_In String.eqb string_eqb_eq _ _)). exact H.
Qed.

Lemma axis_length (values : list string) :
  List.length (axis values) = List.length (unique String.eqb values).
Proof. symmetry. apply Permutation_length. apply axis_perm. Qed.

Lemma filter_filter_implied {A : Type} (p q : A -> bool) (l : list A) :
  (forall x, p x = true -> q x = true) -> filter p (filter q l) = filter p l.
Proof.
  intros H. induction l as [|x l IH]; simpl; [reflexivity|].
  destruct (q x) eqn:Q; simpl.
  - rewrite IH. reflexivity.
  - destruct (p x) eqn:P; [rewrite (H x P) in Q; discriminate | exact IH].
Qed.

Lemma NoDup_map_injective {A B : Type} (f : A -> B) (l : list A) :
  (forall a b, f a = f b -> a = b) -> NoDup l -> NoDup (map f l).
Proof.
  intros Inj ND. induction ND as [|x l N ND IH]; simpl; constructor; [|exact IH].
  intros I. apply in_map_iff in I. destruct I as [y [E Iy]].
  apply Inj in E. subst y. contradiction.
Qed.

Lemma cells_of_column (rows : list cover_row) (sites : list string) (value : string) :
  NoDup sites ->
  (forall row, In row rows -> In (fst (fst row)) sites) ->
  qsum (map (fun site => group_sum (site, value) rows) sites)
  == qsum (dropna (map snd (filter (fun row => String.eqb value (snd (fst row)))
                                   rows))).
Proof.
  intros ND Cov.
  set (rows_v := filter (fun row : cover_row => String.eqb value (snd (fst row))) rows).
  assert (G : forall site, group_sum (site, value) rows = group_sum (site, value) rows_v).
  { intros site. unfold group_sum, rows_v. rewrite filter_filter_implied; [reflexivity|].
    intros [[s v] c] H. unfold key_eqb in H. simpl in *.
    apply andb_true_iff in H. tauto. }
  rewrite (map_ext _ _ G).
  assert (T : qsum (map (fun k => group_sum k rows_v)
                        (map (fun site => (site, value)) sites))
              == qsum (dropna (map snd rows_v))).
  { apply group_sums_total.
    - apply NoDup_map_injective; [|exact ND].
      intros a b E. inversion E. reflexivity.
    - intros [[s v] c] I. unfold rows_v in I. apply filter_In in I.
      destruct I as [I E]. simpl in E. apply String.eqb_eq in E. subst v.
      apply in_map_iff. exists s. split; [reflexivity|]. apply (Cov _ I). }
  rewrite map_map in T. exact T.
Qed.

Lemma totals_of_columns (rows : list cover_row) (values : list string) :
  NoDup values ->
  (forall row, In row rows -> In (snd (fst row)) values) ->
  qsum (map (fun value =>
               qsum (dropna (map snd (filter (fun row => String.eqb value (snd (fst row)))
                                             rows))))
            values)
  == qsum (dropna (map snd rows)).
Proof.
  intros ND Cov.
  set (by_value := map (fun row : cover_row => ((snd (fst row), ""%string), snd row)) rows).
  assert (G : forall value,
             qsum (dropna (map snd (filter (fun row : cover_row =>
                                              String.eqb value (snd (fst row))) rows)))
             = group_sum (value, ""%string) by_value).
  { intros value. unfold group_sum, by_value. f_equal. f_equal.
    induction rows as [|[[s v] c] rows IH]; simpl; [reflexivity|].
    unfold key_eqb at 1. simpl.
    rewrite andb_true_r.
    destruct (String.eqb value v); simpl; rewrite IH;
      try reflexivity; intros row I; apply Cov; right; exact I. }
  rewrite (map_ext _ _ G).
  assert (T : qsum (map (fun k => group_sum k by_value)
                        (map (fun value => (value, ""%string)) values))
              == qsum (dropna (map snd by_value))).
  { apply group_sums_total.
    - apply NoDup_map_injective; [|exact ND].
      intros a b E. inversion E. reflexivity.
    - intros row I. unfold by_value in I. apply in_map_iff in I.
      destruct I as [r [E I]]. subst row. simpl.
      apply in_map_iff. exists (snd (fst r)).
      split; [reflexivity | apply Cov; exact I]. }
  rewrite map_map in T. unfold by_value in T at 2. rewrite map_map in T.
  simpl in T. exact T.
Qed.

Lemma column_means_total (col : Taxa.taxon_row -> option string)
    (data : list Taxa.taxon_row) :
  qsum (map (column_mean col data) (columns col data))
  * inject_Z (Z.of_nat (List.length (index col data)))
  == qsum (dropna (map snd (keyed col data))).
Proof.
  assert (Col : forall value,
             qsum (map (fun site => pivot_cell col data site value) (index col data))
             == column_total col data value).
  { intros value. unfold pivot_cell, column_total. apply cells_of_column.
    - apply axis_NoDup.
    - intros row I. apply axis_In. apply in_map_iff. exists row. tauto. }
  assert (Pos : forall value, In value (columns col data) ->
                 0 < inject_Z (Z.of_nat (List.length (index col data)))).
  { intros value I. unfold columns in I.
    apply (proj1 (axis_In _ _)) in I. apply in_map_iff in I.
    destruct I as [row [_ I]].
    assert (S : In (fst (fst row)) (index col data)).
    { apply axis_In. apply in_map_iff. exists row. tauto. }
    change 0 with (inject_Z 0). rewrite <- Zlt_Qlt.
    destruct (index col data); [destruct S | simpl List.length; lia]. }
  assert (Mean : forall value, In value (columns col data) ->
                 column_mean col data value
                 * inject_Z (Z.of_nat (List.length (index col data)))
                 == column_total col data value).
  { intros value I. unfold column_mean. rewrite Col.
    field. intros Z0. assert (P := Pos value I). rewrite Z0 in P.
    apply (Qlt_irrefl 0). exact P. }
  rewrite <- (totals_of_columns (keyed col data) (columns col data)).
  - rewrite <- qsum_scale, map_map.
    assert (E : forall l, (forall v, In v l -> In v (columns col data)) ->
               qsum (map (fun x => column_mean col data x
                                   * inject_Z (Z.of_nat (List.length (index col data))))
                         l)
               == qsum (map (fun value =>
                               qsum (dropna (map snd
                                 (filter (fun row : cover_row =>
                                            String.eqb value (snd (fst row)))
                                         (keyed col data))))) l)).
    { induction l as [|v l IH]; intros Sub; [reflexivity|].
      simpl map. rewrite !qsum_cons.
      rewrite IH by (intros w H; apply Sub; right; exact H).
      rewrite (Mean v) by (apply Sub; left; reflexivity).
      reflexivity. }
    apply E. intros v H. exact H.
  - apply axis_NoDup.
  - intros row I. apply axis_In. apply in_map_iff. exists row. tauto.
Qed.

Lemma means_per_site_visit (data : list Taxa.taxon_row) :
  qsum (map snd (structure_means data)) == cover_per_site_visit data.
Proof.
  unfold structure_means, cover_per_site_visit. rewrite map_map. simpl.
  destruct (keyed Taxa.taxon_habit data) as [|row rows] eqn:K.
  - unfold columns, index. rewrite K. reflexivity.
  - rewrite <- K.
    assert (P : 0 < inject_Z (Z.of_nat (List.length (index Taxa.taxon_habit data)))).
    { assert (S : In (fst (fst row)) (index Taxa.taxon_habit data)).
      { apply axis_In. apply in_map_iff. exists row. rewrite K.
        split; [reflexivity | left; reflexivity]. }
      change 0 with (inject_Z 0). rewrite <- Zlt_Qlt.
      destruct (index Taxa.taxon_habit data); [destruct S | simpl List.length; lia]. }
    assert (T := column_means_total Taxa.taxon_habit data).
    set (n := inject_Z (Z.of_nat (List.length (index Taxa.taxon_habit data)))) in *.
    set (total := qsum (dropna (map snd (keyed Taxa.taxon_habit data)))) in *.
    set (s := qsum (map (column_mean Taxa.taxon_habit data)
                        (columns Taxa.taxon_habit data))) in *.
    clearbody n total s. rewrite <- T. field.
    intros Z0. rewrite Z0 in P. apply (Qlt_irrefl 0). exact P.
Qed.

(** X19.  The mean of a pivot column is taken over all the site visits of
    the table, a site visit without the value counting for zero: the mean
    times the number of site visits is the total cover recorded for the
    value, and the means of all the columns together, times the number of
    site visits, give the total cover of the table.  So the biotic sum
    is the cover per site visit of the vascular table, plus that of the
    bryophyte table, plus that of the lichen table, each over its own
    site visits. *)
Theorem pivot_means_are_totals_per_site_visit
    (column : Taxa.taxon_row -> option string) (data : list Taxa.taxon_row) :
  let visits := inject_Z (Z.of_nat (List.length (index column data))) in
  (forall value, In value (columns column data) ->
                 0 < visits
                 /\ column_mean column data value * visits
                    == column_total column data value) /\
  qsum (map (column_mean column data) (columns column data)) * visits
  == qsum (dropna (map snd (keyed column data))) /\
  (forall bryophyte_data lichen_data,
      Structure.biotic_sum (structure_biotic data bryophyte_data lichen_data)
      == cover_per_site_visit data + cover_per_site_visit bryophyte_data
         + cover_per_site_visit lichen_data).
Proof.
  assert (Col : forall col value,
             qsum (map (fun site => pivot_cell col data site value) (index col data))
             == column_total col data value).
  { intros col value. unfold pivot_cell, column_total. apply cells_of_column.
    - apply axis_NoDup.
    - intros row I. apply axis_In. apply in_map_iff. exists row. tauto. }
  assert (Pos : forall col value, In value (columns col data) ->
                 0 < inject_Z (Z.of_nat (List.length (index col data)))).
  { intros col value I. unfold columns in I.
    apply (proj1 (axis_In _ _)) in I. apply in_map_iff in I.
    destruct I as [row [_ I]].
    assert (S : In (fst (fst row)) (index col data)).
    { apply axis_In. apply in_map_iff. exists row. tauto. }
    change 0 with (inject_Z 0). rewrite <- Zlt_Qlt.
    destruct (index col data); [destruct S | simpl List.length; lia]. }
  assert (Mean : forall col value, In value (columns col data) ->
                 column_mean col data value
                 * inject_Z (Z.of_nat (List.length (index col data)))
                 == column_total col data value).
  { intros col value I. unfold column_mean. rewrite Col.
    field. intros Z0. assert (P := Pos col value I). rewrite Z0 in P.
    apply (Qlt_irrefl 0). exact P. }
  assert (All : forall col,
             qsum (map (column_mean col data) (columns col data))
             * inject_Z (Z.of_nat (List.length (index col data)))
             == qsum (dropna (map snd (keyed col data)))).
  { intros col. apply column_means_total. }
  cbv zeta. split; [|split].
  - intros value I. split; [apply (Pos column value I) | apply Mean; exact I].
  - apply All.
  - intros bryophyte_data lichen_data.
    unfold Structure.biotic_sum, structure_biotic.
    rewrite !map_app, !qsum_app, Qplus_assoc.
    rewrite (means_per_site_visit data), (means_per_site_visit bryophyte_data),
      (means_per_site_visit lichen_data).
    reflexivity.
Qed.

Lemma pivot_means_are_totals_per_site_visit_witness :
  0 < inject_Z (Z.of_nat (List.length (index Taxa.taxon_habit Samples.cover_table)))
  /\ column_mean Taxa.taxon_habit Samples.cover_table "graminoid"
     * inject_Z (Z.of_nat (List.length (index Taxa.taxon_habit Samples.cover_table)))
     == column_total Taxa.taxon_habit Samples.cover_table "graminoid".
Proof.
  refine (proj1 (pivot_means_are_totals_per_site_visit
                   Taxa.taxon_habit Samples.cover_table) "graminoid"%string _).
  vm_compute. tauto.
Defined.

End PivotFacts.
